(** * eddy: deprojection, velocity models and the likelihood of [rotationmap]

    A shallow embedding of [eddy/deprojection.py], [eddy/models.py] and the
    parameter, prior and likelihood methods of [eddy/fit_cube.py].

    Numbers.  NumPy and Python floats are modelled by [float]: a finite value
    is an exact real number, and the three special values of IEEE 754
    (plus and minus infinity, not-a-number) are kept because the code tests
    for them ([np.isfinite], [-np.inf], [np.inf], [np.nanmin]).  Rounding,
    overflow and the sign of zero are not modelled.

    Errors.  A Python exception is a value [Err e] of the [result] type.

    Dictionaries.  A Python [dict] keeps its keys in insertion order and
    [_ln_prior] leaves its loop early, so a dictionary is an association
    list in insertion order. *)

From Stdlib Require Import Reals Lra Lia String Ascii ZArith Bool List.
Import ListNotations.

Local Open Scope R_scope.

(** ** Floating-point values *)

Inductive float : Type :=
| Fin (r : R)
| PInf
| NInf
| NaN.

Definition Rltb (x y : R) : bool := if Rlt_dec x y then true else false.
Definition Rleb (x y : R) : bool := if Rle_dec x y then true else false.
Definition Reqb (x y : R) : bool := if Req_dec_T x y then true else false.

Definition isfinite (x : float) : bool :=
  match x with Fin _ => true | _ => false end.

Definition isnan (x : float) : bool :=
  match x with NaN => true | _ => false end.

Definition fneg (x : float) : float :=
  match x with
  | Fin r => Fin (- r)
  | PInf => NInf
  | NInf => PInf
  | NaN => NaN
  end.

Definition fabs (x : float) : float :=
  match x with
  | Fin r => Fin (Rabs r)
  | PInf | NInf => PInf
  | NaN => NaN
  end.

Definition fadd (x y : float) : float :=
  match x, y with
  | NaN, _ | _, NaN => NaN
  | Fin a, Fin b => Fin (a + b)
  | PInf, NInf | NInf, PInf => NaN
  | PInf, _ | _, PInf => PInf
  | NInf, _ | _, NInf => NInf
  end.

Definition fsub (x y : float) : float := fadd x (fneg y).

(** An infinity of the sign of [r] times the sign of [pos]; [0 * inf] is
    not a number. *)
Definition signed_inf (r : R) (pos : bool) : float :=
  if Rltb 0 r then (if pos then PInf else NInf)
  else if Rltb r 0 then (if pos then NInf else PInf)
  else NaN.

Definition fmul (x y : float) : float :=
  match x, y with
  | NaN, _ | _, NaN => NaN
  | Fin a, Fin b => Fin (a * b)
  | Fin a, PInf | PInf, Fin a => signed_inf a true
  | Fin a, NInf | NInf, Fin a => signed_inf a false
  | PInf, PInf | NInf, NInf => PInf
  | PInf, NInf | NInf, PInf => NInf
  end.

(** NumPy division: a finite non-zero value over zero is an infinity,
    [0 / 0] and [inf / inf] are not a number. *)
Definition fdiv (x y : float) : float :=
  match x, y with
  | NaN, _ | _, NaN => NaN
  | Fin a, Fin b => if Reqb b 0 then signed_inf a true else Fin (a / b)
  | Fin _, (PInf | NInf) => Fin 0
  | PInf, Fin b => if Rltb b 0 then NInf else PInf
  | NInf, Fin b => if Rltb b 0 then PInf else NInf
  | (PInf | NInf), (PInf | NInf) => NaN
  end.

Definition fsqr (x : float) : float := fmul x x.

(** Comparisons are false as soon as one side is not a number. *)
Definition flt (x y : float) : bool :=
  match x, y with
  | NaN, _ | _, NaN => false
  | Fin a, Fin b => Rltb a b
  | NInf, (Fin _ | PInf) => true
  | Fin _, PInf => true
  | _, _ => false
  end.

Definition fle (x y : float) : bool :=
  match x, y with
  | NaN, _ | _, NaN => false
  | Fin a, Fin b => Rleb a b
  | NInf, _ => true
  | _, PInf => true
  | _, _ => false
  end.

Definition fgt (x y : float) : bool := flt y x.
Definition fge (x y : float) : bool := fle y x.

(** [np.maximum]: the larger value, not-a-number when either is. *)
Definition fmaximum (x y : float) : float :=
  match x, y with
  | NaN, _ | _, NaN => NaN
  | _, _ => if fle x y then y else x
  end.

Definition fsqrt (x : float) : float :=
  match x with
  | Fin r => if Rltb r 0 then NaN else Fin (sqrt r)
  | PInf => PInf
  | NInf | NaN => NaN
  end.

Definition fexp (x : float) : float :=
  match x with
  | Fin r => Fin (exp r)
  | PInf => PInf
  | NInf => Fin 0
  | NaN => NaN
  end.

Definition flog (x : float) : float :=
  match x with
  | Fin r => if Rltb 0 r then Fin (ln r)
             else if Reqb r 0 then NInf else NaN
  | PInf => PInf
  | NInf | NaN => NaN
  end.

Definition fcos (x : float) : float :=
  match x with Fin r => Fin (cos r) | _ => NaN end.

Definition fsin (x : float) : float :=
  match x with Fin r => Fin (sin r) | _ => NaN end.

(** The tangent of a finite value is finite, as it is in floating point,
    where no argument falls on a pole. *)
Definition ftan (x : float) : float :=
  match x with Fin r => Fin (tan r) | _ => NaN end.

(** [np.radians]. *)
Definition radians (x : float) : float := fmul x (Fin (PI / 180)).

(** [np.hypot]: infinite when either side is, whatever the other. *)
Definition fhypot (x y : float) : float :=
  match x, y with
  | (PInf | NInf), _ | _, (PInf | NInf) => PInf
  | NaN, _ | _, NaN => NaN
  | Fin a, Fin b => Fin (sqrt (a * a + b * b))
  end.

(** [np.arctan2 y x] for finite arguments: the angle of the point [(x, y)]
    in (-pi, pi]. *)
Definition Ratan2 (y x : R) : R :=
  if Rltb 0 x then atan (y / x)
  else if Rltb x 0
       then (if Rltb y 0 then atan (y / x) - PI else atan (y / x) + PI)
  else if Rltb 0 y then PI / 2
  else if Rltb y 0 then - (PI / 2)
  else 0.

Definition farctan2 (y x : float) : float :=
  match y, x with
  | NaN, _ | _, NaN => NaN
  | Fin a, Fin b => Fin (Ratan2 a b)
  | Fin a, PInf => Fin 0
  | Fin a, NInf => if Rltb a 0 then Fin (- PI) else Fin PI
  | PInf, Fin _ => Fin (PI / 2)
  | NInf, Fin _ => Fin (- (PI / 2))
  | PInf, PInf => Fin (PI / 4)
  | PInf, NInf => Fin (3 * PI / 4)
  | NInf, PInf => Fin (- (PI / 4))
  | NInf, NInf => Fin (- (3 * PI / 4))
  end.

Definition is_int (s : R) : bool := Reqb s (IZR (Int_part s)).
Definition is_odd_int (s : R) : bool := is_int s && Z.odd (Int_part s).

(** [np.power] with a real exponent, after the C library's [pow]. *)
Definition fpower (x y : float) : float :=
  match y with
  | Fin s =>
      if Reqb s 0 then Fin 1 else
      match x with
      | Fin r =>
          if Rltb 0 r then Fin (Rpower r s)
          else if Reqb r 0 then (if Rltb 0 s then Fin 0 else PInf)
          else if is_int s then Fin (powerRZ r (Int_part s)) else NaN
      | PInf => if Rltb 0 s then PInf else Fin 0
      | NInf => if Rltb 0 s then (if is_odd_int s then NInf else PInf)
                else Fin 0
      | NaN => NaN
      end
  | PInf =>
      match x with
      | Fin r => if Reqb (Rabs r) 1 then Fin 1
                 else if Rltb (Rabs r) 1 then Fin 0 else PInf
      | PInf | NInf => PInf
      | NaN => NaN
      end
  | NInf =>
      match x with
      | Fin r => if Reqb (Rabs r) 1 then Fin 1
                 else if Rltb (Rabs r) 1 then PInf else Fin 0
      | PInf | NInf => Fin 0
      | NaN => NaN
      end
  | NaN =>
      match x with
      | Fin r => if Reqb r 1 then Fin 1 else NaN
      | _ => NaN
      end
  end.

Declare Scope float_scope.
Delimit Scope float_scope with fl.
Bind Scope float_scope with float.
Infix "+" := fadd : float_scope.
Infix "-" := fsub : float_scope.
Infix "*" := fmul : float_scope.
Infix "/" := fdiv : float_scope.
Notation "- x" := (fneg x) : float_scope.

(** ** Exceptions and results *)

Inductive exn : Type :=
| KeyError (key : string)
| ValueError (msg : string)
| NameError (name : string)
| TypeError
| IndexError
| AttributeError.

Inductive result (A : Type) : Type :=
| Ok (a : A)
| Err (e : exn).

Arguments Ok {A} a.
Arguments Err {A} e.

Definition bind {A B : Type} (m : result A) (k : A -> result B) : result B :=
  match m with
  | Ok a => k a
  | Err e => Err e
  end.

Notation "x <- m ;; k" := (bind m (fun x => k))
  (at level 61, m at next level, right associativity).
Notation "' pat <- m ;; k" := (bind m (fun x => match x with pat => k end))
  (at level 61, pat pattern, m at next level, right associativity).

Definition raises {A : Type} (m : result A) : Prop := exists e, m = Err e.
Definition returns {A : Type} (m : result A) : Prop := exists a, m = Ok a.

(** ** Python values and dictionaries *)

Definition array1 := list float.
Definition array2 := list (list float).

Inductive value : Type :=
| VNone
| VBool (b : bool)
| VInt (n : Z)
| VFloat (x : float)
| VStr (s : string)
| VArr (a : array1).

Definition dict := list (string * value).

(** [d.get(k)] *)
Fixpoint dict_get (d : dict) (k : string) : option value :=
  match d with
  | [] => None
  | (k', v) :: d' => if String.eqb k' k then Some v else dict_get d' k
  end.

(** [d[k]], a [KeyError] when [k] is absent *)
Definition dict_item (d : dict) (k : string) : result value :=
  match dict_get d k with
  | Some v => Ok v
  | None => Err (KeyError k)
  end.

(** [d.get(k, dflt)] *)
Definition dict_get_default (d : dict) (k : string) (dflt : value) : value :=
  match dict_get d k with
  | Some v => v
  | None => dflt
  end.

(** [del d[k]] when present *)
Definition dict_remove (d : dict) (k : string) : dict :=
  filter (fun kv => negb (String.eqb (fst kv) k)) d.

(** [d[k] = v]: a present key keeps its place, a new one goes last *)
Fixpoint dict_set (d : dict) (k : string) (v : value) : dict :=
  match d with
  | [] => [(k, v)]
  | (k', v') :: d' =>
      if String.eqb k' k then (k, v) :: d' else (k', v') :: dict_set d' k v
  end.

(** [d.pop(k, dflt)]: the value and the dictionary without the key *)
Definition dict_pop (d : dict) (k : string) (dflt : value) : value * dict :=
  (dict_get_default d k dflt, dict_remove d k).

(** [d[k] = d.pop(k, dflt)] *)
Definition refill (d : dict) (k : string) (dflt : value) : dict :=
  let '(v, d') := dict_pop d k dflt in dict_set d' k v.

(** [d.get(k) is None]: the key is absent or holds [None] *)
Definition is_none (d : dict) (k : string) : bool :=
  match dict_get d k with
  | None | Some VNone => true
  | Some _ => false
  end.

(** The number a value stands for in arithmetic and comparisons; [bool] is
    a subclass of [int] in Python. *)
Definition as_float (v : value) : result float :=
  match v with
  | VBool b => Ok (Fin (if b then 1 else 0))
  | VInt n => Ok (Fin (IZR n))
  | VFloat x => Ok x
  | VNone | VStr _ | VArr _ => Err TypeError
  end.

Definition is_number (v : value) : bool :=
  match v with
  | VBool _ | VInt _ | VFloat _ => true
  | _ => false
  end.

(** [a >= b] on values *)
Definition py_ge (a b : value) : result bool :=
  x <- as_float a ;; y <- as_float b ;; Ok (fge x y).

(** [bool(v)]; an array of more than one element has no truth value *)
Definition py_bool (v : value) : result bool :=
  match v with
  | VNone => Ok false
  | VBool b => Ok b
  | VInt n => Ok (negb (Z.eqb n 0))
  | VFloat (Fin r) => Ok (negb (Reqb r 0))
  | VFloat _ => Ok true
  | VStr s => Ok (match s with EmptyString => false | _ => true end)
  | VArr [Fin r] => Ok (negb (Reqb r 0))
  | VArr [_] => Ok true
  | VArr _ => Err (ValueError "truth value of an array")
  end.

(** [v == s] for a string literal [s] *)
Definition py_eq_str (v : value) (s : string) : bool :=
  match v with
  | VStr s' => String.eqb s' s
  | _ => false
  end.

(** The builtin [max] and [min] of a sequence of floats: the first element
    is kept until a later one compares strictly larger (smaller). *)
Definition py_max (l : list float) : result float :=
  match l with
  | [] => Err (ValueError "max() arg is an empty sequence")
  | x :: l' => Ok (fold_left (fun m y => if fgt y m then y else m) l' x)
  end.

Definition py_min (l : list float) : result float :=
  match l with
  | [] => Err (ValueError "min() arg is an empty sequence")
  | x :: l' => Ok (fold_left (fun m y => if flt y m then y else m) l' x)
  end.

(** [np.nanmin] and [np.nanmax] of an image: not-a-number pixels are
    skipped, an image of nothing else gives not-a-number, an empty image is
    an error. *)
Definition np_nanmin (a : array2) : result float :=
  match concat a with
  | [] => Err (ValueError "zero-size array")
  | _ =>
      match filter (fun x => negb (isnan x)) (concat a) with
      | [] => Ok NaN
      | x :: l => Ok (fold_left (fun m y => if flt y m then y else m) l x)
      end
  end.

Definition np_nanmax (a : array2) : result float :=
  match concat a with
  | [] => Err (ValueError "zero-size array")
  | _ =>
      match filter (fun x => negb (isnan x)) (concat a) with
      | [] => Ok NaN
      | x :: l => Ok (fold_left (fun m y => if fgt y m then y else m) l x)
      end
  end.

(** ** Images

    NumPy evaluates an arithmetic expression on arrays pixel by pixel.  An
    image is a list of rows, and a tuple of images of one shape (as returned
    by [np.meshgrid] or by the coordinate functions) is an image of
    tuples. *)

Definition grid (A : Type) : Type := list (list A).

Definition gmap {A B : Type} (f : A -> B) (g : grid A) : grid B :=
  map (map f) g.

Definition pixel {A : Type} (g : grid A) (i j : nat) : option A :=
  match nth_error g i with
  | Some row => nth_error row j
  | None => None
  end.

(** [np.meshgrid(xs, ys)]: pixel [(i, j)] holds [(xs[j], ys[i])]. *)
Definition meshgrid (xs ys : array1) : grid (float * float) :=
  map (fun y => map (fun x => (x, y)) xs) ys.

(** Two images of one shape combined pixel by pixel. *)
Fixpoint zip_with {A B C : Type} (f : A -> B -> C) (a : list A) (b : list B)
  : list C :=
  match a, b with
  | x :: a', y :: b' => f x y :: zip_with f a' b'
  | _, _ => []
  end.

Definition map2_rows {A B C : Type} (f : A -> B -> C) (a : grid A) (b : grid B)
  : grid C :=
  zip_with (zip_with f) a b.

(** ** eddy/deprojection.py *)

Module dp.

Local Open Scope float_scope.

Definition z_func (r_in z0 r_cavity r_taper psi q_taper : float) : float :=
  let r := fmaximum (r_in - r_cavity) (Fin 0) in
  let z := z0 * fpower r psi * fexp (- fpower (r / r_taper) q_taper) in
  fmaximum z (Fin 0).

Definition w_func (r_in t r_cavity w_r w_i w_t : float) : float :=
  let r := fmaximum (r_in - r_cavity) (Fin 0) in
  let warp := radians w_i * fexp (Fin (-0.5) * fpower (r / w_r) (Fin 2)) in
  r * ftan (warp * fsin (t - radians w_t)).

(** The body of the loop of [_get_flared_coords], run [niter] times from
    [(r_tmp, t_tmp)]. *)
Fixpoint flared_loop (niter : nat)
    (x_mid y_mid inc z0 r_cavity r_taper psi q_taper w_r w_i w_t : float)
    (r_tmp t_tmp : float) : float * float :=
  match niter with
  | O => (r_tmp, t_tmp)
  | S n =>
      let z_tmp := z_func r_tmp z0 r_cavity r_taper psi q_taper
                   + w_func r_tmp t_tmp r_cavity w_r w_i w_t in
      let y_tmp := y_mid + z_tmp * ftan (radians inc) in
      flared_loop n x_mid y_mid inc z0 r_cavity r_taper psi q_taper w_r w_i w_t
        (fhypot y_tmp x_mid) (farctan2 y_tmp x_mid)
  end.

Definition _get_flared_coords
    (x_mid y_mid inc z0 r_cavity r_taper psi q_taper w_r w_i w_t : float)
    (niter : nat) : float * float * float :=
  let r_tmp := fhypot x_mid y_mid in
  let t_tmp := farctan2 y_mid x_mid in
  let '(r_tmp, t_tmp) :=
    flared_loop niter x_mid y_mid inc z0 r_cavity r_taper psi q_taper
      w_r w_i w_t r_tmp t_tmp in
  (r_tmp, t_tmp, z_func r_tmp z0 r_cavity r_taper psi q_taper).

Definition rotate_coords (x y PA : float) : float * float :=
  let x_rot := y * fcos (radians PA) + x * fsin (radians PA) in
  let y_rot := x * fcos (radians PA) - y * fsin (radians PA) in
  (x_rot, y_rot).

Definition deproject_coords (x y inc : float) : float * float :=
  (x, y / fcos (radians inc)).

Definition get_cart_sky_coords (x0 y0 : float) (xaxis yaxis : array1)
  : grid (float * float) :=
  meshgrid (map (fun x => x - x0) xaxis) (map (fun y => y - y0) yaxis).

Definition get_midplane_cart_coords (x0 y0 inc PA : float)
    (xaxis yaxis : array1) : grid (float * float) :=
  let sky := get_cart_sky_coords x0 y0 xaxis yaxis in
  let rot := gmap (fun '(x_sky, y_sky) => rotate_coords x_sky y_sky PA) sky in
  gmap (fun '(x_rot, y_rot) => deproject_coords x_rot y_rot inc) rot.

Definition get_flared_coords (x0 y0 : float) (xaxis yaxis : array1)
    (inc PA z0 r_cavity r_taper psi q_taper w_r w_i w_t : float) (niter : nat)
  : grid (float * float * float) :=
  let mid := get_midplane_cart_coords x0 y0 inc PA xaxis yaxis in
  gmap (fun '(x_mid, y_mid) =>
          _get_flared_coords x_mid y_mid inc z0 r_cavity r_taper psi q_taper
            w_r w_i w_t niter) mid.

(** [get_r_t] at one pixel of the disk-frame images. *)
Definition get_r_t (x_disk y_disk : float) : float * float :=
  let r_disk := fhypot x_disk y_disk in
  let t_disk := farctan2 y_disk x_disk in
  (r_disk, t_disk).

End dp.

(** ** eddy/models.py *)

Module models.

Local Open Scope float_scope.

(** [scipy.constants.au], [scipy.constants.G] (CODATA 2018) and the solar
    mass of the module. *)
Definition au : float := Fin 149597870700.
Definition G : float := Fin 6.6743e-11.
Definition msun : float := Fin 1.988e30.

(** The names bound at module level: three numbers, and the imported
    modules and the functions, which are not numbers. *)
Definition numeric_globals : list (string * float) :=
  [("au", au); ("G", G); ("msun", msun)]%string.

Definition other_globals : list string :=
  ["np"; "dp"; "numba"; "sc";
   "proj_vkep"; "proj_vpow"; "proj_vphi"; "proj_vrad"]%string.

(** Reading a name that is not local to a function: the module's binding,
    a [NameError] when there is none. *)
Definition load_global (name : string) : result float :=
  match find (fun kv => String.eqb (fst kv) name) numeric_globals with
  | Some (_, x) => Ok x
  | None =>
      if existsb (String.eqb name) other_globals then Err TypeError
      else Err (NameError name)
  end.

Definition proj_vphi (v_phi tvals inc : float) : float :=
  v_phi * fcos tvals * fabs (fsin (radians inc)).

Definition proj_vrad (v_rad tvals inc : float) : float :=
  v_rad * fsin tvals * fabs (fsin (radians inc)).

Definition proj_vkep (rvals tvals zvals dist mstar inc : float) : float :=
  let rvals := rvals * au * dist in
  let zvals := zvals * au * dist in
  let v_phi := G * mstar * msun * fpower rvals (Fin 2) in
  let v_phi := fsqrt (v_phi * fpower (fhypot rvals zvals) (Fin (-3))) in
  proj_vphi v_phi tvals inc.

(** [proj_vpow] on the images [(rvals, tvals, zvals)].  Its body reads
    [vr_q] and [vr_100], which are neither arguments nor module names. *)
Definition proj_vpow (coords : grid (float * float * float))
    (dist : float) (mstar : value) (inc vp_q vp_100 vp_qtaper vp_rtaper : float)
  : result (grid float) :=
  let v_phi := gmap (fun '(rvals, tvals, zvals) =>
      let v_phi := fpower (rvals * dist / Fin 100) vp_q in
      let v_phi := v_phi * fexp (- fpower (rvals / vp_rtaper) vp_qtaper) in
      proj_vphi (vp_100 * v_phi) tvals inc) coords in
  vr_q <- load_global "vr_q" ;;
  let v_rad := gmap (fun '(rvals, tvals, zvals) =>
      fpower (rvals * dist / Fin 100) vr_q) coords in
  vr_100 <- load_global "vr_100" ;;
  let v_rad := map2_rows (fun v '(rvals, tvals, zvals) =>
      proj_vrad (vr_100 * v) tvals inc) v_rad coords in
  Ok (map2_rows (fun a b => a + b) v_phi v_rad).

End models.

(** ** eddy/fit_cube.py: the [rotationmap] object *)

(** [str.lower] on ASCII letters. *)
Definition lower_ascii (c : ascii) : ascii :=
  let n := nat_of_ascii c in
  if (65 <=? n)%nat && (n <=? 90)%nat then ascii_of_nat (n + 32) else c.

Fixpoint lower (s : string) : string :=
  match s with
  | EmptyString => EmptyString
  | String c s' => String (lower_ascii c) (lower s')
  end.

(** The attributes of a loaded map that the modelled methods read.
    [beam_convolve] stands for [_convolve_image] applied with the map's
    [_beamkernel()], which is astropy's. *)
Record rotationmap : Type := {
  data : array2;
  error : array2;
  mask : grid bool;
  ivar : array2;
  xaxis : array1;
  yaxis : array1;
  vlsr : float;
  shadowed : bool;
  disk_coords_niter : nat;
  beam_convolve : array2 -> result array2
}.

(** [self.mask = np.isfinite(self.data)], as [__init__] sets it. *)
Definition finite_mask (d : array2) : grid bool := gmap isfinite d.

Definition shape {A : Type} (g : grid A) : list nat := map (@List.length A) g.

Definition same_shape {A B : Type} (a : grid A) (b : grid B) : bool :=
  if list_eq_dec Nat.eq_dec (shape a) (shape b) then true else false.

(** A binary operation on two images.  Only images of one shape are
    combined; the other cases are reported as NumPy's [ValueError]. *)
Definition np_zip {A B C : Type} (f : A -> B -> C) (a : grid A) (b : grid B)
  : result (grid C) :=
  if same_shape a b then Ok (map2_rows f a b)
  else Err (ValueError "operands could not be broadcast together").

(** [np.sum] of an image. *)
Definition np_sum (a : array2) : float :=
  fold_left fadd (List.concat a) (Fin 0).

Section Methods.

Local Open Scope string_scope.
Local Open Scope float_scope.

Variable self : rotationmap.

(** *** [disk_coords] *)

(** The value bound to a keyword argument when a function is called with
    the entries of the dictionary [kw] as keywords. *)
Definition kwarg (kw : dict) (name : string) (dflt : value) : value :=
  dict_get_default kw name dflt.

(** [dflt if v is None else v] *)
Definition none_to (v dflt : value) : value :=
  match v with VNone => dflt | _ => v end.

Definition is_not_none (v : value) : bool :=
  match v with VNone => false | _ => true end.

(** An axis argument: [None] selects the map's axis, a number is an axis
    of one pixel. *)
Definition as_axis (v : value) (dflt : array1) : result array1 :=
  match v with
  | VNone => Ok dflt
  | VArr a => Ok a
  | v => x <- as_float v ;; Ok [x]
  end.

(** [inc = inc if inc < 90.0 else inc - 180.0] *)
Definition apply_inc_convention (inc : float) : float :=
  if flt inc (Fin 90) then inc else inc - Fin 180.

(** [disk_coords], called with the entries of [kw] as keywords.  With
    [self.shadowed] set, the call of
    [get_shadowed_coords] reads the names [z_func] and [w_func], which the
    module does not bind.  The geometric parameters are turned into numbers
    where the engine is called; Python raises the same [TypeError] at their
    first use in arithmetic. *)
Definition disk_coords (kw : dict) : result (grid (float * float * float)) :=
  frame <- match kwarg kw "frame" (VStr "cylindrical") with
           | VStr s => Ok (lower s)
           | _ => Err AttributeError
           end ;;
  if negb (String.eqb frame "cylindrical" || String.eqb frame "cartesian")
  then Err (ValueError "frame must be 'cylindrical' or 'cartesian'.") else
  let xaxis_arg := kwarg kw "xaxis" VNone in
  let yaxis_arg := kwarg kw "yaxis" VNone in
  inc <- as_float (kwarg kw "inc" (VFloat (Fin 0))) ;;
  let inc := apply_inc_convention inc in
  let r_taper := kwarg kw "r_taper" VNone in
  let q_taper := kwarg kw "q_taper" VNone in
  if xorb (is_not_none r_taper) (is_not_none q_taper)
  then Err (ValueError
         "Must specify either both or neither of `r_taper` and `q_taper`.") else
  let z0 := none_to (kwarg kw "z0" (VFloat (Fin 0))) (VFloat (Fin 0)) in
  let psi := none_to (kwarg kw "psi" (VFloat (Fin 0))) (VFloat (Fin 1)) in
  let r_cavity :=
    none_to (kwarg kw "r_cavity" (VFloat (Fin 0))) (VFloat (Fin 0)) in
  let r_taper := none_to r_taper (VFloat PInf) in
  let q_taper := none_to q_taper (VFloat (Fin 1)) in
  if shadowed self then Err (NameError "z_func") else
  xs <- as_axis xaxis_arg (xaxis self) ;;
  ys <- as_axis yaxis_arg (yaxis self) ;;
  x0 <- as_float (kwarg kw "x0" (VFloat (Fin 0))) ;;
  y0 <- as_float (kwarg kw "y0" (VFloat (Fin 0))) ;;
  PA <- as_float (kwarg kw "PA" (VFloat (Fin 0))) ;;
  z0 <- as_float z0 ;;
  r_cavity <- as_float r_cavity ;;
  r_taper <- as_float r_taper ;;
  psi <- as_float psi ;;
  q_taper <- as_float q_taper ;;
  w_r <- as_float (kwarg kw "w_r" (VFloat (Fin 1))) ;;
  w_i <- as_float (kwarg kw "w_i" (VFloat (Fin 0))) ;;
  w_t <- as_float (kwarg kw "w_t" (VFloat (Fin 0))) ;;
  let coords := dp.get_flared_coords x0 y0 xs ys inc PA z0 r_cavity r_taper
                  psi q_taper w_r w_i w_t (disk_coords_niter self) in
  if String.eqb frame "cylindrical" then Ok coords
  else Ok (gmap (fun '(r, t, z) => (r * fcos t, r * fsin t, z)) coords).

(** *** [vphi], [_make_model] *)

Definition item_float (params : dict) (k : string) : result float :=
  v <- dict_item params k ;; as_float v.

Definition vphi (params : dict) : result array2 :=
  coords <- disk_coords params ;;
  vfunc <- dict_item params "vfunc" ;;
  v_phi <-
    (if py_eq_str vfunc "proj_vkep" then
       dist <- dict_item params "dist" ;;
       mstar <- dict_item params "mstar" ;;
       inc <- dict_item params "inc" ;;
       dist <- as_float dist ;;
       mstar <- as_float mstar ;;
       inc <- as_float inc ;;
       Ok (gmap (fun '(rvals, tvals, zvals) =>
                   models.proj_vkep rvals tvals zvals dist mstar inc) coords)
     else
       dist <- dict_item params "dist" ;;
       mstar <- dict_item params "mstar" ;;
       inc <- dict_item params "inc" ;;
       vp_q <- dict_item params "vp_q" ;;
       vp_100 <- dict_item params "vp_100" ;;
       vp_qtaper <- dict_item params "vp_qtaper" ;;
       vp_rtaper <- dict_item params "vp_rtaper" ;;
       dist <- as_float dist ;;
       inc <- as_float inc ;;
       vp_q <- as_float vp_q ;;
       vp_100 <- as_float vp_100 ;;
       vp_qtaper <- as_float vp_qtaper ;;
       vp_rtaper <- as_float vp_rtaper ;;
       models.proj_vpow coords dist mstar inc vp_q vp_100 vp_qtaper
         vp_rtaper) ;;
  vlsr <- item_float params "vlsr" ;;
  Ok (gmap (fun v => v + vlsr) v_phi).

Definition _make_model (params : dict) : result array2 :=
  v_phi <- vphi params ;;
  beam <- dict_item params "beam" ;;
  b <- py_bool beam ;;
  if b then beam_convolve self v_phi else Ok v_phi.

(** *** [verify_params_dictionary] *)

(** A run of statements [params[k] = params.pop(k, dflt)]. *)
Definition refill_all (params : dict) (defaults : list (string * value))
  : dict :=
  fold_left (fun d kv => refill d (fst kv) (snd kv)) defaults params.

Definition basic_defaults : list (string * value) :=
  [("x0", VFloat (Fin 0)); ("y0", VFloat (Fin 0));
   ("dist", VFloat (Fin 100)); ("vlsr", VFloat (vlsr self))].

Definition profile_defaults : list (string * value) :=
  [("vp_q", VFloat (Fin (-0.5))); ("vp_rtaper", VFloat (Fin 1e10));
   ("vp_qtaper", VFloat (Fin 1)); ("vr_100", VFloat (Fin 0));
   ("vr_q", VFloat (Fin 0));
   ("z0", VFloat (Fin 0)); ("psi", VFloat (Fin 1));
   ("r_taper", VFloat (Fin 1e10)); ("q_taper", VFloat (Fin 1));
   ("r_cavity", VFloat (Fin 0));
   ("w_i", VFloat (Fin 0))].

Definition mask_defaults (w_r v_min v_max : float) : list (string * value) :=
  [("w_r", VFloat w_r);
   ("w_t", VFloat (Fin 0)); ("shadowed", VBool false);
   ("r_min", VFloat (Fin 0)); ("r_max", VFloat (Fin 1e10));
   ("exclude_r", VBool false);
   ("PA_min", VFloat (Fin (- PI))); ("PA_max", VFloat (Fin PI));
   ("exclude_PA", VBool false); ("abs_PA", VBool false);
   ("v_min", VFloat v_min); ("v_max", VFloat v_max);
   ("exclude_v", VBool false)].

(** [if params[lo] >= params[hi]: raise ValueError(msg)] *)
Definition check_bounds (params : dict) (lo hi msg : string) : result unit :=
  a <- dict_item params lo ;;
  b <- dict_item params hi ;;
  c <- py_ge a b ;;
  if c then Err (ValueError msg) else Ok tt.

Definition verify_params_dictionary (params : dict) : result dict :=
  let params := refill_all params basic_defaults in
  if is_none params "inc" then Err (KeyError "Must provide `'inc'`.") else
  if is_none params "PA" then Err (KeyError "Must provide `'PA'`.") else
  let has_vp_100 := negb (is_none params "vp_100") in
  let has_mstar := negb (is_none params "mstar") in
  if has_mstar && has_vp_100
  then Err (KeyError "Only provide either `'mstar'` or `'vp_100'`.") else
  if negb has_mstar && negb has_vp_100
  then Err (KeyError "Must provide either `'mstar'` or `'vp_100'`.") else
  let params :=
    dict_set params "vfunc"
      (VStr (if has_mstar then "proj_vkep" else "proj_vpow")) in
  let params := refill_all params profile_defaults in
  xmax <- py_max (xaxis self) ;;
  v_min <- np_nanmin (data self) ;;
  v_max <- np_nanmax (data self) ;;
  let params :=
    refill_all params (mask_defaults (Fin 0.5 * xmax) v_min v_max) in
  _ <- check_bounds params "r_min" "r_max"
         "`r_max` must be greater than `r_min`." ;;
  _ <- check_bounds params "PA_min" "PA_max"
         "`PA_max` must be great than `PA_min`." ;;
  _ <- check_bounds params "v_min" "v_max"
         "`v_max` must be greater than `v_min`." ;;
  let '(beam, params) := dict_pop params "beam" (VBool false) in
  b <- py_bool beam ;;
  Ok (dict_set params "beam" (VBool b)).

(** [evaluate_model(params)] with [coords_only=False] *)
Definition evaluate_model (params : dict) : result array2 :=
  verified_params <- verify_params_dictionary params ;;
  _make_model verified_params.

End Methods.

(** ** Priors *)

(** A prior is the closure that [set_prior] stores: its kind and the list
    [args] it was built from. *)
Inductive prior : Type :=
| FlatPrior (args : list float)
| GaussianPrior (args : list float).

(** [rotationmap.priors], the registry shared by all maps. *)
Definition registry := list (string * prior).

Fixpoint registry_get (priors : registry) (k : string) : option prior :=
  match priors with
  | [] => None
  | (k', f) :: rest => if String.eqb k' k then Some f else registry_get rest k
  end.

Fixpoint registry_set (priors : registry) (k : string) (f : prior) : registry :=
  match priors with
  | [] => [(k, f)]
  | (k', f') :: rest =>
      if String.eqb k' k then (k, f) :: rest
      else (k', f') :: registry_set rest k f
  end.

(** [args[i]] *)
Definition list_item (args : list float) (i : nat) : result float :=
  match nth_error args i with
  | Some x => Ok x
  | None => Err IndexError
  end.

Section Priors.

Local Open Scope string_scope.
Local Open Scope float_scope.

(** The call [prior(p)] of a stored closure.  In the chained comparison
    [min(args) <= p <= max(args)] the second bound is looked at only when
    the first comparison holds. *)
Definition eval_prior (f : prior) (p : value) : result float :=
  match f with
  | FlatPrior args =>
      lo <- py_min args ;;
      p <- as_float p ;;
      inside <- (if fle lo p then hi <- py_max args ;; Ok (fle p hi)
                 else Ok false) ;;
      if negb inside then Ok NInf
      else
        a1 <- list_item args 1 ;;
        a0 <- list_item args 0 ;;
        Ok (flog (Fin 1 / (a1 - a0)))
  | GaussianPrior args =>
      a0 <- list_item args 0 ;;
      p <- as_float p ;;
      a1 <- list_item args 1 ;;
      let lnp := fexp (Fin (-0.5) * fpower ((a0 - p) / a1) (Fin 2)) in
      Ok (flog (lnp / fsqrt (Fin 2 * Fin PI) / a1))
  end.

Definition set_prior (priors : registry) (param : string) (args : list float)
    (type : string) : result registry :=
  let type := lower type in
  if negb (String.eqb type "flat" || String.eqb type "gaussian")
  then Err (ValueError "type must be 'flat' or 'gaussian'.")
  else if String.eqb type "flat"
       then Ok (registry_set priors param (FlatPrior args))
       else Ok (registry_set priors param (GaussianPrior args)).

(** A run of calls [self.set_prior(param, [lo, hi], 'flat')]. *)
Fixpoint set_flat_priors (priors : registry)
    (table : list (string * (float * float))) : result registry :=
  match table with
  | [] => Ok priors
  | (param, (lo, hi)) :: rest =>
      priors <- set_prior priors param [lo; hi] "flat" ;;
      set_flat_priors priors rest
  end.

(** [a.max()] of an axis: not-a-number whenever the axis contains one. *)
Definition np_amax (a : array1) : result float :=
  match a with
  | [] => Err (ValueError "zero-size array")
  | x :: l =>
      if existsb isnan a then Ok NaN
      else Ok (fold_left (fun m y => if fgt y m then y else m) l x)
  end.

Definition _set_default_priors (self : rotationmap) (priors : registry)
  : result registry :=
  priors <- set_flat_priors priors
    [("x0", (Fin (-2), Fin 2)); ("y0", (Fin (-2), Fin 2));
     ("inc", (Fin (-90), Fin 90)); ("PA", (Fin (-360), Fin 360));
     ("mstar", (Fin 0.1, Fin 5))] ;;
  v_min <- np_nanmin (data self) ;;
  v_max <- np_nanmax (data self) ;;
  priors <- set_prior priors "vlsr" [v_min * Fin 1e3; v_max * Fin 1e3] "flat" ;;
  priors <- set_flat_priors priors
    [("z0", (Fin 0, Fin 5)); ("psi", (Fin 0, Fin 5));
     ("r_cavity", (Fin 0, Fin 1e30)); ("r_taper", (Fin 0, Fin 1e30));
     ("q_taper", (Fin 0, Fin 5));
     ("w_i", (Fin (-90), Fin 90))] ;;
  x_max <- np_amax (xaxis self) ;;
  priors <- set_prior priors "w_r" [Fin 0; x_max] "flat" ;;
  set_flat_priors priors
    [("w_t", (Fin (-180), Fin 180));
     ("vp_100", (Fin 0, Fin 1e4)); ("vp_q", (Fin (-2), Fin 0));
     ("vp_rtaper", (Fin 0, Fin 1e30)); ("vp_qtaper", (Fin 0, Fin 5));
     ("vr_100", (Fin (-1e3), Fin 1e3)); ("vr_q", (Fin (-2), Fin 2))].

End Priors.

(** ** Likelihood and posterior

    Whether the likelihood and the model are called matters for the
    posterior, so these methods return, next to their result, the calls
    they made. *)

Inductive event : Type :=
| EvPrior (key : string)
| EvLikelihood
| EvMakeModel.

Definition traced (A : Type) : Type := (result A * list event)%type.

Definition tret {A : Type} (a : A) : traced A := (Ok a, []).

Definition tbind {A B : Type} (m : traced A) (k : A -> traced B) : traced B :=
  match fst m with
  | Ok a => let r := k a in (fst r, snd m ++ snd r)
  | Err e => (Err e, snd m)
  end.

(** A call that is recorded, and a computation that is not. *)
Definition call {A : Type} (ev : event) (r : result A) : traced A := (r, [ev]).
Definition lift {A : Type} (r : result A) : traced A := (r, []).

Notation "x <~ m ;; k" := (tbind m (fun x => k))
  (at level 61, m at next level, right associativity).

(** [theta[n]] for a NumPy vector: a negative index counts from the end. *)
Definition np_index (theta : list float) (n : Z) : result float :=
  let len := Z.of_nat (List.length theta) in
  let i := if (n <? 0)%Z then (n + len)%Z else n in
  if (i <? 0)%Z || (len <=? i)%Z then Err IndexError
  else match nth_error theta (Z.to_nat i) with
       | Some x => Ok x
       | None => Err IndexError
       end.

(** [_populate_dictionary(theta, dictionary_in)]: an [int] that is not a
    [bool] is an index into [theta]. *)
Fixpoint _populate_dictionary (theta : list float) (dictionary : dict)
  : result dict :=
  match dictionary with
  | [] => Ok []
  | (key, v) :: rest =>
      v' <- match v with
            | VInt n => x <- np_index theta n ;; Ok (VFloat x)
            | _ => Ok v
            end ;;
      rest' <- _populate_dictionary theta rest ;;
      Ok ((key, v') :: rest')
  end.

Section Posterior.

Local Open Scope float_scope.

Variable priors : registry.
Variable self : rotationmap.

(** The loop of [_ln_prior] over the remaining items, [lnp] being the sum
    so far. *)
Fixpoint ln_prior_loop (items : dict) (lnp : float) : traced float :=
  match items with
  | [] => tret lnp
  | (key, v) :: rest =>
      match registry_get priors key with
      | Some f =>
          term <~ call (EvPrior key) (eval_prior f v) ;;
          let lnp := lnp + term in
          if negb (isfinite lnp) then tret lnp
          else ln_prior_loop rest lnp
      | None => ln_prior_loop rest lnp
      end
  end.

Definition _ln_prior (params : dict) : traced float :=
  ln_prior_loop params (Fin 0).

Definition _ln_likelihood (params : dict) : traced float :=
  _ <~ call EvLikelihood (Ok tt) ;;
  model <~ call EvMakeModel (_make_model self params) ;;
  let model := gmap (fun v => v * Fin 1e-3) model in
  diff <~ lift (np_zip fsub (data self) model) ;;
  let sq := gmap (fun d => fpower d (Fin 2)) diff in
  lnx2 <~ lift (np_zip (fun (m : bool) v => if m then v else Fin 0)
                  (mask self) sq) ;;
  let lnx2 := Fin (-0.5) * np_sum lnx2 in
  tret (if isfinite lnx2 then lnx2 else NInf).

Definition _ln_probability (theta : list float) (params_in : dict)
  : traced float :=
  model <~ lift (_populate_dictionary theta params_in) ;;
  lnp <~ _ln_prior model ;;
  if isfinite lnp then
    lnl <~ _ln_likelihood model ;;
    tret (lnp + lnl)
  else tret NInf.

End Posterior.

(** ** Weights of the pixels: [_calc_ivar] *)

(** The outcome of a method whose body begins with an [assert]: the
    [AssertionError] of a failed assertion, or what the rest of the body
    does. *)
Inductive asserted (A : Type) : Type :=
| AssertionError
| Passed (r : result A).

Arguments AssertionError {A}.
Arguments Passed {A} r.

Section Weights.

Local Open Scope string_scope.
Local Open Scope float_scope.

Variable self : rotationmap.

(** [image >= bound] and [image <= bound], the bound being an entry of the
    dictionary. *)
Definition compare_with (op : float -> float -> bool) (image : array2)
    (bound : value) : result (grid bool) :=
  b <- as_float bound ;;
  Ok (gmap (fun x => op x b) image).

(** [~mask if flag else mask] *)
Definition invert_if (flag : bool) (m : grid bool) : grid bool :=
  if flag then gmap negb m else m.

(** [_calc_ivar(params)].  [self.error] is an image, so it has a shape and
    the handler of [AttributeError] is not entered.  Inside a logical
    operation the two masks come from one image and have one shape; the
    masks of the data and of the coordinates are combined as [np_zip]
    does. *)
Definition _calc_ivar (params : dict) : asserted array2 :=
  if negb (same_shape (error self) (data self)) then AssertionError else
  Passed (
    coords <- disk_coords self params ;;
    let r := gmap (fun '(r, t, z) => r) coords in
    let t := gmap (fun '(r, t, z) => t) coords in
    abs_PA <- dict_item params "abs_PA" ;;
    abs_PA <- py_bool abs_PA ;;
    let t := if abs_PA then gmap fabs t else t in
    r_min <- dict_item params "r_min" ;;
    r_lo <- compare_with fge r r_min ;;
    r_max <- dict_item params "r_max" ;;
    r_hi <- compare_with fle r r_max ;;
    let mask_r := map2_rows andb r_lo r_hi in
    exclude_r <- dict_item params "exclude_r" ;;
    exclude_r <- py_bool exclude_r ;;
    let mask_r := invert_if exclude_r mask_r in
    PA_min <- dict_item params "PA_min" ;;
    t_lo <- compare_with fge t PA_min ;;
    PA_max <- dict_item params "PA_max" ;;
    t_hi <- compare_with fle t PA_max ;;
    let mask_t := map2_rows andb t_lo t_hi in
    exclude_PA <- dict_item params "exclude_PA" ;;
    exclude_PA <- py_bool exclude_PA ;;
    let mask_t := invert_if exclude_PA mask_t in
    let mask_f :=
      map2_rows (fun d e => isfinite d && fgt e (Fin 0))
        (data self) (error self) in
    v_min <- dict_item params "v_min" ;;
    v_max <- dict_item params "v_max" ;;
    v_lo <- compare_with fge (data self) v_min ;;
    v_hi <- compare_with fle (data self) v_max ;;
    let mask_v := map2_rows andb v_lo v_hi in
    exclude_v <- dict_item params "exclude_v" ;;
    exclude_v <- py_bool exclude_v ;;
    let mask_v := invert_if exclude_v mask_v in
    mask <- np_zip andb (map2_rows andb mask_v mask_f)
              (map2_rows andb mask_r mask_t) ;;
    Ok (map2_rows (fun (m : bool) e => if m then fpower e (Fin (-2)) else Fin 0)
          mask (error self))).

End Weights.

(** ** Axes of the map *)

(** *** [_downsample_cube] *)

(** The elements of [l] at the positions [skip], [skip + n],
    [skip + 2 n], ... *)
Fixpoint every_nth {A : Type} (n skip : nat) (l : list A) : list A :=
  match l with
  | [] => []
  | x :: l' =>
      match skip with
      | O => x :: every_nth n (n - 1) l'
      | S k => every_nth n k l'
      end
  end.

(** [a[start::step]] for a step that is not zero.  A negative [start]
    counts from the end; with a negative step the slice runs backwards
    from [start] to the first element. *)
Definition slice_from_step {A : Type} (a : list A) (start step : Z) : list A :=
  let len := Z.of_nat (List.length a) in
  if (0 <? step)%Z then
    let start :=
      if (start <? 0)%Z then Z.max (start + len) 0 else Z.min start len in
    every_nth (Z.to_nat step) (Z.to_nat start) a
  else
    let start :=
      if (start <? 0)%Z then Z.max (start + len) (-1)
      else Z.min start (len - 1) in
    every_nth (Z.to_nat (- step)) 0 (rev (firstn (Z.to_nat (start + 1)) a)).

(** [_downsample_cube(N)] for an integer [N]; [int(N / 2)] rounds towards
    zero.  The method returns nothing: the result is the map with its new
    axes and images. *)
Definition _downsample_cube (self : rotationmap) (N : Z) : result rotationmap :=
  let N0 := Z.quot N 2 in
  if (N =? 0)%Z then Err (ValueError "slice step cannot be zero") else
  Ok {| data := map (fun row => slice_from_step row N0 N)
                  (slice_from_step (data self) N0 N);
        error := map (fun row => slice_from_step row N0 N)
                   (slice_from_step (error self) N0 N);
        mask := mask self;
        ivar := ivar self;
        xaxis := slice_from_step (xaxis self) N0 N;
        yaxis := slice_from_step (yaxis self) N0 N;
        vlsr := vlsr self;
        shadowed := shadowed self;
        disk_coords_niter := disk_coords_niter self;
        beam_convolve := beam_convolve self |}.

(** *** [_read_position_axis] and the pixel scale *)

(** The keywords of a FITS header that the position axes are read from,
    by the number of the axis: [NAXISn] is an integer, [CDELTn] and [CRPIXn]
    are floating-point numbers, and a keyword may be missing. *)
Record fits_header : Type := {
  naxis : Z -> option Z;
  cdelt : Z -> option float;
  crpix : Z -> option float
}.

(** [header[name % a]] *)
Definition header_item {A : Type} (card : Z -> option A) (name : string)
    (a : Z) : result A :=
  match card a with
  | Some v => Ok v
  | None => Err (KeyError (name ++ (if (a =? 1)%Z then "1" else "2")))
  end.

Definition _read_position_axis (header : fits_header) (a : Z) : result array1 :=
  if negb ((a =? 1)%Z || (a =? 2)%Z)
  then Err (ValueError "'a' must be in [0, 1].") else
  a_len <- header_item (naxis header) "naxis" a ;;
  a_del <- header_item (cdelt header) "cdelt" a ;;
  a_pix <- header_item (crpix header) "crpix" a ;;
  Ok (map (fun i =>
             fmul (Fin 3600)
               (fmul (fadd (fsub (Fin (INR i)) a_pix) (Fin 1.5)) a_del))
        (seq 0 (Z.to_nat a_len))).

(** [np.diff] and [mean] of an axis; the mean of nothing is not a
    number. *)
Definition np_diff (a : array1) : array1 :=
  match a with
  | [] => []
  | _ :: a' => zip_with fsub a' a
  end.

Definition np_mean (a : array1) : float :=
  fdiv (fold_left fadd a (Fin 0)) (Fin (INR (List.length a))).

(** [self.dpix = abs(np.diff(self.xaxis)).mean()], as [__init__] sets
    it. *)
Definition dpix (xaxis : array1) : float :=
  np_mean (map fabs (np_diff xaxis)).

(** * Vocabulary of the properties *)

(** ** Surface parameters *)

(** A taper radius that is positive or infinite. *)
Definition taper_radius_ok (r_taper : float) : Prop :=
  r_taper = PInf \/ exists rt, r_taper = Fin rt /\ 0 < rt.

(** ** Defaults of [verify_params_dictionary] *)

Section Defaults.

Local Open Scope string_scope.

(** The default that a run of refills holds for a key: the first one. *)
Fixpoint table_get (defaults : list (string * value)) (k : string)
  : option value :=
  match defaults with
  | [] => None
  | (k', v) :: rest => if String.eqb k' k then Some v else table_get rest k
  end.

(** The dictionary once all defaults are filled in. *)
Definition filled (self : rotationmap) (params : dict) (vfunc : string)
    (x_max v_min v_max : float)
  : dict :=
  refill_all
    (refill_all
       (dict_set (refill_all params (basic_defaults self)) "vfunc" (VStr vfunc))
       profile_defaults)
    (mask_defaults (fmul (Fin 0.5) x_max) v_min v_max).

(** The tables from which [verify_params_dictionary] refills, in the order
    in which it goes through them. *)
Definition default_tables (self : rotationmap) (x_max v_min v_max : float)
  : list (string * value) :=
  basic_defaults self ++ profile_defaults
  ++ mask_defaults (fmul (Fin 0.5) x_max) v_min v_max.


(** The pair of bounds is inverted once defaults are filled in. *)
Definition inverted (params : dict) (lo hi : string) (dlo dhi : value) : Prop :=
  py_ge (dict_get_default params lo dlo) (dict_get_default params hi dhi)
  = Ok true.



End Defaults.

(** ** Sum of squares *)

(** The pairs (observed, modelled) of the pixels that the mask keeps. *)
Definition masked_pairs (mask : grid bool) (observed modelled : array2)
  : list (float * float) :=
  map snd
    (filter fst
       (combine (List.concat mask)
          (combine (List.concat observed) (List.concat modelled)))).

(** The sum of the squared differences of the pairs. *)
Definition sum_of_squares (pairs : list (float * float)) : float :=
  fold_left (fun acc dm => fadd acc (fsqr (fsub (fst dm) (snd dm))))
    pairs (Fin 0).

(** The map with other uncertainties and weights. *)
Definition with_weights (self : rotationmap) (err weights : array2)
  : rotationmap :=
  {| data := data self;
     error := err;
     mask := mask self;
     ivar := weights;
     xaxis := xaxis self;
     yaxis := yaxis self;
     vlsr := vlsr self;
     shadowed := shadowed self;
     disk_coords_niter := disk_coords_niter self;
     beam_convolve := beam_convolve self |}.

(** ** Calls and terms of the priors *)

(** The call of a prior, as opposed to the likelihood or the model. *)
Definition is_prior_event (ev : event) : bool :=
  match ev with EvPrior _ => true | _ => false end.

(** The calls of priors that going through [items] makes: one for each key
    with a registered prior. *)
Fixpoint prior_calls (priors : registry) (items : dict) : list event :=
  match items with
  | [] => []
  | (key, _) :: rest =>
      match registry_get priors key with
      | Some _ => EvPrior key :: prior_calls priors rest
      | None => prior_calls priors rest
      end
  end.

(** The sum of the prior terms of [items], for terms that are finite. *)
Fixpoint finite_terms_sum (priors : registry) (items : dict) : R :=
  match items with
  | [] => 0
  | (key, v) :: rest =>
      match registry_get priors key with
      | Some f =>
          match eval_prior f v with
          | Ok (Fin r) => r + finite_terms_sum priors rest
          | _ => finite_terms_sum priors rest
          end
      | None => finite_terms_sum priors rest
      end
  end.

(** Every registered prior of [items] gives a finite term. *)
Definition all_finite_terms (priors : registry) (items : dict) : Prop :=
  forall key v f, In (key, v) items -> registry_get priors key = Some f ->
                  exists r, eval_prior f v = Ok (Fin r).

(** Every registered prior of [items] gives a log-density: a finite term
    or minus infinity. *)
Definition proper_terms (priors : registry) (items : dict) : Prop :=
  forall key v f, In (key, v) items -> registry_get priors key = Some f ->
                  (exists r, eval_prior f v = Ok (Fin r))
                  \/ eval_prior f v = Ok NInf.

(** No registered prior of [items] raises. *)
Definition no_prior_errors (priors : registry) (items : dict) : Prop :=
  forall key v f, In (key, v) items -> registry_get priors key = Some f ->
                  returns (eval_prior f v).

(** ** Ranges of values *)

(** A value that is not negative: a finite one is at least zero, and minus
    infinity is excluded. *)
Definition not_negative (x : float) : Prop :=
  match x with
  | Fin r => 0 <= r
  | NInf => False
  | PInf | NaN => True
  end.

(** An azimuth: an angle between minus pi and pi, or not a number. *)
Definition is_azimuth (t : float) : Prop :=
  match t with
  | Fin a => - PI <= a <= PI
  | NaN => True
  | PInf | NInf => False
  end.

(** The offset of pixel [i] of a position axis, in arcseconds. *)
Definition axis_offset (c p : R) (i : nat) : R :=
  3600 * ((INR i - p + 1.5) * c).

(** ** Entries of a dictionary *)

(** The value that [_populate_dictionary] gives an entry. *)
Definition populated_value (theta : list float) (v : value) : result value :=
  match v with
  | VInt n => x <- np_index theta n ;; Ok (VFloat x)
  | _ => Ok v
  end.

(** The parameters of the geometry, and those of a Keplerian model. *)
Definition geometry_keys : list string :=
  ["x0"; "y0"; "inc"; "PA"; "z0"; "psi"; "r_cavity"; "r_taper"; "q_taper";
   "w_r"; "w_i"; "w_t"]%string.

Definition model_keys : list string :=
  geometry_keys ++ ["dist"; "mstar"; "vlsr"]%string.

(** The entries of [kw] under the keys [keys], where there are any, are
    numbers. *)
Definition numeric_entries (keys : list string) (kw : dict) : Prop :=
  forall k v, In k keys -> dict_get kw k = Some v -> is_number v = true.

(** The frame is left to its default or is one of the two names, in any
    case of letters. *)
Definition frame_ok (kw : dict) : Prop :=
  match dict_get kw "frame" with
  | None => True
  | Some (VStr s) =>
      lower s = "cylindrical"%string \/ lower s = "cartesian"%string
  | Some _ => False
  end.

(** The axes are left to the map. *)
Definition own_axes (kw : dict) : Prop :=
  is_none kw "xaxis" = true /\ is_none kw "yaxis" = true.

(** The taper radius and the taper exponent are given together. *)
Definition taper_pair_ok (kw : dict) : Prop :=
  is_not_none (kwarg kw "r_taper" VNone)
  = is_not_none (kwarg kw "q_taper" VNone).

(** The parameters that [_set_default_priors] gives a prior. *)
Definition default_prior_names : list string :=
  ["x0"; "y0"; "inc"; "PA"; "mstar"; "vlsr";
   "z0"; "psi"; "r_cavity"; "r_taper"; "q_taper";
   "w_i"; "w_r"; "w_t";
   "vp_100"; "vp_q"; "vp_rtaper"; "vp_qtaper"; "vr_100"; "vr_q"]%string.

(** ** Example inputs *)

(** A map of one pixel. *)
Definition example_map : rotationmap :=
  {| data := [[Fin 1]];
     error := [[Fin 0.1]];
     mask := [[true]];
     ivar := [[Fin 100]];
     xaxis := [Fin 1];
     yaxis := [Fin 1];
     vlsr := Fin 1;
     shadowed := false;
     disk_coords_niter := 5;
     beam_convolve := fun image => Ok image |}.

(** A Keplerian parameter dictionary. *)
Definition example_params : dict :=
  [("inc", VFloat (Fin 30)); ("PA", VFloat (Fin 45));
   ("mstar", VFloat (Fin 1));
   ("v_min", VFloat (Fin 0)); ("v_max", VFloat (Fin 5))]%string.

(** A power-law parameter dictionary: [vp_100] and no [mstar]. *)
Definition power_law_params : dict :=
  [("inc", VFloat (Fin 30)); ("PA", VFloat (Fin 45));
   ("vp_100", VFloat (Fin 100));
   ("v_min", VFloat (Fin 0)); ("v_max", VFloat (Fin 5))]%string.

(** A verified Keplerian dictionary for the one-pixel map. *)
Definition kep_params : dict :=
  [("inc", VFloat (Fin 30)); ("PA", VFloat (Fin 45));
   ("mstar", VFloat (Fin 1)); ("dist", VFloat (Fin 100));
   ("vlsr", VFloat (Fin 0)); ("vfunc", VStr "proj_vkep");
   ("beam", VBool false)]%string.

(** The registry that loading the one-pixel map sets up. *)
Definition default_priors : registry :=
  match _set_default_priors example_map [] with
  | Ok priors => priors
  | Err _ => []
  end.

(** Two dictionaries with the inclination free: the centre offset fixed
    outside and inside the support [[-2, 2]] of its default prior. *)
Definition rejected_params : dict :=
  [("x0", VFloat (Fin 3)); ("inc", VInt 0)]%string.
Definition rejected_model : dict :=
  [("x0", VFloat (Fin 3)); ("inc", VFloat (Fin 30))]%string.
Definition accepted_params : dict :=
  [("x0", VFloat (Fin 1)); ("inc", VInt 0)]%string.
Definition accepted_model : dict :=
  [("x0", VFloat (Fin 1)); ("inc", VFloat (Fin 30))]%string.

(** The one-pixel map with [shadowed] set. *)
Definition shadowed_map : rotationmap :=
  {| data := data example_map;
     error := error example_map;
     mask := mask example_map;
     ivar := ivar example_map;
     xaxis := xaxis example_map;
     yaxis := yaxis example_map;
     vlsr := vlsr example_map;
     shadowed := true;
     disk_coords_niter := disk_coords_niter example_map;
     beam_convolve := beam_convolve example_map |}.


(** A map of three by three pixels, for the axes. *)
Definition wide_map : rotationmap :=
  {| data := [[Fin 1; Fin 2; Fin 3]; [Fin 4; Fin 5; Fin 6];
              [Fin 7; Fin 8; Fin 9]];
     error := [[Fin 1; Fin 1; Fin 1]; [Fin 1; Fin 1; Fin 1];
               [Fin 1; Fin 1; Fin 1]];
     mask := [[true; true; true]; [true; true; true]; [true; true; true]];
     ivar := [[Fin 1; Fin 1; Fin 1]; [Fin 1; Fin 1; Fin 1];
              [Fin 1; Fin 1; Fin 1]];
     xaxis := [Fin 1; Fin 0; Fin (-1)];
     yaxis := [Fin (-1); Fin 0; Fin 1];
     vlsr := Fin 5;
     shadowed := false;
     disk_coords_niter := 5;
     beam_convolve := fun image => Ok image |}.

(** A header of three pixels of one arcsecond on each axis. *)
Definition example_header : fits_header :=
  {| naxis := fun _ => Some 3%Z;
     cdelt := fun a => Some (Fin (if (a =? 1)%Z then - / 3600 else / 3600));
     crpix := fun _ => Some (Fin 2) |}.

(** * Properties *)

(** ** Arithmetic of [float] *)

Lemma Rltb_true (a b : R) : a < b -> Rltb a b = true.
Proof.
  intros H. unfold Rltb.
  destruct (Rlt_dec a b); [reflexivity | contradiction].
Qed.

Lemma Rltb_false (a b : R) : ~ a < b -> Rltb a b = false.
Proof.
  intros H. unfold Rltb.
  destruct (Rlt_dec a b); [contradiction | reflexivity].
Qed.

Lemma Rleb_true (a b : R) : a <= b -> Rleb a b = true.
Proof.
  intros H. unfold Rleb.
  destruct (Rle_dec a b); [reflexivity | contradiction].
Qed.

Lemma Rleb_false (a b : R) : ~ a <= b -> Rleb a b = false.
Proof.
  intros H. unfold Rleb.
  destruct (Rle_dec a b); [contradiction | reflexivity].
Qed.

Lemma Reqb_true (a b : R) : a = b -> Reqb a b = true.
Proof.
  intros H. unfold Reqb.
  destruct (Req_dec_T a b); [reflexivity | contradiction].
Qed.

Lemma Reqb_false (a b : R) : a <> b -> Reqb a b = false.
Proof.
  intros H. unfold Reqb.
  destruct (Req_dec_T a b); [contradiction | reflexivity].
Qed.

Lemma Rltb_spec (a b : R) : Rltb a b = true <-> a < b.
Proof.
  unfold Rltb. destruct (Rlt_dec a b); split; intros;
    (assumption || reflexivity || discriminate || contradiction).
Qed.

(** Decide the comparisons of real numbers that [lra] settles. *)
Ltac Rdecide :=
  repeat first
    [ rewrite Rltb_true by lra
    | rewrite Rltb_false by lra
    | rewrite Rleb_true by lra
    | rewrite Rleb_false by lra
    | rewrite Reqb_true by lra
    | rewrite Reqb_false by lra ].

Lemma fadd_0_r (x : float) : fadd x (Fin 0) = x.
Proof. destruct x; simpl; try reflexivity. now rewrite Rplus_0_r. Qed.

Lemma isfinite_Fin (x : float) : isfinite x = true -> exists r, x = Fin r.
Proof. destruct x; simpl; intros H; try discriminate. now exists r. Qed.

Lemma fadd_finite_inv (x y : float) :
  isfinite (fadd x y) = true -> isfinite x = true /\ isfinite y = true.
Proof. destruct x, y; simpl; intros H; try discriminate; auto. Qed.

Lemma Int_part_2 : Int_part 2 = 2%Z.
Proof. symmetry. apply Int_part_spec. lra. Qed.

Lemma Rpower_2 (r : R) : 0 < r -> Rpower r 2 = r * r.
Proof.
  intros H. replace 2 with (INR 2) by (simpl; lra).
  rewrite Rpower_pow by assumption. simpl. lra.
Qed.

(** [np.power(x, 2)] is the product [x * x]. *)
Lemma fpower_2 (x : float) : fpower x (Fin 2) = fsqr x.
Proof.
  unfold fpower, fsqr. rewrite Reqb_false by lra.
  destruct x as [r | | |]; simpl.
  - destruct (Rlt_dec 0 r) as [Hpos | Hnpos].
    + rewrite Rltb_true by assumption. now rewrite Rpower_2.
    + rewrite Rltb_false by assumption.
      destruct (Req_dec_T r 0) as [-> | Hne].
      * rewrite Reqb_true by reflexivity. rewrite Rltb_true by lra.
        f_equal. lra.
      * rewrite Reqb_false by assumption.
        unfold is_int. rewrite Int_part_2. rewrite Reqb_true by reflexivity.
        f_equal. simpl. lra.
  - now rewrite Rltb_true by lra.
  - rewrite Rltb_true by lra. unfold is_odd_int, is_int.
    rewrite Int_part_2. rewrite Reqb_true by reflexivity. reflexivity.
  - reflexivity.
Qed.

Lemma fmul_0_l (x : float) : fmul (Fin 0) x = Fin 0 \/ fmul (Fin 0) x = NaN.
Proof.
  destruct x as [r | | |]; simpl; unfold signed_inf; Rdecide; auto.
  left. f_equal. lra.
Qed.

Lemma fmul_0_r (x : float) : fmul x (Fin 0) = Fin 0 \/ fmul x (Fin 0) = NaN.
Proof.
  destruct x as [r | | |]; simpl; unfold signed_inf; Rdecide; auto.
  left. f_equal. lra.
Qed.

Lemma fmaximum_nonneg (r : R) :
  exists v, fmaximum (Fin r) (Fin 0) = Fin v /\ 0 <= v.
Proof.
  simpl. destruct (Rle_dec r 0) as [H | H].
  - rewrite Rleb_true by assumption. exists 0. split; [reflexivity | lra].
  - rewrite Rleb_false by assumption. exists r. split; [reflexivity | lra].
Qed.

Lemma fpower_nonneg_finite (r s : R) :
  0 <= r -> 0 <= s -> exists v, fpower (Fin r) (Fin s) = Fin v /\ 0 <= v.
Proof.
  intros Hr Hs. unfold fpower.
  destruct (Req_dec_T s 0) as [-> | Hs0].
  - rewrite Reqb_true by reflexivity. exists 1. split; [reflexivity | lra].
  - rewrite Reqb_false by assumption.
    destruct (Rlt_dec 0 r) as [Hpos | Hnpos].
    + rewrite Rltb_true by assumption. exists (Rpower r s).
      split; [reflexivity |]. unfold Rpower. left. apply exp_pos.
    + rewrite Rltb_false by assumption.
      rewrite Reqb_true by lra. rewrite Rltb_true by lra.
      exists 0. split; [reflexivity | lra].
Qed.

(** Evaluate the float operations on finite arguments, deciding the
    comparisons that come up. *)
Ltac fcompute := repeat (progress (cbn; Rdecide)).

(** ** Results *)

Lemma Ok_inj {A : Type} (a b : A) : Ok a = Ok b -> a = b.
Proof. intros H. now injection H. Qed.

Lemma bind_Ok_inv {A B : Type} (m : result A) (k : A -> result B) (b : B) :
  bind m k = Ok b -> exists a, m = Ok a /\ k a = Ok b.
Proof. destruct m as [a | e]; simpl; intros H; [eauto | discriminate]. Qed.

Lemma bind_raises {A B : Type} (m : result A) (k : A -> result B) :
  (forall a, m = Ok a -> raises (k a)) -> raises (bind m k).
Proof.
  intros H. destruct m as [a | e]; simpl.
  - now apply H.
  - now exists e.
Qed.

Lemma raises_bind {A B : Type} (m : result A) (k : A -> result B) :
  raises m -> raises (bind m k).
Proof. intros [e ->]. now exists e. Qed.

(** ** The flared-surface solver *)

Section FlaredSurface.

Import dp.

Lemma fhypot_comm (x y : float) : fhypot x y = fhypot y x.
Proof.
  destruct x, y; simpl; try reflexivity. f_equal. f_equal. lra.
Qed.

(** With [z0 = 0] the power-law height is zero wherever it is a number. *)
Lemma z_func_z0_zero (r rc rt psi q : float) :
  z_func r (Fin 0) rc rt psi q = Fin 0 \/ z_func r (Fin 0) rc rt psi q = NaN.
Proof.
  unfold z_func.
  set (P := fpower _ psi). set (E := fexp _).
  destruct (fmul_0_l P) as [-> | ->].
  - destruct (fmul_0_l E) as [-> | ->]; simpl; Rdecide; auto.
  - simpl. auto.
Qed.

(** With [w_i = 0] the warp is zero wherever it is a number. *)
Lemma w_func_wi_zero (r t rc w_r w_t : float) :
  w_func r t rc w_r (Fin 0) w_t = Fin 0 \/ w_func r t rc w_r (Fin 0) w_t = NaN.
Proof.
  unfold w_func, radians.
  set (r' := fmaximum _ _). set (E := fexp _). set (S := fsin _).
  assert (Hw : fmul (fmul (Fin 0) (Fin (PI / 180))) E = Fin 0 \/
               fmul (fmul (Fin 0) (Fin (PI / 180))) E = NaN).
  { simpl. replace (0 * (PI / 180)) with 0 by lra. apply fmul_0_l. }
  destruct Hw as [-> | ->].
  - destruct (fmul_0_l S) as [-> | ->].
    + simpl ftan. rewrite tan_0. apply fmul_0_r.
    + simpl. destruct r'; auto.
  - simpl. destruct r'; auto.
Qed.

(** The loop does not move a point at which the shift of the sky-plane
    ordinate, the height times the tangent of the inclination, is zero. *)
Lemma flared_loop_fixed (niter : nat)
    (x_mid y_mid : R)
    (inc z0 r_cavity r_taper psi q_taper w_r w_i w_t : float) :
  let r0 := fhypot (Fin x_mid) (Fin y_mid) in
  let t0 := farctan2 (Fin y_mid) (Fin x_mid) in
  fmul (fadd (z_func r0 z0 r_cavity r_taper psi q_taper)
             (w_func r0 t0 r_cavity w_r w_i w_t))
       (ftan (radians inc)) = Fin 0 ->
  flared_loop niter (Fin x_mid) (Fin y_mid) inc z0 r_cavity r_taper psi q_taper
    w_r w_i w_t r0 t0 = (r0, t0).
Proof.
  intros r0 t0 Hshift. induction niter as [| n IH].
  - reflexivity.
  - cbn [flared_loop]. rewrite Hshift. rewrite fadd_0_r.
    rewrite (fhypot_comm (Fin y_mid) (Fin x_mid)). exact IH.
Qed.

Lemma z_func_finite (r_in z0 r_cavity psi q_taper : R) (r_taper : float) :
  0 <= psi -> 0 <= q_taper -> taper_radius_ok r_taper ->
  isfinite (z_func (Fin r_in) (Fin z0) (Fin r_cavity) r_taper
              (Fin psi) (Fin q_taper)) = true.
Proof.
  intros Hpsi Hq Hrt. unfold z_func.
  change (fsub (Fin r_in) (Fin r_cavity)) with (Fin (r_in + - r_cavity)).
  destruct (fmaximum_nonneg (r_in + - r_cavity)) as [r [-> Hr]].
  destruct (fpower_nonneg_finite r psi Hr Hpsi) as [p [-> Hp]].
  assert (Hu : exists u, fdiv (Fin r) r_taper = Fin u /\ 0 <= u).
  { destruct Hrt as [-> | [rt [-> Hrt]]].
    - exists 0. split; [reflexivity | lra].
    - exists (r / rt). split.
      + simpl. now rewrite Reqb_false by lra.
      + apply Rmult_le_pos; [assumption |].
        left. now apply Rinv_0_lt_compat. }
  destruct Hu as [u [-> Hu]].
  destruct (fpower_nonneg_finite u q_taper Hu Hq) as [e [-> He]].
  cbn. destruct (Rleb _ 0); reflexivity.
Qed.

Lemma w_func_finite (r_in t r_cavity w_r w_i w_t : R) :
  w_r <> 0 ->
  isfinite (w_func (Fin r_in) (Fin t) (Fin r_cavity) (Fin w_r)
              (Fin w_i) (Fin w_t)) = true.
Proof.
  intros Hw. unfold w_func, radians. rewrite fpower_2.
  change (fsub (Fin r_in) (Fin r_cavity)) with (Fin (r_in + - r_cavity)).
  destruct (fmaximum_nonneg (r_in + - r_cavity)) as [r [-> Hr]].
  cbn. rewrite Reqb_false by assumption. reflexivity.
Qed.

Lemma fadd_finite (x y : float) :
  isfinite x = true -> isfinite y = true -> isfinite (fadd x y) = true.
Proof. destruct x, y; simpl; intros; try discriminate; reflexivity. Qed.

(** C7 (amended).  Run with [z0 = 0] and without a warp ([w_i = 0]), the
    iterative solver returns the flat-disk radius and azimuth of the
    midplane point, and the height zero, after every number of iterations,
    wherever the surface height at that point is a finite number. *)
Theorem flared_z0_zero_is_flat (x_mid y_mid inc : R)
    (r_cavity r_taper psi q_taper w_r w_t : float) (niter : nat) :
  let r0 := fhypot (Fin x_mid) (Fin y_mid) in
  let t0 := farctan2 (Fin y_mid) (Fin x_mid) in
  isfinite (fadd (z_func r0 (Fin 0) r_cavity r_taper psi q_taper)
                 (w_func r0 t0 r_cavity w_r (Fin 0) w_t)) = true ->
  _get_flared_coords (Fin x_mid) (Fin y_mid) (Fin inc) (Fin 0)
    r_cavity r_taper psi q_taper w_r (Fin 0) w_t niter = (r0, t0, Fin 0).
Proof.
  intros r0 t0 Hfin.
  apply fadd_finite_inv in Hfin. destruct Hfin as [Hz Hw].
  assert (Ez : z_func r0 (Fin 0) r_cavity r_taper psi q_taper = Fin 0).
  { destruct (z_func_z0_zero r0 r_cavity r_taper psi q_taper) as [E | E];
      [exact E | rewrite E in Hz; discriminate]. }
  assert (Ew : w_func r0 t0 r_cavity w_r (Fin 0) w_t = Fin 0).
  { destruct (w_func_wi_zero r0 t0 r_cavity w_r w_t) as [E | E];
      [exact E | rewrite E in Hw; discriminate]. }
  unfold _get_flared_coords.
  rewrite flared_loop_fixed.
  - fold r0. now rewrite Ez.
  - fold r0 t0. rewrite Ez, Ew. simpl. f_equal. lra.
Qed.

Lemma flared_z0_zero_is_flat_witness :
  isfinite (fadd (z_func (fhypot (Fin 3) (Fin 4)) (Fin 0) (Fin 0) PInf
                    (Fin 1) (Fin 1))
                 (w_func (fhypot (Fin 3) (Fin 4)) (farctan2 (Fin 4) (Fin 3))
                    (Fin 0) (Fin 1) (Fin 0) (Fin 0))) = true
  /\ _get_flared_coords (Fin 3) (Fin 4) (Fin 30) (Fin 0)
       (Fin 0) PInf (Fin 1) (Fin 1) (Fin 1) (Fin 0) (Fin 0) 5
     = (fhypot (Fin 3) (Fin 4), farctan2 (Fin 4) (Fin 3), Fin 0).
Proof.
  assert (H : isfinite (fadd (z_func (fhypot (Fin 3) (Fin 4)) (Fin 0) (Fin 0)
                                PInf (Fin 1) (Fin 1))
                             (w_func (fhypot (Fin 3) (Fin 4))
                                (farctan2 (Fin 4) (Fin 3))
                                (Fin 0) (Fin 1) (Fin 0) (Fin 0))) = true).
  { apply fadd_finite.
    - apply z_func_finite; [lra | lra | left; reflexivity].
    - apply w_func_finite. lra. }
  split; [exact H |].
  exact (flared_z0_zero_is_flat 3 4 30 (Fin 0) PInf (Fin 1) (Fin 1) (Fin 1)
           (Fin 0) 5 H).
Defined.

Lemma warp_at_unit_radius :
  w_func (Fin 1) (Fin (PI / 2)) (Fin 0) (Fin 1) (Fin 45) (Fin 0)
  = Fin (tan (PI / 4 * exp (-1 / 2))).
Proof.
  unfold w_func, radians. rewrite fpower_2. fcompute.
  replace (PI / 2 + - (0 * (PI / 180))) with (PI / 2) by lra.
  rewrite sin_PI2.
  replace (-0.5 * ((1 + - 0) / 1 * ((1 + - 0) / 1))) with (-1 / 2) by lra.
  f_equal. replace (1 + - 0) with 1 by lra. rewrite Rmult_1_l. f_equal. lra.
Qed.

Lemma z_func_z0_zero_default (r : R) :
  z_func (Fin r) (Fin 0) (Fin 0) PInf (Fin 1) (Fin 1) = Fin 0.
Proof.
  destruct (z_func_z0_zero (Fin r) (Fin 0) PInf (Fin 1) (Fin 1)) as [E | E];
    [exact E |].
  assert (H : isfinite (z_func (Fin r) (Fin 0) (Fin 0) PInf (Fin 1) (Fin 1))
              = true)
    by (apply z_func_finite; [lra | lra | left; reflexivity]).
  rewrite E in H. discriminate.
Qed.

Lemma tan_warp_pos : 0 < tan (PI / 4 * exp (-1 / 2)).
Proof.
  assert (Hpi := PI_RGT_0).
  assert (Hpi4 := PI_4).
  assert (He : 0 < exp (-1 / 2)) by apply exp_pos.
  assert (He1 : exp (-1 / 2) < 1).
  { rewrite <- exp_0. apply exp_increasing. lra. }
  apply tan_gt_0; nra.
Qed.

(** With [z0 = 0] and a negative flaring exponent the height at the disk
    centre is [0 * inf], not a number. *)
Lemma z_func_centre_nan :
  z_func (Fin 0) (Fin 0) (Fin 0) PInf (Fin (-1)) (Fin 1) = NaN.
Proof.
  unfold z_func. cbn. Rdecide. cbn. Rdecide. cbn.
  unfold signed_inf. Rdecide. reflexivity.
Qed.

(** C7 as stated fails: with [z0 = 0], a warp of 45 degrees and an
    inclination of 45 degrees, one iteration moves the midplane point
    [(0, 1)] away from its flat-disk radius.  Without a warp it still fails
    where the height is not a number: at the centre, for a flaring exponent
    of -1, the radius returned is not a number. *)
Lemma flared_z0_zero_warp_counterexample :
  _get_flared_coords (Fin 0) (Fin 1) (Fin 45) (Fin 0)
    (Fin 0) PInf (Fin 1) (Fin 1) (Fin 1) (Fin 45) (Fin 0) 1
  <> (fhypot (Fin 0) (Fin 1), farctan2 (Fin 1) (Fin 0), Fin 0)
  /\ _get_flared_coords (Fin 0) (Fin 0) (Fin 45) (Fin 0)
       (Fin 0) PInf (Fin (-1)) (Fin 1) (Fin 1) (Fin 0) (Fin 0) 1
     <> (fhypot (Fin 0) (Fin 0), farctan2 (Fin 0) (Fin 0), Fin 0).
Proof.
  split.
  2:{ unfold _get_flared_coords. cbn [flared_loop].
      assert (Er : fhypot (Fin 0) (Fin 0) = Fin 0).
      { cbn. f_equal. replace (0 * 0 + 0 * 0) with 0 by lra. apply sqrt_0. }
      rewrite Er, z_func_centre_nan. cbn. discriminate. }
  unfold _get_flared_coords. cbn [flared_loop].
  assert (Er : fhypot (Fin 0) (Fin 1) = Fin 1).
  { cbn. f_equal. replace (0 * 0 + 1 * 1) with 1 by lra. apply sqrt_1. }
  assert (Et : farctan2 (Fin 1) (Fin 0) = Fin (PI / 2)).
  { cbn. unfold Ratan2. Rdecide. reflexivity. }
  rewrite Er, Et, z_func_z0_zero_default, warp_at_unit_radius.
  unfold radians. cbn.
  replace (45 * (PI / 180)) with (PI / 4) by lra. rewrite tan_PI4.
  rewrite z_func_z0_zero_default.
  intros H. injection H as H _.
  assert (Hpos := tan_warp_pos).
  set (y := 1 + (0 + tan (PI / 4 * exp (-1 / 2))) * 1) in H.
  replace (y * y + 0 * 0) with (y * y) in H by lra.
  assert (Hy : 1 < y) by (unfold y; lra).
  rewrite sqrt_square in H by lra. lra.
Qed.

End FlaredSurface.

(** ** Rotation and the face-on disk *)

Section Rotation.

Import dp.

(** [rotate_coords] is the reflection with matrix [[sin, cos], [cos, -sin]]:
    it undoes itself. *)
Lemma rotate_coords_self_inverse (x y PA : R) :
  rotate_coords (fst (rotate_coords (Fin x) (Fin y) (Fin PA)))
                (snd (rotate_coords (Fin x) (Fin y) (Fin PA))) (Fin PA)
  = (Fin x, Fin y).
Proof.
  unfold rotate_coords, radians. cbn.
  set (a := PA * (PI / 180)).
  assert (H := sin2_cos2 a). unfold Rsqr in H.
  f_equal; f_equal.
  - transitivity (x * (sin a * sin a + cos a * cos a));
      [ring | rewrite H; ring].
  - transitivity (y * (sin a * sin a + cos a * cos a));
      [ring | rewrite H; ring].
Qed.

(** Followed by [rotate_coords] with the opposite angle it turns the point
    by twice the angle. *)
Lemma rotate_coords_opposite (x y PA : R) :
  rotate_coords (fst (rotate_coords (Fin x) (Fin y) (Fin PA)))
                (snd (rotate_coords (Fin x) (Fin y) (Fin PA))) (Fin (- PA))
  = (Fin (x * cos (2 * (PA * (PI / 180))) - y * sin (2 * (PA * (PI / 180)))),
     Fin (x * sin (2 * (PA * (PI / 180))) + y * cos (2 * (PA * (PI / 180))))).
Proof.
  unfold rotate_coords, radians. cbn.
  replace (- PA * (PI / 180)) with (- (PA * (PI / 180))) by lra.
  set (a := PA * (PI / 180)).
  rewrite cos_neg, sin_neg, cos_2a, sin_2a.
  f_equal; f_equal; ring.
Qed.

(** C6 (amended).  Applying [rotate_coords] twice with the same angle
    returns the original point; applying it with [PA] and then with [-PA]
    returns the point turned by [2 PA]. *)
Theorem rotate_coords_round_trip (x y PA : R) :
  rotate_coords (fst (rotate_coords (Fin x) (Fin y) (Fin PA)))
                (snd (rotate_coords (Fin x) (Fin y) (Fin PA))) (Fin PA)
  = (Fin x, Fin y)
  /\ rotate_coords (fst (rotate_coords (Fin x) (Fin y) (Fin PA)))
                   (snd (rotate_coords (Fin x) (Fin y) (Fin PA))) (Fin (- PA))
     = (Fin (x * cos (2 * (PA * (PI / 180))) - y * sin (2 * (PA * (PI / 180)))),
        Fin (x * sin (2 * (PA * (PI / 180)))
             + y * cos (2 * (PA * (PI / 180))))).
Proof.
  split; [apply rotate_coords_self_inverse | apply rotate_coords_opposite].
Qed.

(** C6 as stated fails: rotating [(1, 0)] by 90 degrees and then by -90
    degrees gives [(-1, 0)]. *)
Lemma rotate_coords_round_trip_counterexample :
  rotate_coords (fst (rotate_coords (Fin 1) (Fin 0) (Fin 90)))
                (snd (rotate_coords (Fin 1) (Fin 0) (Fin 90))) (Fin (- 90))
  = (Fin (- 1), Fin 0)
  /\ (Fin (- 1), Fin 0) <> (Fin 1, Fin 0).
Proof.
  split.
  - rewrite rotate_coords_opposite.
    replace (2 * (90 * (PI / 180))) with PI by lra.
    rewrite cos_PI, sin_PI. f_equal; f_equal; lra.
  - intros H. injection H as H. lra.
Qed.

Lemma pixel_gmap {A B : Type} (f : A -> B) (g : grid A) (i j : nat) :
  pixel (gmap f g) i j = option_map f (pixel g i j).
Proof.
  unfold pixel, gmap. rewrite nth_error_map.
  destruct (nth_error g i) as [row |]; simpl;
    [apply nth_error_map | reflexivity].
Qed.

Lemma pixel_meshgrid (xs ys : array1) (i j : nat) (x y : float) :
  nth_error xs j = Some x -> nth_error ys i = Some y ->
  pixel (meshgrid xs ys) i j = Some (x, y).
Proof.
  intros Hx Hy. unfold pixel, meshgrid.
  rewrite nth_error_map, Hy. simpl. rewrite nth_error_map, Hx. reflexivity.
Qed.

(** The midplane point of the pixel [(x, y)] of a face-on disk is the
    rotated sky point. *)
Lemma midplane_face_on (x0 y0 PA x y : R) (xaxis yaxis : array1) (i j : nat) :
  nth_error xaxis j = Some (Fin x) -> nth_error yaxis i = Some (Fin y) ->
  pixel (get_midplane_cart_coords (Fin x0) (Fin y0) (Fin 0) (Fin PA)
           xaxis yaxis) i j
  = Some (rotate_coords (Fin (x - x0)) (Fin (y - y0)) (Fin PA)).
Proof.
  intros Hx Hy. unfold get_midplane_cart_coords, get_cart_sky_coords.
  rewrite !pixel_gmap.
  rewrite (pixel_meshgrid _ _ i j (Fin (x - x0)) (Fin (y - y0))).
  - unfold rotate_coords, deproject_coords, radians.
    cbn.
    replace (0 * (PI / 180)) with 0 by lra.
    rewrite cos_0.
    rewrite Reqb_false by lra. do 3 f_equal. apply Rdiv_1_r.
  - rewrite nth_error_map, Hx. reflexivity.
  - rewrite nth_error_map, Hy. reflexivity.
Qed.

Lemma rotate_coords_hypot (x y PA : R) :
  fhypot (fst (rotate_coords (Fin x) (Fin y) (Fin PA)))
         (snd (rotate_coords (Fin x) (Fin y) (Fin PA)))
  = fhypot (Fin x) (Fin y).
Proof.
  unfold rotate_coords, radians. cbn.
  set (a := PA * (PI / 180)).
  assert (H := sin2_cos2 a). unfold Rsqr in H.
  do 2 f_equal.
  transitivity (((x * x) + (y * y)) * (sin a * sin a + cos a * cos a));
    [ring | rewrite H; ring].
Qed.

(** The coordinates of a pixel of a face-on disk, for any number of
    iterations. *)
Lemma face_on_pixel (x0 y0 PA x y : R) (xaxis yaxis : array1) (i j : nat)
    (z0 r_cavity r_taper psi q_taper w_r w_i w_t : float) (niter : nat) :
  let x_rot := fst (rotate_coords (Fin (x - x0)) (Fin (y - y0)) (Fin PA)) in
  let y_rot := snd (rotate_coords (Fin (x - x0)) (Fin (y - y0)) (Fin PA)) in
  let r0 := fhypot (Fin (x - x0)) (Fin (y - y0)) in
  let t0 := farctan2 y_rot x_rot in
  nth_error xaxis j = Some (Fin x) -> nth_error yaxis i = Some (Fin y) ->
  isfinite (fadd (z_func r0 z0 r_cavity r_taper psi q_taper)
                 (w_func r0 t0 r_cavity w_r w_i w_t)) = true ->
  pixel (get_flared_coords (Fin x0) (Fin y0) xaxis yaxis (Fin 0) (Fin PA)
           z0 r_cavity r_taper psi q_taper w_r w_i w_t niter) i j
  = Some (r0, t0, z_func r0 z0 r_cavity r_taper psi q_taper).
Proof.
  intros x_rot y_rot r0 t0 Hx Hy Hfin.
  unfold get_flared_coords. rewrite pixel_gmap.
  rewrite (midplane_face_on x0 y0 PA x y xaxis yaxis i j Hx Hy).
  assert (Er : fhypot x_rot y_rot = r0) by apply rotate_coords_hypot.
  destruct (isfinite_Fin _ Hfin) as [h Eh].
  change (rotate_coords (Fin (x - x0)) (Fin (y - y0)) (Fin PA))
    with (x_rot, y_rot).
  cbn [option_map]. f_equal.
  unfold _get_flared_coords.
  change x_rot with (Fin ((y - y0) * cos (PA * (PI / 180))
                          + (x - x0) * sin (PA * (PI / 180)))) in *.
  change y_rot with (Fin ((x - x0) * cos (PA * (PI / 180))
                          + - ((y - y0) * sin (PA * (PI / 180))))) in *.
  rewrite flared_loop_fixed.
  - rewrite Er. reflexivity.
  - rewrite Er. fold t0. rewrite Eh. unfold radians. cbn.
    replace (0 * (PI / 180)) with 0 by lra. rewrite tan_0. f_equal. lra.
Qed.

(** C8 (amended).  For a face-on disk ([inc = 0]) and wherever the surface
    height is a finite number, the radius returned for a pixel is the hypot
    of its recentred sky coordinates [(x - x0, y - y0)], and the azimuth is
    [arctan2 (y_rot, x_rot)] of these coordinates after [rotate_coords] by
    the position angle, whatever the number of iterations. *)
Theorem face_on_radius_and_azimuth (x0 y0 PA x y : R)
    (xaxis yaxis : array1) (i j : nat)
    (z0 r_cavity r_taper psi q_taper w_r w_i w_t : float) :
  let x_rot := fst (rotate_coords (Fin (x - x0)) (Fin (y - y0)) (Fin PA)) in
  let y_rot := snd (rotate_coords (Fin (x - x0)) (Fin (y - y0)) (Fin PA)) in
  let r0 := fhypot (Fin (x - x0)) (Fin (y - y0)) in
  let t0 := farctan2 y_rot x_rot in
  nth_error xaxis j = Some (Fin x) -> nth_error yaxis i = Some (Fin y) ->
  isfinite (fadd (z_func r0 z0 r_cavity r_taper psi q_taper)
                 (w_func r0 t0 r_cavity w_r w_i w_t)) = true ->
  forall niter : nat,
    pixel (get_flared_coords (Fin x0) (Fin y0) xaxis yaxis (Fin 0) (Fin PA)
             z0 r_cavity r_taper psi q_taper w_r w_i w_t niter) i j
    = Some (r0, t0, z_func r0 z0 r_cavity r_taper psi q_taper)
    /\ pixel (get_flared_coords (Fin x0) (Fin y0) xaxis yaxis (Fin 0) (Fin PA)
                z0 r_cavity r_taper psi q_taper w_r w_i w_t niter) i j
       = pixel (get_flared_coords (Fin x0) (Fin y0) xaxis yaxis (Fin 0)
                  (Fin PA) z0 r_cavity r_taper psi q_taper w_r w_i w_t 0) i j.
Proof.
  intros x_rot y_rot r0 t0 Hx Hy Hfin niter.
  pose proof (face_on_pixel x0 y0 PA x y xaxis yaxis i j z0 r_cavity r_taper
                psi q_taper w_r w_i w_t niter Hx Hy Hfin) as Hn.
  pose proof (face_on_pixel x0 y0 PA x y xaxis yaxis i j z0 r_cavity r_taper
                psi q_taper w_r w_i w_t 0 Hx Hy Hfin) as H0.
  split; [exact Hn | now rewrite Hn, H0].
Qed.

Lemma default_height_finite (r t z0 w_i : R) :
  isfinite (fadd (z_func (Fin r) (Fin z0) (Fin 0) PInf (Fin 0) (Fin 1))
                 (w_func (Fin r) (Fin t) (Fin 0) (Fin 1) (Fin w_i) (Fin 0)))
  = true.
Proof.
  apply fadd_finite.
  - apply z_func_finite; [lra | lra | left; reflexivity].
  - apply w_func_finite. lra.
Qed.

Lemma face_on_radius_and_azimuth_witness :
  nth_error [Fin 1; Fin 2] 1 = Some (Fin 2)
  /\ nth_error [Fin 0; Fin 3] 1 = Some (Fin 3)
  /\ pixel (get_flared_coords (Fin 0) (Fin 0) [Fin 1; Fin 2] [Fin 0; Fin 3]
              (Fin 0) (Fin 30) (Fin 0.3) (Fin 0) PInf (Fin 0) (Fin 1)
              (Fin 1) (Fin 0) (Fin 0) 5) 1 1
     = Some (fhypot (Fin (2 - 0)) (Fin (3 - 0)),
             farctan2
               (snd (rotate_coords (Fin (2 - 0)) (Fin (3 - 0)) (Fin 30)))
               (fst (rotate_coords (Fin (2 - 0)) (Fin (3 - 0)) (Fin 30))),
             z_func (fhypot (Fin (2 - 0)) (Fin (3 - 0))) (Fin 0.3) (Fin 0)
               PInf (Fin 0) (Fin 1)).
Proof.
  split; [reflexivity |]. split; [reflexivity |].
  exact (proj1 (face_on_radius_and_azimuth 0 0 30 2 3 [Fin 1; Fin 2]
                  [Fin 0; Fin 3] 1 1 (Fin 0.3) (Fin 0) PInf (Fin 0) (Fin 1)
                  (Fin 1) (Fin 0) (Fin 0) eq_refl eq_refl
                  (default_height_finite _ _ 0.3 0) 5)).
Defined.

(** C8 as stated fails in its azimuth: for the pixel [(1, 0)] of a face-on
    disk centred on the origin with [PA = 0], the azimuth returned is
    [pi / 2], while [arctan2] of the recentred coordinates is [0]. *)
Lemma face_on_azimuth_counterexample :
  exists r t z,
    pixel (get_flared_coords (Fin 0) (Fin 0) [Fin 1] [Fin 0]
             (Fin 0) (Fin 0) (Fin 0) (Fin 0) PInf (Fin 0) (Fin 1)
             (Fin 1) (Fin 0) (Fin 0) 5) 0 0 = Some (r, t, z)
    /\ t = Fin (PI / 2)
    /\ farctan2 (Fin (0 - 0)) (Fin (1 - 0)) = Fin 0
    /\ t <> farctan2 (Fin (0 - 0)) (Fin (1 - 0)).
Proof.
  pose proof (face_on_pixel 0 0 0 1 0 [Fin 1] [Fin 0] 0 0 (Fin 0) (Fin 0) PInf
                (Fin 0) (Fin 1) (Fin 1) (Fin 0) (Fin 0) 5 eq_refl eq_refl
                (default_height_finite _ _ 0 0)) as H.
  cbv zeta in H.
  assert (Et : farctan2
                 (snd (rotate_coords (Fin (1 - 0)) (Fin (0 - 0)) (Fin 0)))
                 (fst (rotate_coords (Fin (1 - 0)) (Fin (0 - 0)) (Fin 0)))
               = Fin (PI / 2)).
  { unfold rotate_coords, radians. cbn.
    replace (0 * (PI / 180)) with 0 by lra. rewrite cos_0, sin_0.
    unfold Ratan2. Rdecide. reflexivity. }
  assert (E0 : farctan2 (Fin (0 - 0)) (Fin (1 - 0)) = Fin 0).
  { cbn. unfold Ratan2. Rdecide.
    replace ((0 - 0) / (1 - 0)) with 0 by lra. now rewrite atan_0. }
  rewrite Et in H.
  eexists _, _, _. split; [exact H |]. split; [reflexivity |].
  split; [exact E0 |].
  rewrite E0. intros C. injection C as C.
  assert (Hpi := PI_RGT_0). lra.
Qed.

End Rotation.

(** ** The inclination convention of [disk_coords] *)

(** Whenever [disk_coords] returns, the coordinates come from the engine
    run with the inclination that the convention gives. *)
Lemma disk_coords_inclination (self : rotationmap) (kw : dict)
    (coords : grid (float * float * float)) :
  disk_coords self kw = Ok coords ->
  exists inc x0 y0 xs ys PA z0 r_cavity r_taper psi q_taper w_r w_i w_t,
    as_float (kwarg kw "inc" (VFloat (Fin 0))) = Ok inc
    /\ let engine :=
         dp.get_flared_coords x0 y0 xs ys (apply_inc_convention inc) PA
           z0 r_cavity r_taper psi q_taper w_r w_i w_t
           (disk_coords_niter self) in
       coords = engine
       \/ coords = gmap (fun '(r, t, z) =>
                           (fmul r (fcos t), fmul r (fsin t), z)) engine.
Proof.
  unfold disk_coords. intros H.
  apply bind_Ok_inv in H as [frame [_ H]].
  destruct (negb _); [discriminate H |].
  apply bind_Ok_inv in H as [inc [Hinc H]].
  destruct (xorb _ _); [discriminate H |].
  destruct (shadowed self); [discriminate H |].
  apply bind_Ok_inv in H as [xs [_ H]].
  apply bind_Ok_inv in H as [ys [_ H]].
  apply bind_Ok_inv in H as [x0 [_ H]].
  apply bind_Ok_inv in H as [y0 [_ H]].
  apply bind_Ok_inv in H as [PA [_ H]].
  apply bind_Ok_inv in H as [z0 [_ H]].
  apply bind_Ok_inv in H as [r_cavity [_ H]].
  apply bind_Ok_inv in H as [r_taper [_ H]].
  apply bind_Ok_inv in H as [psi [_ H]].
  apply bind_Ok_inv in H as [q_taper [_ H]].
  apply bind_Ok_inv in H as [w_r [_ H]].
  apply bind_Ok_inv in H as [w_i [_ H]].
  apply bind_Ok_inv in H as [w_t [_ H]].
  exists inc, x0, y0, xs, ys, PA, z0, r_cavity, r_taper, psi, q_taper,
    w_r, w_i, w_t.
  split; [exact Hinc |].
  destruct (String.eqb frame "cylindrical"); apply Ok_inj in H;
    [left | right]; now symmetry.
Qed.

(** C2 (amended).  An inclination of at least 90 degrees is mapped by
    subtracting 180 degrees and a smaller one is kept; the value used lies
    in [-90, 90) for every inclination in [-90, 270). *)
Theorem inclination_convention (inc : R) :
  (90 <= inc -> apply_inc_convention (Fin inc) = Fin (inc - 180))
  /\ (inc < 90 -> apply_inc_convention (Fin inc) = Fin inc)
  /\ (-90 <= inc < 270 ->
      exists r, apply_inc_convention (Fin inc) = Fin r /\ -90 <= r < 90).
Proof.
  unfold apply_inc_convention. cbn.
  split; [| split].
  - intros H. now rewrite Rltb_false by lra.
  - intros H. now rewrite Rltb_true by lra.
  - intros [Hlo Hhi]. destruct (Rlt_dec inc 90) as [H | H].
    + rewrite Rltb_true by assumption. exists inc. split; [reflexivity | lra].
    + rewrite Rltb_false by assumption. exists (inc + - 180).
      split; [reflexivity | lra].
Qed.

Lemma inclination_convention_witness :
  (90 <= 120 /\ apply_inc_convention (Fin 120) = Fin (120 - 180))
  /\ (30 < 90 /\ apply_inc_convention (Fin 30) = Fin 30)
  /\ (-90 <= 120 < 270 /\
      exists r, apply_inc_convention (Fin 120) = Fin r /\ -90 <= r < 90).
Proof.
  split; [| split].
  - assert (H : 90 <= 120) by lra.
    split; [exact H | exact (proj1 (inclination_convention 120) H)].
  - assert (H : 30 < 90) by lra.
    split; [exact H | exact (proj1 (proj2 (inclination_convention 30)) H)].
  - assert (H : -90 <= 120 < 270) by lra.
    split; [exact H | exact (proj2 (proj2 (inclination_convention 120)) H)].
Defined.

(** C2 as stated fails: an inclination of exactly 90 degrees is used as
    -90 degrees, outside (-90, 90]. *)
Lemma inclination_convention_counterexample :
  apply_inc_convention (Fin 90) = Fin (90 - 180)
  /\ ~ (-90 < 90 - 180 <= 90).
Proof.
  split.
  - unfold apply_inc_convention. cbn. now rewrite Rltb_false by lra.
  - lra.
Qed.

(** ** Priors *)

Lemma registry_get_set (priors : registry) (k : string) (f : prior) :
  registry_get (registry_set priors k f) k = Some f.
Proof.
  induction priors as [| [k' f'] rest IH]; simpl.
  - now rewrite String.eqb_refl.
  - destruct (String.eqb k' k) eqn:E; simpl.
    + now rewrite String.eqb_refl.
    + now rewrite E.
Qed.

(** The value of a flat prior with bounds [a < b]. *)
Lemma eval_flat_outside (a b : R) (p : float) :
  a < b -> flt p (Fin a) = true \/ fgt p (Fin b) = true ->
  eval_prior (FlatPrior [Fin a; Fin b]) (VFloat p) = Ok NInf.
Proof.
  intros Hab Hout. unfold eval_prior. cbn. unfold fgt. cbn.
  rewrite (Rltb_false b a) by lra. rewrite (Rltb_true a b) by lra.
  destruct p as [r | | |]; cbn in *.
  - destruct Hout as [H | H]; apply Rltb_spec in H.
    + now rewrite Rleb_false by lra.
    + destruct (Rleb a r); cbn; [| reflexivity].
      now rewrite Rleb_false by lra.
  - reflexivity.
  - reflexivity.
  - destruct Hout; discriminate.
Qed.

Lemma eval_flat_inside (a b p : R) :
  a < b -> a <= p <= b ->
  eval_prior (FlatPrior [Fin a; Fin b]) (VFloat (Fin p))
  = Ok (Fin (ln (1 / (b - a)))).
Proof.
  intros Hab [Hlo Hhi]. unfold eval_prior. cbn. unfold fgt. cbn.
  rewrite (Rltb_false b a) by lra. rewrite (Rltb_true a b) by lra.
  cbn. rewrite (Rleb_true a p) by assumption. cbn.
  rewrite (Rleb_true p b) by assumption. cbn.
  rewrite Reqb_false by lra.
  assert (Hpos : 0 < 1 / (b + - a)).
  { apply Rdiv_lt_0_compat; lra. }
  unfold flog. rewrite Rltb_true by assumption. reflexivity.
Qed.

(** C9.  A flat prior registered with bounds [a < b] returns minus
    infinity for every value strictly below [a] or strictly above [b], and
    the constant [log (1 / (b - a))] for every value of the closed interval
    [[a, b]], [a] and [b] included. *)
Theorem flat_prior_support (priors : registry) (param : string) (a b : R) :
  a < b ->
  exists priors',
    set_prior priors param [Fin a; Fin b] "flat" = Ok priors'
    /\ registry_get priors' param = Some (FlatPrior [Fin a; Fin b])
    /\ (forall p : float,
          flt p (Fin a) = true \/ fgt p (Fin b) = true ->
          eval_prior (FlatPrior [Fin a; Fin b]) (VFloat p) = Ok NInf)
    /\ (forall p : R,
          a <= p <= b ->
          eval_prior (FlatPrior [Fin a; Fin b]) (VFloat (Fin p))
          = Ok (Fin (ln (1 / (b - a)))))
    /\ eval_prior (FlatPrior [Fin a; Fin b]) (VFloat (Fin a))
       = Ok (Fin (ln (1 / (b - a))))
    /\ eval_prior (FlatPrior [Fin a; Fin b]) (VFloat (Fin b))
       = Ok (Fin (ln (1 / (b - a)))).
Proof.
  intros Hab.
  exists (registry_set priors param (FlatPrior [Fin a; Fin b])).
  split; [reflexivity |].
  split; [apply registry_get_set |].
  split; [intros p Hp; now apply eval_flat_outside |].
  split; [intros p Hp; now apply eval_flat_inside |].
  split; apply eval_flat_inside; lra.
Qed.

Lemma flat_prior_support_witness :
  -2 < 2
  /\ exists priors',
      set_prior [] "x0" [Fin (-2); Fin 2] "flat" = Ok priors'
      /\ registry_get priors' "x0" = Some (FlatPrior [Fin (-2); Fin 2])
      /\ (forall p : float,
            flt p (Fin (-2)) = true \/ fgt p (Fin 2) = true ->
            eval_prior (FlatPrior [Fin (-2); Fin 2]) (VFloat p) = Ok NInf)
      /\ (forall p : R,
            -2 <= p <= 2 ->
            eval_prior (FlatPrior [Fin (-2); Fin 2]) (VFloat (Fin p))
            = Ok (Fin (ln (1 / (2 - -2)))))
      /\ eval_prior (FlatPrior [Fin (-2); Fin 2]) (VFloat (Fin (-2)))
         = Ok (Fin (ln (1 / (2 - -2))))
      /\ eval_prior (FlatPrior [Fin (-2); Fin 2]) (VFloat (Fin 2))
         = Ok (Fin (ln (1 / (2 - -2)))).
Proof.
  assert (H : -2 < 2) by lra.
  split; [exact H | exact (flat_prior_support [] "x0" (-2) 2 H)].
Defined.

(** ** Dictionaries *)

Lemma dict_get_remove (d : dict) (k k' : string) :
  dict_get (dict_remove d k) k'
  = if String.eqb k k' then None else dict_get d k'.
Proof.
  induction d as [| [k0 v0] d IH]; simpl.
  - now destruct (String.eqb k k').
  - destruct (String.eqb k0 k) eqn:E0; simpl.
    + apply String.eqb_eq in E0. subst k0. rewrite IH.
      now destruct (String.eqb k k').
    + destruct (String.eqb k0 k') eqn:E1.
      * apply String.eqb_eq in E1. subst k0.
        rewrite String.eqb_sym in E0. now rewrite E0.
      * exact IH.
Qed.

Lemma dict_get_set (d : dict) (k k' : string) (v : value) :
  dict_get (dict_set d k v) k'
  = if String.eqb k k' then Some v else dict_get d k'.
Proof.
  induction d as [| [k0 v0] d IH]; simpl.
  - reflexivity.
  - destruct (String.eqb k0 k) eqn:E0; simpl.
    + apply String.eqb_eq in E0. subst k0.
      now destruct (String.eqb k k').
    + destruct (String.eqb k0 k') eqn:E1.
      * apply String.eqb_eq in E1. subst k0.
        rewrite String.eqb_sym in E0. now rewrite E0.
      * exact IH.
Qed.

Lemma dict_get_refill (d : dict) (k k' : string) (dflt : value) :
  dict_get (refill d k dflt) k'
  = if String.eqb k k' then Some (dict_get_default d k dflt)
    else dict_get d k'.
Proof.
  unfold refill, dict_pop. rewrite dict_get_set, dict_get_remove.
  now destruct (String.eqb k k').
Qed.

Lemma dict_get_refill_all (defaults : list (string * value)) (d : dict)
    (k : string) :
  dict_get (refill_all d defaults) k
  = match table_get defaults k with
    | Some dflt => Some (dict_get_default d k dflt)
    | None => dict_get d k
    end.
Proof.
  unfold refill_all. revert d.
  induction defaults as [| [k0 v0] rest IH]; intros d; simpl.
  - reflexivity.
  - rewrite IH. destruct (String.eqb k0 k) eqn:E.
    + apply String.eqb_eq in E. subst k0.
      assert (Hk : dict_get (refill d k v0) k
                   = Some (dict_get_default d k v0)).
      { rewrite dict_get_refill. now rewrite String.eqb_refl. }
      unfold dict_get_default at 1. rewrite Hk.
      now destruct (table_get rest k).
    + unfold dict_get_default at 1. rewrite dict_get_refill, E.
      reflexivity.
Qed.

Lemma is_none_get (d d' : dict) (k : string) :
  dict_get d k = dict_get d' k -> is_none d k = is_none d' k.
Proof. unfold is_none. now intros ->. Qed.

Lemma table_get_app (t1 t2 : list (string * value)) (k : string) :
  table_get (t1 ++ t2) k
  = match table_get t1 k with
    | Some v => Some v
    | None => table_get t2 k
    end.
Proof.
  induction t1 as [| [k0 v0] rest IH]; simpl; [reflexivity |].
  now destruct (String.eqb k0 k).
Qed.

Lemma table_get_In (defaults : list (string * value)) (k : string)
    (v : value) :
  table_get defaults k = Some v -> In (k, v) defaults.
Proof.
  induction defaults as [| [k0 v0] rest IH]; simpl; [discriminate |].
  destruct (String.eqb k0 k) eqn:E.
  - apply String.eqb_eq in E. subst k0. intros H. injection H as ->.
    now left.
  - intros H. right. now apply IH.
Qed.

(** Look a key up through refills, and find an entry of the table of
    defaults. *)
Ltac dict_lookup :=
  repeat first
    [ rewrite dict_get_refill_all
    | rewrite dict_get_set
    | rewrite dict_get_remove ];
  cbn [table_get basic_defaults profile_defaults mask_defaults
       String.eqb Ascii.eqb Bool.eqb fst snd].

Ltac table_entry :=
  apply table_get_In; unfold default_tables;
  cbn [basic_defaults profile_defaults mask_defaults app table_get
       String.eqb Ascii.eqb Bool.eqb];
  reflexivity.

(** ** [verify_params_dictionary] *)

Section Verify.

Local Open Scope string_scope.

Variable self : rotationmap.

Lemma filled_get_other (params : dict) (vfunc : string)
    (x_max v_min v_max : float) (k : string) :
  table_get (default_tables self x_max v_min v_max) k = None ->
  String.eqb "vfunc" k = false ->
  dict_get (filled self params vfunc x_max v_min v_max) k = dict_get params k.
Proof.
  unfold default_tables. rewrite !table_get_app.
  intros Ht Hv. unfold filled.
  destruct (table_get (basic_defaults self) k) eqn:E1; [discriminate |].
  destruct (table_get profile_defaults k) eqn:E2; [discriminate |].
  rewrite !dict_get_refill_all, Ht, E2, dict_get_set, Hv.
  rewrite dict_get_refill_all, E1.
  reflexivity.
Qed.

Lemma filled_get_default (params : dict) (vfunc : string)
    (x_max v_min v_max : float) (k : string) (dflt : value) :
  In (k, dflt) (default_tables self x_max v_min v_max) ->
  dict_get (filled self params vfunc x_max v_min v_max) k
  = Some (dict_get_default params k dflt).
Proof.
  intros Hin. unfold default_tables in Hin.
  cbn [basic_defaults profile_defaults mask_defaults app In] in Hin.
  unfold filled.
  repeat (destruct Hin as [Heq | Hin];
          [injection Heq as <- <-; dict_lookup; unfold dict_get_default;
           dict_lookup; reflexivity |]).
  contradiction.
Qed.

Lemma verify_unfold (params : dict) (x_max v_min v_max : float) :
  py_max (xaxis self) = Ok x_max ->
  np_nanmin (data self) = Ok v_min ->
  np_nanmax (data self) = Ok v_max ->
  verify_params_dictionary self params
  = if is_none params "inc" then Err (KeyError "Must provide `'inc'`.") else
    if is_none params "PA" then Err (KeyError "Must provide `'PA'`.") else
    if negb (is_none params "mstar") && negb (is_none params "vp_100")
    then Err (KeyError "Only provide either `'mstar'` or `'vp_100'`.") else
    if negb (negb (is_none params "mstar"))
       && negb (negb (is_none params "vp_100"))
    then Err (KeyError "Must provide either `'mstar'` or `'vp_100'`.") else
    let F := filled self params
               (if negb (is_none params "mstar") then "proj_vkep"
                else "proj_vpow") x_max v_min v_max in
    _ <- check_bounds F "r_min" "r_max"
           "`r_max` must be greater than `r_min`." ;;
    _ <- check_bounds F "PA_min" "PA_max"
           "`PA_max` must be great than `PA_min`." ;;
    _ <- check_bounds F "v_min" "v_max"
           "`v_max` must be greater than `v_min`." ;;
    b <- py_bool (dict_get_default F "beam" (VBool false)) ;;
    Ok (dict_set (dict_remove F "beam") "beam" (VBool b)).
Proof.
  intros Hx Hmin Hmax. unfold verify_params_dictionary. cbv zeta.
  assert (Hn : forall k, table_get (basic_defaults self) k = None ->
                 is_none (refill_all params (basic_defaults self)) k
                 = is_none params k).
  { intros k Hk. apply is_none_get. now rewrite dict_get_refill_all, Hk. }
  rewrite !Hn by reflexivity.
  rewrite Hx, Hmin, Hmax. cbn [bind]. unfold filled, dict_pop.
  reflexivity.
Qed.

Lemma check_bounds_filled (params : dict) (vfunc : string)
    (x_max v_min v_max : float) (lo hi msg : string) (dlo dhi : value)
    (x y : float) :
  In (lo, dlo) (default_tables self x_max v_min v_max) ->
  In (hi, dhi) (default_tables self x_max v_min v_max) ->
  as_float (dict_get_default params lo dlo) = Ok x ->
  as_float (dict_get_default params hi dhi) = Ok y ->
  check_bounds (filled self params vfunc x_max v_min v_max) lo hi msg
  = (if fge x y then Err (ValueError msg) else Ok tt)
  /\ (inverted params lo hi dlo dhi <-> fge x y = true).
Proof.
  intros Hlo Hhi Ex Ey. split.
  - unfold check_bounds, dict_item.
    rewrite (filled_get_default _ _ _ _ _ _ _ Hlo).
    rewrite (filled_get_default _ _ _ _ _ _ _ Hhi).
    cbn [bind]. unfold py_ge. rewrite Ex, Ey. reflexivity.
  - unfold inverted, py_ge. rewrite Ex, Ey. cbn [bind].
    split; [intros H; now injection H | intros ->; reflexivity].
Qed.

(** The check of a pair of bounds compares the values given or else the
    defaults. *)
Lemma check_bounds_compare (params : dict) (vfunc : string)
    (x_max v_min v_max : float) (lo hi msg : string) (dlo dhi : value) :
  In (lo, dlo) (default_tables self x_max v_min v_max) ->
  In (hi, dhi) (default_tables self x_max v_min v_max) ->
  check_bounds (filled self params vfunc x_max v_min v_max) lo hi msg
  = (c <- py_ge (dict_get_default params lo dlo)
            (dict_get_default params hi dhi) ;;
     if c then Err (ValueError msg) else Ok tt).
Proof.
  intros Hlo Hhi. unfold check_bounds, dict_item.
  rewrite (filled_get_default _ _ _ _ _ _ _ Hlo).
  rewrite (filled_get_default _ _ _ _ _ _ _ Hhi).
  reflexivity.
Qed.




End Verify.

(** The bounds of the Keplerian example are numbers in order, and it has
    no [beam] entry. *)
Lemma example_params_checks :
  py_ge (dict_get_default example_params "r_min" (VFloat (Fin 0)))
    (dict_get_default example_params "r_max" (VFloat (Fin 1e10))) = Ok false
  /\ py_ge (dict_get_default example_params "PA_min" (VFloat (Fin (- PI))))
       (dict_get_default example_params "PA_max" (VFloat (Fin PI))) = Ok false
  /\ py_ge (dict_get_default example_params "v_min" (VFloat (Fin 1)))
       (dict_get_default example_params "v_max" (VFloat (Fin 1))) = Ok false
  /\ py_bool (dict_get_default example_params "beam" (VBool false))
     = Ok false.
Proof.
  assert (Hpi := PI_RGT_0).
  repeat split; cbn; unfold fge, fle; f_equal; apply Rleb_false; lra.
Qed.



(** ** The power-law velocity model *)

Section PowerLaw.

Local Open Scope string_scope.

Variable self : rotationmap.

(** [proj_vpow] stops at the first of the names it does not know. *)
Lemma proj_vpow_raises (coords : grid (float * float * float))
    (dist : float) (mstar : value)
    (inc vp_q vp_100 vp_qtaper vp_rtaper : float) :
  models.proj_vpow coords dist mstar inc vp_q vp_100 vp_qtaper vp_rtaper
  = Err (NameError "vr_q").
Proof. reflexivity. Qed.

(** Whenever the rotation law is not ['proj_vkep'], [vphi] raises: without
    an ['mstar'] entry on reading [params['mstar']], with one inside
    [proj_vpow]. *)
Lemma vphi_power_law_raises (params : dict) :
  (forall v, dict_get params "vfunc" = Some v ->
             py_eq_str v "proj_vkep" = false) ->
  raises (vphi self params).
Proof.
  intros Hv. unfold vphi.
  apply bind_raises. intros coords _.
  apply bind_raises. intros vfunc Hvf.
  unfold dict_item in Hvf.
  destruct (dict_get params "vfunc") as [v |] eqn:E; [| discriminate].
  apply Ok_inj in Hvf. subst v. rewrite (Hv vfunc eq_refl).
  apply bind_raises. intros v_phi Hphi. exfalso. revert Hphi.
  repeat (match goal with
          | |- bind ?m _ = Ok _ -> False =>
              destruct m; cbn [bind]; [| discriminate]
          end).
  rewrite proj_vpow_raises. discriminate.
Qed.

(** When [verify_params_dictionary] returns, the map has an x axis and
    data to take the defaults from. *)
Lemma verify_Ok_inv (params out : dict) :
  verify_params_dictionary self params = Ok out ->
  exists x_max v_min v_max,
    py_max (xaxis self) = Ok x_max
    /\ np_nanmin (data self) = Ok v_min
    /\ np_nanmax (data self) = Ok v_max.
Proof.
  unfold verify_params_dictionary.
  destruct (py_max (xaxis self)) as [x_max | e].
  2:{ cbv zeta.
      repeat (match goal with
              | |- (if ?c then _ else _) = _ -> _ => destruct c
              end; try discriminate). }
  destruct (np_nanmin (data self)) as [v_min | e].
  2:{ cbv zeta.
      repeat (match goal with
              | |- (if ?c then _ else _) = _ -> _ => destruct c
              end; try discriminate). }
  destruct (np_nanmax (data self)) as [v_max | e].
  2:{ cbv zeta.
      repeat (match goal with
              | |- (if ?c then _ else _) = _ -> _ => destruct c
              end; try discriminate). }
  intros _. now exists x_max, v_min, v_max.
Qed.

Lemma verify_unfold_pow (params : dict) (x_max v_min v_max : float) :
  is_none params "inc" = false ->
  is_none params "PA" = false ->
  is_none params "mstar" = true ->
  is_none params "vp_100" = false ->
  py_max (xaxis self) = Ok x_max ->
  np_nanmin (data self) = Ok v_min ->
  np_nanmax (data self) = Ok v_max ->
  verify_params_dictionary self params
  = (_ <- check_bounds (filled self params "proj_vpow" x_max v_min v_max)
            "r_min" "r_max" "`r_max` must be greater than `r_min`." ;;
     _ <- check_bounds (filled self params "proj_vpow" x_max v_min v_max)
            "PA_min" "PA_max" "`PA_max` must be great than `PA_min`." ;;
     _ <- check_bounds (filled self params "proj_vpow" x_max v_min v_max)
            "v_min" "v_max" "`v_max` must be greater than `v_min`." ;;
     b <- py_bool (dict_get_default
                     (filled self params "proj_vpow" x_max v_min v_max)
                     "beam" (VBool false)) ;;
     Ok (dict_set
           (dict_remove (filled self params "proj_vpow" x_max v_min v_max)
              "beam")
           "beam" (VBool b))).
Proof.
  intros Hi HP Hm Hv Hx Hmin Hmax.
  rewrite (verify_unfold self params x_max v_min v_max Hx Hmin Hmax).
  rewrite Hi, HP, Hm, Hv.
  cbn [negb andb]. cbv zeta. reflexivity.
Qed.

(** What [verify_params_dictionary] returns for a dictionary without
    ['mstar'] names the power law and still has no ['mstar']. *)
Lemma verify_power_law (params out : dict) :
  is_none params "mstar" = true ->
  verify_params_dictionary self params = Ok out ->
  dict_get out "vfunc" = Some (VStr "proj_vpow")
  /\ dict_get out "mstar" = dict_get params "mstar".
Proof.
  intros Hm Hout.
  destruct (verify_Ok_inv params out Hout)
    as [x_max [v_min [v_max [Hx [Hmin Hmax]]]]].
  destruct (is_none params "inc") eqn:Hi.
  { rewrite (verify_unfold self params x_max v_min v_max Hx Hmin Hmax) in Hout.
    rewrite Hi in Hout. discriminate Hout. }
  destruct (is_none params "PA") eqn:HP.
  { rewrite (verify_unfold self params x_max v_min v_max Hx Hmin Hmax) in Hout.
    rewrite Hi, HP in Hout. discriminate Hout. }
  destruct (is_none params "vp_100") eqn:Hv.
  { rewrite (verify_unfold self params x_max v_min v_max Hx Hmin Hmax) in Hout.
    rewrite Hi, HP, Hm, Hv in Hout. discriminate Hout. }
  rewrite (verify_unfold_pow params x_max v_min v_max Hi HP Hm Hv Hx Hmin Hmax)
    in Hout.
  apply bind_Ok_inv in Hout as [u1 [_ Hout]].
  apply bind_Ok_inv in Hout as [u2 [_ Hout]].
  apply bind_Ok_inv in Hout as [u3 [_ Hout]].
  apply bind_Ok_inv in Hout as [b [_ Hout]].
  apply Ok_inj in Hout. subst out.
  split.
  - rewrite dict_get_set, dict_get_remove. cbn [String.eqb Ascii.eqb Bool.eqb].
    unfold filled.
    rewrite !dict_get_refill_all.
    cbn [table_get profile_defaults mask_defaults String.eqb Ascii.eqb
         Bool.eqb].
    rewrite dict_get_set.
    cbn [String.eqb Ascii.eqb Bool.eqb].
    reflexivity.
  - rewrite dict_get_set, dict_get_remove. cbn [String.eqb Ascii.eqb Bool.eqb].
    rewrite filled_get_other.
    + reflexivity.
    + unfold default_tables.
      cbn [table_get basic_defaults profile_defaults mask_defaults app
           String.eqb Ascii.eqb Bool.eqb].
      reflexivity.
    + reflexivity.
Qed.

(** C1 (a defect of the code).  The power-law model is never
    evaluated: for every dictionary without an ['mstar'] value, and so for
    every one that holds ['vp_100'] and not ['mstar'], [evaluate_model]
    raises instead of returning a velocity field. *)
Theorem power_law_evaluation_raises (params : dict) :
  is_none params "mstar" = true ->
  raises (evaluate_model self params).
Proof.
  intros Hm. unfold evaluate_model.
  apply bind_raises. intros out Hout.
  destruct (verify_power_law params out Hm Hout) as [Hvfunc _].
  unfold _make_model. apply raises_bind.
  apply vphi_power_law_raises.
  intros v Hv. rewrite Hvfunc in Hv. apply (f_equal (fun o =>
    match o with Some w => py_eq_str w "proj_vkep" | None => false end)) in Hv.
  symmetry. exact Hv.
Qed.

End PowerLaw.

Lemma power_law_evaluation_raises_witness :
  is_none power_law_params "mstar" = true
  /\ raises (evaluate_model example_map power_law_params).
Proof.
  split; [reflexivity |].
  exact (power_law_evaluation_raises example_map power_law_params eq_refl).
Defined.

(** The bounds of a dictionary that gives only [v_min = 0] and
    [v_max = 5] are in order. *)
Lemma example_bounds_pass (params : dict) :
  dict_get params "r_min" = None -> dict_get params "r_max" = None ->
  dict_get params "PA_min" = None -> dict_get params "PA_max" = None ->
  dict_get params "v_min" = Some (VFloat (Fin 0)) ->
  dict_get params "v_max" = Some (VFloat (Fin 5)) ->
  let F := filled example_map params "proj_vpow" (Fin 1) (Fin 1) (Fin 1) in
  check_bounds F "r_min" "r_max" "`r_max` must be greater than `r_min`."
  = Ok tt
  /\ check_bounds F "PA_min" "PA_max" "`PA_max` must be great than `PA_min`."
     = Ok tt
  /\ check_bounds F "v_min" "v_max" "`v_max` must be greater than `v_min`."
     = Ok tt.
Proof.
  intros H1 H2 H3 H4 H5 H6 F. subst F.
  assert (Hpi := PI_RGT_0).
  split; [| split].
  - rewrite (proj1 (check_bounds_filled example_map params "proj_vpow"
               (Fin 1) (Fin 1) (Fin 1) "r_min" "r_max" _
               (VFloat (Fin 0)) (VFloat (Fin 1e10)) (Fin 0) (Fin 1e10)
               ltac:(table_entry) ltac:(table_entry)
               ltac:(unfold dict_get_default; now rewrite H1)
               ltac:(unfold dict_get_default; now rewrite H2))).
    unfold fge, fle. now Rdecide.
  - rewrite (proj1 (check_bounds_filled example_map params "proj_vpow"
               (Fin 1) (Fin 1) (Fin 1) "PA_min" "PA_max" _
               (VFloat (Fin (- PI))) (VFloat (Fin PI)) (Fin (- PI)) (Fin PI)
               ltac:(table_entry) ltac:(table_entry)
               ltac:(unfold dict_get_default; now rewrite H3)
               ltac:(unfold dict_get_default; now rewrite H4))).
    unfold fge, fle. now Rdecide.
  - rewrite (proj1 (check_bounds_filled example_map params "proj_vpow"
               (Fin 1) (Fin 1) (Fin 1) "v_min" "v_max" _
               (VFloat (Fin 1)) (VFloat (Fin 1)) (Fin 0) (Fin 5)
               ltac:(table_entry) ltac:(table_entry)
               ltac:(unfold dict_get_default; now rewrite H5)
               ltac:(unfold dict_get_default; now rewrite H6))).
    unfold fge, fle. now Rdecide.
Qed.

(** At the failing input of C1, a dictionary with ['vp_100'] and without
    ['mstar'], the evaluation stops on reading [params['mstar']]. *)
Lemma power_law_failing_input :
  evaluate_model example_map power_law_params = Err (KeyError "mstar").
Proof.
  unfold evaluate_model.
  rewrite (verify_unfold_pow example_map power_law_params
             (Fin 1) (Fin 1) (Fin 1)) by reflexivity.
  destruct (example_bounds_pass power_law_params eq_refl eq_refl eq_refl
              eq_refl eq_refl eq_refl) as [C1 [C2 C3]].
  rewrite C1, C2, C3. cbn [bind].
  unfold _make_model, vphi, disk_coords.
  cbn -[dp.get_flared_coords apply_inc_convention lower].
  change (lower "cylindrical") with "cylindrical"%string.
  cbn -[dp.get_flared_coords apply_inc_convention lower].
  reflexivity.
Qed.

(** With an ['mstar'] entry holding [None] next to ['vp_100'], the
    evaluation reaches [proj_vpow] and stops on the unknown name [vr_q]. *)
Lemma power_law_unknown_name :
  evaluate_model example_map (("mstar"%string, VNone) :: power_law_params)
  = Err (NameError "vr_q").
Proof.
  unfold evaluate_model.
  rewrite (verify_unfold_pow example_map
             (("mstar"%string, VNone) :: power_law_params)
             (Fin 1) (Fin 1) (Fin 1)) by reflexivity.
  destruct (example_bounds_pass (("mstar"%string, VNone) :: power_law_params)
              eq_refl eq_refl eq_refl eq_refl eq_refl eq_refl)
    as [C1 [C2 C3]].
  rewrite C1, C2, C3. cbn [bind].
  unfold _make_model, vphi, disk_coords.
  cbn -[dp.get_flared_coords apply_inc_convention lower models.proj_vpow].
  change (lower "cylindrical") with "cylindrical"%string.
  cbn -[dp.get_flared_coords apply_inc_convention lower models.proj_vpow].
  rewrite proj_vpow_raises.
  reflexivity.
Qed.

(** ** The likelihood *)

Section Likelihood.

Lemma same_shape_spec {A B : Type} (a : grid A) (b : grid B) :
  same_shape a b = true <-> shape a = shape b.
Proof.
  unfold same_shape.
  destruct (list_eq_dec Nat.eq_dec (shape a) (shape b)); split; intros H;
    (assumption || reflexivity || discriminate || contradiction).
Qed.

Lemma shape_gmap {A B : Type} (f : A -> B) (g : grid A) :
  shape (gmap f g) = shape g.
Proof.
  unfold shape, gmap. rewrite map_map. apply map_ext.
  intros row. apply length_map.
Qed.

Lemma length_zip_with {A B C : Type} (f : A -> B -> C) (a : list A)
    (b : list B) :
  List.length a = List.length b ->
  List.length (zip_with f a b) = List.length a.
Proof.
  revert b. induction a as [| x a IH]; intros [| y b] H; simpl in *;
    try reflexivity; try discriminate.
  f_equal. apply IH. now injection H.
Qed.

Lemma shape_map2_rows {A B C : Type} (f : A -> B -> C) (a : grid A)
    (b : grid B) :
  shape a = shape b -> shape (map2_rows f a b) = shape a.
Proof.
  unfold shape, map2_rows. revert b.
  induction a as [| r a IH]; intros [| r' b] H; simpl in *;
    try reflexivity; try discriminate.
  injection H as Hr H. f_equal; [now apply length_zip_with | now apply IH].
Qed.

Lemma zip_with_app {A B C : Type} (f : A -> B -> C) (a1 a2 : list A)
    (b1 b2 : list B) :
  List.length a1 = List.length b1 ->
  zip_with f (a1 ++ a2) (b1 ++ b2) = zip_with f a1 b1 ++ zip_with f a2 b2.
Proof.
  revert b1. induction a1 as [| x a1 IH]; intros [| y b1] H; simpl in *;
    try reflexivity; try discriminate.
  f_equal. apply IH. now injection H.
Qed.

Lemma concat_map2_rows {A B C : Type} (f : A -> B -> C) (a : grid A)
    (b : grid B) :
  shape a = shape b ->
  List.concat (map2_rows f a b) = zip_with f (List.concat a) (List.concat b).
Proof.
  unfold shape, map2_rows. revert b.
  induction a as [| r a IH]; intros [| r' b] H; simpl in *;
    try reflexivity; try discriminate.
  injection H as Hr H. rewrite zip_with_app by assumption.
  f_equal. now apply IH.
Qed.

Lemma concat_gmap {A B : Type} (f : A -> B) (g : grid A) :
  List.concat (gmap f g) = map f (List.concat g).
Proof. unfold gmap. symmetry. apply concat_map. Qed.

(** Summing the squares with zeros at the masked pixels is summing over
    the pixels that the mask keeps. *)
Lemma masked_sum (ms : list bool) (ds mm : list float) (acc : float) :
  fold_left fadd
    (zip_with (fun (m : bool) v => if m then v else Fin 0) ms
       (map (fun d => fpower d (Fin 2)) (zip_with fsub ds mm))) acc
  = fold_left (fun acc dm => fadd acc (fsqr (fsub (fst dm) (snd dm))))
      (map snd (filter fst (combine ms (combine ds mm)))) acc.
Proof.
  revert ds mm acc.
  induction ms as [| m ms IH]; intros [| d ds] [| x mm] acc;
    cbn [zip_with map combine filter fst snd fold_left];
    try reflexivity.
  destruct m; cbn [zip_with map combine filter fst snd fold_left].
  - rewrite fpower_2. apply IH.
  - rewrite fadd_0_r. apply IH.
Qed.

(** The mask of [__init__] keeps the pixels with a finite observation. *)
Lemma masked_pairs_finite (observed modelled : array2) :
  masked_pairs (finite_mask observed) observed modelled
  = filter (fun dm => isfinite (fst dm))
      (combine (List.concat observed) (List.concat modelled)).
Proof.
  unfold masked_pairs, finite_mask. rewrite concat_gmap.
  generalize (List.concat observed) as ds.
  generalize (List.concat modelled) as ms.
  intros ms ds. revert ms.
  induction ds as [| d ds IH]; intros [| m ms];
    cbn [map combine filter fst snd]; try reflexivity.
  destruct (isfinite d); cbn [map fst snd]; now rewrite IH.
Qed.

Variable self : rotationmap.

(** C4.  The log-likelihood is minus one half of the sum, over the
    pixels at which the mask is true, of the squared difference between the
    observed velocity and the modelled one (the model times 1e-3), replaced
    by minus infinity when it is not finite; the uncertainties and the
    inverse-variance weights do not enter; and with the mask that
    [__init__] sets, the pixels kept are those whose observed velocity is
    finite. *)
Theorem ln_likelihood_spec (params : dict) (model : array2) :
  _make_model self params = Ok model ->
  same_shape (data self) model = true ->
  same_shape (mask self) (data self) = true ->
  fst (_ln_likelihood self params)
  = Ok (let modelled := gmap (fun v => fmul v (Fin 1e-3)) model in
        let s := fmul (Fin (-0.5))
                   (sum_of_squares
                      (masked_pairs (mask self) (data self) modelled)) in
        if isfinite s then s else NInf)
  /\ (forall err weights : array2,
        _ln_likelihood (with_weights self err weights) params
        = _ln_likelihood self params)
  /\ (mask self = finite_mask (data self) ->
      forall modelled : array2,
        masked_pairs (mask self) (data self) modelled
        = filter (fun dm => isfinite (fst dm))
            (combine (List.concat (data self)) (List.concat modelled))).
Proof.
  intros Hmodel Hdata Hmask.
  apply same_shape_spec in Hdata. apply same_shape_spec in Hmask.
  split; [| split; [| intros -> modelled; apply masked_pairs_finite]].
  - unfold _ln_likelihood, tbind, call, lift, tret. cbn [fst snd].
    rewrite Hmodel. cbn [fst snd].
    set (modelled := gmap (fun v => fmul v (Fin 1e-3)) model).
    assert (Hm : shape (data self) = shape modelled)
      by (unfold modelled; now rewrite shape_gmap).
    unfold np_zip.
    rewrite (proj2 (same_shape_spec (data self) modelled) Hm). cbn [fst snd].
    assert (Hs : shape (mask self)
                 = shape (gmap (fun d => fpower d (Fin 2))
                            (map2_rows fsub (data self) modelled))).
    { rewrite shape_gmap, shape_map2_rows by assumption. assumption. }
    rewrite (proj2 (same_shape_spec _ _) Hs). cbn [fst snd].
    unfold np_sum.
    rewrite concat_map2_rows by assumption.
    rewrite concat_gmap, concat_map2_rows by assumption.
    rewrite masked_sum. reflexivity.
  - intros err weights. reflexivity.
Qed.

End Likelihood.

Lemma kep_model_returns :
  exists model,
    _make_model example_map kep_params = Ok model
    /\ shape model = [1%nat].
Proof.
  eexists. split.
  - unfold _make_model, vphi, disk_coords.
    cbn -[dp._get_flared_coords dp.rotate_coords dp.deproject_coords
          models.proj_vkep apply_inc_convention lower fadd fsub fmul].
    change (lower "cylindrical") with "cylindrical"%string.
    cbn -[dp._get_flared_coords dp.rotate_coords dp.deproject_coords
          models.proj_vkep apply_inc_convention lower fadd fsub fmul].
    reflexivity.
  - reflexivity.
Qed.

Lemma ln_likelihood_spec_witness :
  exists model,
    _make_model example_map kep_params = Ok model
    /\ same_shape (data example_map) model = true
    /\ same_shape (mask example_map) (data example_map) = true
    /\ fst (_ln_likelihood example_map kep_params)
       = Ok (let modelled := gmap (fun v => fmul v (Fin 1e-3)) model in
             let s := fmul (Fin (-0.5))
                        (sum_of_squares
                           (masked_pairs (mask example_map)
                              (data example_map) modelled)) in
             if isfinite s then s else NInf)
    /\ mask example_map = finite_mask (data example_map).
Proof.
  destruct kep_model_returns as [model [Hmodel Hshape]].
  assert (H1 : same_shape (data example_map) model = true).
  { apply same_shape_spec. now rewrite Hshape. }
  assert (H2 : same_shape (mask example_map) (data example_map) = true)
    by reflexivity.
  exists model. split; [exact Hmodel |]. split; [exact H1 |].
  split; [exact H2 |].
  split; [| reflexivity].
  exact (proj1 (ln_likelihood_spec example_map kep_params model
                  Hmodel H1 H2)).
Defined.

(** ** Prior and posterior *)

Section PosteriorProperties.

Variable priors : registry.

Lemma ln_prior_loop_finite (items rest : dict) (a : R) :
  all_finite_terms priors items ->
  ln_prior_loop priors (items ++ rest) (Fin a)
  = (fst (ln_prior_loop priors rest
            (Fin (a + finite_terms_sum priors items))),
     prior_calls priors items
     ++ snd (ln_prior_loop priors rest
               (Fin (a + finite_terms_sum priors items)))).
Proof.
  revert a. induction items as [| [key v] items IH]; intros a Hfin.
  - cbn [app finite_terms_sum prior_calls]. rewrite Rplus_0_r.
    now destruct (ln_prior_loop priors rest (Fin a)).
  - cbn [app ln_prior_loop finite_terms_sum prior_calls].
    assert (Hrest : all_finite_terms priors items).
    { intros k' v' f' Hin. apply (Hfin k' v' f'). now right. }
    destruct (registry_get priors key) as [f |] eqn:Ereg.
    + destruct (Hfin key v f (or_introl eq_refl) Ereg) as [r Er].
      rewrite Er. unfold tbind, call. cbn [fst snd fadd isfinite negb].
      rewrite (IH (a + r) Hrest). cbn [fst snd app].
      now rewrite Rplus_assoc.
    + apply (IH a Hrest).
Qed.

Lemma ln_prior_trace (items : dict) (acc : float) :
  forallb is_prior_event (snd (ln_prior_loop priors items acc)) = true.
Proof.
  revert acc. induction items as [| [key v] items IH]; intros acc.
  - reflexivity.
  - cbn [ln_prior_loop]. destruct (registry_get priors key) as [f |].
    + unfold tbind, call. cbn [fst snd].
      destruct (eval_prior f v) as [term | e]; [| reflexivity].
      destruct (negb (isfinite (fadd acc term))); cbn [fst snd app forallb
        is_prior_event andb]; [reflexivity | apply IH].
    + apply IH.
Qed.

(** With a term of minus infinity among terms that do not raise, the
    log-prior is a value that is not finite. *)
Lemma ln_prior_loop_rejects (items : dict) (a : R) (key : string) (v : value)
    (f : prior) :
  In (key, v) items -> registry_get priors key = Some f ->
  eval_prior f v = Ok NInf ->
  no_prior_errors priors items ->
  exists lnp, fst (ln_prior_loop priors items (Fin a)) = Ok lnp
              /\ isfinite lnp = false.
Proof.
  revert a. induction items as [| [k0 v0] items IH];
    intros a Hin Hreg Hterm Hok; [contradiction |].
  cbn [ln_prior_loop].
  assert (Hrest : no_prior_errors priors items).
  { intros k' v' f' Hin'. apply (Hok k' v' f'). now right. }
  destruct (registry_get priors k0) as [f0 |] eqn:Ereg.
  - destruct (Hok k0 v0 f0 (or_introl eq_refl) Ereg) as [term Et].
    rewrite Et. unfold tbind, call. cbn [fst snd].
    destruct term as [r | | |]; cbn [fadd isfinite negb tret fst];
      try (eexists; split; [reflexivity | reflexivity]).
    destruct Hin as [Heq | Hin].
    + injection Heq as -> ->. rewrite Hreg in Ereg.
      apply (f_equal (fun o => match o with
                               | Some g => eval_prior g v
                               | None => Ok NaN
                               end)) in Ereg.
      rewrite Hterm, Et in Ereg. discriminate Ereg.
    + apply (IH (a + r) Hin Hreg Hterm Hrest).
  - destruct Hin as [Heq | Hin].
    + injection Heq as -> ->. rewrite Hreg in Ereg. discriminate Ereg.
    + apply (IH a Hin Hreg Hterm Hrest).
Qed.

(** When every term is a number or minus infinity, one term of minus
    infinity makes the log-prior minus infinity. *)
Lemma ln_prior_loop_rejects_proper (items : dict) (a : R) (key : string)
    (v : value) (f : prior) :
  In (key, v) items -> registry_get priors key = Some f ->
  eval_prior f v = Ok NInf ->
  proper_terms priors items ->
  fst (ln_prior_loop priors items (Fin a)) = Ok NInf.
Proof.
  revert a. induction items as [| [k0 v0] items IH];
    intros a Hin Hreg Hterm Hok; [contradiction |].
  cbn [ln_prior_loop].
  assert (Hrest : proper_terms priors items).
  { intros k' v' f' Hin'. apply (Hok k' v' f'). now right. }
  destruct (registry_get priors k0) as [f0 |] eqn:Ereg.
  - destruct (Hok k0 v0 f0 (or_introl eq_refl) Ereg) as [[r Et] | Et];
      rewrite Et; unfold tbind, call;
      cbn [fst snd fadd isfinite negb tret]; [| reflexivity].
    destruct Hin as [Heq | Hin].
    + injection Heq as -> ->. rewrite Hreg in Ereg.
      apply (f_equal (fun o => match o with
                               | Some g => eval_prior g v
                               | None => Ok NaN
                               end)) in Ereg.
      rewrite Hterm, Et in Ereg. discriminate Ereg.
    + apply (IH (a + r) Hin Hreg Hterm Hrest).
  - destruct Hin as [Heq | Hin].
    + injection Heq as -> ->. rewrite Hreg in Ereg. discriminate Ereg.
    + apply (IH a Hin Hreg Hterm Hrest).
Qed.

(** [_populate_dictionary] keeps the fixed values. *)
Lemma populate_keeps_fixed (theta : list float) (params model : dict)
    (key : string) (x : float) :
  _populate_dictionary theta params = Ok model ->
  In (key, VFloat x) params -> In (key, VFloat x) model.
Proof.
  revert model. induction params as [| [k0 v0] params IH];
    intros model Hpop Hin; [contradiction |].
  cbn [_populate_dictionary] in Hpop.
  apply bind_Ok_inv in Hpop as [v' [Hv Hpop]].
  apply bind_Ok_inv in Hpop as [rest' [Hrest Hpop]].
  apply Ok_inj in Hpop. subst model.
  destruct Hin as [Heq | Hin].
  - injection Heq as -> ->. cbn in Hv. apply Ok_inj in Hv. subst v'.
    now left.
  - right. now apply IH.
Qed.

Lemma ln_prior_all_finite (items : dict) :
  all_finite_terms priors items ->
  _ln_prior priors items
  = (Ok (Fin (0 + finite_terms_sum priors items)), prior_calls priors items).
Proof.
  intros Hfin. unfold _ln_prior.
  rewrite <- (app_nil_r items) at 1.
  rewrite (ln_prior_loop_finite items [] 0 Hfin).
  cbn [ln_prior_loop tret fst snd]. now rewrite app_nil_r.
Qed.

Lemma ln_prior_short_circuit (before after : dict) (key : string) (v : value)
    (f : prior) :
  all_finite_terms priors before ->
  registry_get priors key = Some f ->
  eval_prior f v = Ok NInf ->
  _ln_prior priors (before ++ (key, v) :: after)
  = (Ok NInf, prior_calls priors before ++ [EvPrior key]).
Proof.
  intros Hfin Hreg Hterm. unfold _ln_prior.
  rewrite (ln_prior_loop_finite before ((key, v) :: after) 0 Hfin).
  cbn [ln_prior_loop]. rewrite Hreg, Hterm.
  unfold tbind, call. cbn [fst snd fadd isfinite negb tret app].
  reflexivity.
Qed.

Variable self : rotationmap.

(** A call of the likelihood is recorded, and so is its call of the
    model. *)
Lemma ln_likelihood_trace (params : dict) :
  snd (_ln_likelihood self params) = [EvLikelihood; EvMakeModel].
Proof.
  unfold _ln_likelihood, tbind, call, lift, tret. cbn [fst snd app].
  destruct (_make_model self params) as [model | e]; cbn [fst snd app];
    [| reflexivity].
  destruct (np_zip fsub (data self) _) as [diff | e]; cbn [fst snd app];
    [| reflexivity].
  destruct (np_zip _ (mask self) _) as [lnx2 | e]; cbn [fst snd app];
    reflexivity.
Qed.

Lemma ln_probability_finite_prior (theta : list float)
    (params_in model : dict) (lnp : float) :
  _populate_dictionary theta params_in = Ok model ->
  fst (_ln_prior priors model) = Ok lnp -> isfinite lnp = true ->
  fst (_ln_probability priors self theta params_in)
  = bind (fst (_ln_likelihood self model)) (fun lnl => Ok (fadd lnp lnl))
  /\ snd (_ln_probability priors self theta params_in)
     = snd (_ln_prior priors model) ++ [EvLikelihood; EvMakeModel].
Proof.
  intros Hpop Hprior Hfin.
  unfold _ln_probability, tbind, lift. rewrite Hpop. cbn [fst snd].
  rewrite Hprior. cbn [fst snd]. rewrite Hfin. cbn [fst snd app].
  pose proof (ln_likelihood_trace model) as Htrace.
  destruct (_ln_likelihood self model) as [[lnl | e] t];
    cbn [fst snd] in *; subst t; cbn [fst snd tret bind app];
    now rewrite ?app_nil_r.
Qed.

Lemma ln_probability_rejected (theta : list float) (params_in model : dict)
    (lnp : float) :
  _populate_dictionary theta params_in = Ok model ->
  fst (_ln_prior priors model) = Ok lnp -> isfinite lnp = false ->
  fst (_ln_probability priors self theta params_in) = Ok NInf
  /\ snd (_ln_probability priors self theta params_in)
     = snd (_ln_prior priors model)
  /\ forallb is_prior_event (snd (_ln_probability priors self theta params_in))
     = true.
Proof.
  intros Hpop Hprior Hfin.
  unfold _ln_probability, tbind, lift. rewrite Hpop. cbn [fst snd].
  rewrite Hprior. cbn [fst snd]. rewrite Hfin. cbn [fst snd tret app].
  rewrite app_nil_r.
  split; [reflexivity |]. split; [reflexivity |].
  apply ln_prior_trace.
Qed.

(** C5.  The log-probability is the log-prior plus the log-likelihood when
    the log-prior is finite, the likelihood and its model being called
    after the priors; when the log-prior is minus infinity it is minus
    infinity, and only priors have been called: neither the likelihood nor
    the model.  The log-prior returns minus infinity at the first term that
    is minus infinity, without calling the priors of the keys after it; and
    it is minus infinity whenever one term is, the terms being
    log-densities. *)
Theorem ln_probability_spec (theta : list float) (params_in model : dict) :
  _populate_dictionary theta params_in = Ok model ->
  (forall lnp,
      fst (_ln_prior priors model) = Ok lnp -> isfinite lnp = true ->
      fst (_ln_probability priors self theta params_in)
      = bind (fst (_ln_likelihood self model))
          (fun lnl => Ok (fadd lnp lnl))
      /\ snd (_ln_probability priors self theta params_in)
         = snd (_ln_prior priors model) ++ [EvLikelihood; EvMakeModel])
  /\ (fst (_ln_prior priors model) = Ok NInf ->
      fst (_ln_probability priors self theta params_in) = Ok NInf
      /\ snd (_ln_probability priors self theta params_in)
         = snd (_ln_prior priors model)
      /\ forallb is_prior_event
           (snd (_ln_probability priors self theta params_in)) = true)
  /\ (forall before key v after f,
        model = before ++ (key, v) :: after ->
        all_finite_terms priors before ->
        registry_get priors key = Some f ->
        eval_prior f v = Ok NInf ->
        _ln_prior priors model
        = (Ok NInf, prior_calls priors before ++ [EvPrior key]))
  /\ (proper_terms priors model ->
      forall key v f,
        In (key, v) model ->
        registry_get priors key = Some f ->
        eval_prior f v = Ok NInf ->
        fst (_ln_prior priors model) = Ok NInf).
Proof.
  intros Hpop. split; [| split; [| split]].
  - intros lnp Hprior Hfin.
    now apply (ln_probability_finite_prior theta params_in model lnp).
  - intros Hprior.
    now apply (ln_probability_rejected theta params_in model NInf).
  - intros before key v after f -> Hfin Hreg Hterm.
    now apply (ln_prior_short_circuit before after key v f).
  - intros Hproper key v f Hin Hreg Hterm.
    now apply (ln_prior_loop_rejects_proper model 0 key v f).
Qed.

(** C10.  The log-prior goes through every key of the populated
    dictionary that has a registered prior, whether its value was drawn
    from [theta] or fixed: when all terms are finite it is their sum.  So
    a parameter fixed outside the support of its prior makes the
    log-probability minus infinity for every [theta]. *)
Theorem fixed_parameter_outside_prior (theta : list float)
    (params_in model : dict) :
  _populate_dictionary theta params_in = Ok model ->
  (all_finite_terms priors model ->
   _ln_prior priors model
   = (Ok (Fin (0 + finite_terms_sum priors model)), prior_calls priors model))
  /\ (forall key x f,
        In (key, VFloat x) params_in ->
        registry_get priors key = Some f ->
        eval_prior f (VFloat x) = Ok NInf ->
        no_prior_errors priors model ->
        fst (_ln_probability priors self theta params_in) = Ok NInf).
Proof.
  intros Hpop. split.
  - apply ln_prior_all_finite.
  - intros key x f Hin Hreg Hterm Hok.
    assert (Hin' : In (key, VFloat x) model)
      by now apply (populate_keeps_fixed theta params_in).
    destruct (ln_prior_loop_rejects model 0 key (VFloat x) f Hin' Hreg Hterm
                Hok)
      as [lnp [Hprior Hnf]].
    now apply (ln_probability_rejected theta params_in model lnp).
Qed.

End PosteriorProperties.

Lemma default_priors_set :
  _set_default_priors example_map [] = Ok default_priors.
Proof. vm_compute. reflexivity. Qed.

Lemma default_prior_x0 :
  registry_get default_priors "x0" = Some (FlatPrior [Fin (-2); Fin 2]).
Proof. vm_compute. reflexivity. Qed.

Lemma default_prior_inc :
  registry_get default_priors "inc" = Some (FlatPrior [Fin (-90); Fin 90]).
Proof. vm_compute. reflexivity. Qed.

Lemma flat_prior_returns (a b : R) (p : float) :
  returns (eval_prior (FlatPrior [Fin a; Fin b]) (VFloat p)).
Proof.
  unfold returns, eval_prior. cbn.
  destruct (flt (Fin b) (Fin a)), (fgt (Fin b) (Fin a));
    match goal with
    | |- context [fle ?x p] => destruct (fle x p)
    end; cbn; eauto;
    match goal with
    | |- context [fle p ?x] => destruct (fle p x)
    end; cbn; eauto.
Qed.

Lemma x0_outside_default_prior :
  eval_prior (FlatPrior [Fin (-2); Fin 2]) (VFloat (Fin 3)) = Ok NInf.
Proof.
  apply eval_flat_outside; [lra |].
  right. unfold fgt, flt. apply Rltb_true. lra.
Qed.

Lemma accepted_terms_finite : all_finite_terms default_priors accepted_model.
Proof.
  intros key v f [H | [H | []]] Hreg; injection H as <- <-.
  - rewrite default_prior_x0 in Hreg. injection Hreg as <-.
    eexists. apply eval_flat_inside; lra.
  - rewrite default_prior_inc in Hreg. injection Hreg as <-.
    eexists. apply eval_flat_inside; lra.
Qed.

Lemma rejected_no_errors : no_prior_errors default_priors rejected_model.
Proof.
  intros key v f [H | [H | []]] Hreg; injection H as <- <-.
  - rewrite default_prior_x0 in Hreg. injection Hreg as <-.
    apply flat_prior_returns.
  - rewrite default_prior_inc in Hreg. injection Hreg as <-.
    apply flat_prior_returns.
Qed.

Lemma ln_probability_spec_witness :
  _populate_dictionary [Fin 30] rejected_params = Ok rejected_model
  /\ _ln_prior default_priors rejected_model = (Ok NInf, [EvPrior "x0"])
  /\ fst (_ln_probability default_priors example_map [Fin 30] rejected_params)
     = Ok NInf
  /\ forallb is_prior_event
       (snd (_ln_probability default_priors example_map [Fin 30]
               rejected_params)) = true
  /\ exists lnp,
       fst (_ln_prior default_priors accepted_model) = Ok lnp
       /\ isfinite lnp = true
       /\ fst (_ln_probability default_priors example_map [Fin 30]
                 accepted_params)
          = bind (fst (_ln_likelihood example_map accepted_model))
              (fun lnl => Ok (fadd lnp lnl)).
Proof.
  assert (Hpop : _populate_dictionary [Fin 30] rejected_params
                 = Ok rejected_model) by reflexivity.
  assert (Hpop' : _populate_dictionary [Fin 30] accepted_params
                  = Ok accepted_model) by reflexivity.
  pose proof (ln_probability_spec default_priors example_map [Fin 30]
                rejected_params rejected_model Hpop) as [_ [Hrej [Hshort _]]].
  pose proof (ln_probability_spec default_priors example_map [Fin 30]
                accepted_params accepted_model Hpop') as [Hacc _].
  assert (Hprior : _ln_prior default_priors rejected_model
                   = (Ok NInf, [EvPrior "x0"])).
  { apply (Hshort [] "x0"%string (VFloat (Fin 3))
             [("inc"%string, VFloat (Fin 30))] (FlatPrior [Fin (-2); Fin 2])).
    - reflexivity.
    - intros key v f [].
    - exact default_prior_x0.
    - exact x0_outside_default_prior. }
  assert (Hfst : fst (_ln_prior default_priors rejected_model) = Ok NInf)
    by (rewrite Hprior; reflexivity).
  destruct (Hrej Hfst) as [Hval [_ Htrace]].
  split; [exact Hpop |]. split; [exact Hprior |].
  split; [exact Hval |]. split; [exact Htrace |].
  exists (Fin (0 + finite_terms_sum default_priors accepted_model)).
  assert (Hfin : fst (_ln_prior default_priors accepted_model)
                 = Ok (Fin (0 + finite_terms_sum default_priors
                                  accepted_model))).
  { rewrite (ln_prior_all_finite default_priors accepted_model
               accepted_terms_finite). reflexivity. }
  split; [exact Hfin |]. split; [reflexivity |].
  exact (proj1 (Hacc _ Hfin eq_refl)).
Defined.

Lemma fixed_parameter_outside_prior_witness :
  _populate_dictionary [Fin 30] rejected_params = Ok rejected_model
  /\ In ("x0"%string, VFloat (Fin 3)) rejected_params
  /\ registry_get default_priors "x0" = Some (FlatPrior [Fin (-2); Fin 2])
  /\ eval_prior (FlatPrior [Fin (-2); Fin 2]) (VFloat (Fin 3)) = Ok NInf
  /\ no_prior_errors default_priors rejected_model
  /\ fst (_ln_probability default_priors example_map [Fin 30] rejected_params)
     = Ok NInf
  /\ all_finite_terms default_priors accepted_model
  /\ _ln_prior default_priors accepted_model
     = (Ok (Fin (0 + finite_terms_sum default_priors accepted_model)),
        prior_calls default_priors accepted_model).
Proof.
  assert (Hpop : _populate_dictionary [Fin 30] rejected_params
                 = Ok rejected_model) by reflexivity.
  assert (Hpop' : _populate_dictionary [Fin 30] accepted_params
                  = Ok accepted_model) by reflexivity.
  assert (Hin : In ("x0"%string, VFloat (Fin 3)) rejected_params)
    by (left; reflexivity).
  split; [exact Hpop |]. split; [exact Hin |].
  split; [exact default_prior_x0 |].
  split; [exact x0_outside_default_prior |].
  split; [exact rejected_no_errors |].
  split.
  - exact (proj2 (fixed_parameter_outside_prior default_priors example_map
                    [Fin 30] rejected_params rejected_model Hpop)
             "x0"%string (Fin 3) (FlatPrior [Fin (-2); Fin 2]) Hin
             default_prior_x0 x0_outside_default_prior rejected_no_errors).
  - split; [exact accepted_terms_finite |].
    exact (proj1 (fixed_parameter_outside_prior default_priors example_map
                    [Fin 30] accepted_params accepted_model Hpop')
             accepted_terms_finite).
Defined.

(** * Further properties *)

(** ** Geometry of the deprojection *)

Section Geometry.

Import dp.

Lemma radians_pos : 0 < PI / 180.
Proof. assert (H := PI_RGT_0). lra. Qed.

(** X1.  Two applications of [rotate_coords], the second with another angle,
    turn the point anticlockwise by the difference of the angles. *)
Theorem rotate_coords_compose (x y PA1 PA2 : R) :
  rotate_coords (fst (rotate_coords (Fin x) (Fin y) (Fin PA1)))
                (snd (rotate_coords (Fin x) (Fin y) (Fin PA1))) (Fin PA2)
  = (Fin (x * cos ((PA1 - PA2) * (PI / 180))
          - y * sin ((PA1 - PA2) * (PI / 180))),
     Fin (x * sin ((PA1 - PA2) * (PI / 180))
          + y * cos ((PA1 - PA2) * (PI / 180)))).
Proof.
  unfold rotate_coords, radians. cbn.
  replace ((PA1 - PA2) * (PI / 180))
    with (PA1 * (PI / 180) - PA2 * (PI / 180)) by lra.
  set (a := PA1 * (PI / 180)). set (b := PA2 * (PI / 180)).
  rewrite cos_minus, sin_minus.
  f_equal; f_equal; ring.
Qed.

(** X2.  [rotate_coords] keeps the distance between any two points. *)
Theorem rotate_coords_isometry (x1 y1 x2 y2 PA : R) :
  let p := rotate_coords (Fin x1) (Fin y1) (Fin PA) in
  let q := rotate_coords (Fin x2) (Fin y2) (Fin PA) in
  fhypot (fsub (fst p) (fst q)) (fsub (snd p) (snd q))
  = fhypot (fsub (Fin x1) (Fin x2)) (fsub (Fin y1) (Fin y2)).
Proof.
  unfold rotate_coords, radians. cbn.
  set (a := PA * (PI / 180)).
  assert (H := sin2_cos2 a). unfold Rsqr in H.
  do 2 f_equal.
  transitivity (((x1 - x2) * (x1 - x2) + (y1 - y2) * (y1 - y2))
                * (sin a * sin a + cos a * cos a));
    [ring | rewrite H; ring].
Qed.

(** The cosine of an inclination does not see its sign. *)
Lemma fcos_radians_fneg (inc : float) :
  fcos (radians (fneg inc)) = fcos (radians inc).
Proof.
  assert (Hc := radians_pos).
  destruct inc as [r | | |]; unfold radians; cbn;
    [| unfold signed_inf; now Rdecide .. | reflexivity].
  f_equal. replace (- r * (PI / 180)) with (- (r * (PI / 180))) by lra.
  apply cos_neg.
Qed.

(** X3.  The midplane coordinates of the pixels do not depend on the sign of
    the inclination. *)
Theorem midplane_inclination_sign (x0 y0 inc PA : float)
    (xaxis yaxis : array1) :
  get_midplane_cart_coords x0 y0 (fneg inc) PA xaxis yaxis
  = get_midplane_cart_coords x0 y0 inc PA xaxis yaxis.
Proof.
  unfold get_midplane_cart_coords, gmap.
  apply map_ext. intros row. apply map_ext. intros [x_rot y_rot].
  unfold deproject_coords. now rewrite fcos_radians_fneg.
Qed.

Lemma hypot_factor (x y : R) :
  x <> 0 ->
  0 < sqrt (1 + (y / x)²)
  /\ sqrt (x * x + y * y) = Rabs x * sqrt (1 + (y / x)²).
Proof.
  intros Hx.
  assert (Hu : 0 < 1 + (y / x)²).
  { assert (H := Rle_0_sqr (y / x)). lra. }
  split; [now apply sqrt_lt_R0 |].
  apply sqrt_lem_1.
  - assert (H1 := Rle_0_sqr x). assert (H2 := Rle_0_sqr y).
    unfold Rsqr in *. lra.
  - apply Rmult_le_pos; [apply Rabs_pos | apply sqrt_pos].
  - transitivity ((Rabs x * Rabs x)
                  * (sqrt (1 + (y / x)²) * sqrt (1 + (y / x)²)));
      [ring |].
    rewrite sqrt_sqrt by lra.
    replace (Rabs x * Rabs x) with (x * x).
    + unfold Rsqr. field. exact Hx.
    + rewrite <- Rabs_mult. symmetry. apply Rabs_pos_eq.
      apply Rle_0_sqr.
Qed.

Lemma Ratan2_polar (x y : R) :
  sqrt (x * x + y * y) * cos (Ratan2 y x) = x
  /\ sqrt (x * x + y * y) * sin (Ratan2 y x) = y.
Proof.
  unfold Ratan2, Rltb.
  destruct (Rlt_dec 0 x) as [Hpos | Hnpos].
  - destruct (hypot_factor x y) as [Hs ->]; [lra |].
    rewrite Rabs_pos_eq by lra.
    rewrite cos_atan, sin_atan. split; field; lra.
  - destruct (Rlt_dec x 0) as [Hneg | Hnneg].
    + destruct (hypot_factor x y) as [Hs ->]; [lra |].
      rewrite Rabs_left by lra.
      destruct (Rlt_dec y 0).
      * rewrite cos_minus, sin_minus, cos_PI, sin_PI, cos_atan, sin_atan.
        split; field; lra.
      * rewrite cos_plus, sin_plus, cos_PI, sin_PI, cos_atan, sin_atan.
        split; field; lra.
    + assert (x = 0) by lra. subst x.
      replace (0 * 0 + y * y) with (y * y) by ring.
      destruct (Rlt_dec 0 y).
      * rewrite sqrt_square by lra. rewrite cos_PI2, sin_PI2. lra.
      * destruct (Rlt_dec y 0).
        -- replace (y * y) with ((- y) * (- y)) by ring.
           rewrite sqrt_square by lra.
           rewrite cos_neg, sin_neg, cos_PI2, sin_PI2. lra.
        -- assert (y = 0) by lra. subst y.
           rewrite Rmult_0_l, sqrt_0. lra.
Qed.

(** X4.  The radius and azimuth of [get_r_t] give the point back: in the
    cartesian frame a pixel is where its disk-frame coordinates say. *)
Theorem get_r_t_round_trip (x y : R) :
  let r := fst (get_r_t (Fin x) (Fin y)) in
  let t := snd (get_r_t (Fin x) (Fin y)) in
  (fmul r (fcos t), fmul r (fsin t)) = (Fin x, Fin y).
Proof.
  cbn. destruct (Ratan2_polar x y) as [-> ->]. reflexivity.
Qed.

Lemma Ratan2_range (y x : R) : - PI <= Ratan2 y x <= PI.
Proof.
  assert (Hpi := PI_RGT_0). assert (Hb := atan_bound (y / x)).
  unfold Ratan2, Rltb.
  destruct (Rlt_dec 0 x); [lra |].
  destruct (Rlt_dec x 0) as [Hx |].
  - destruct (Rlt_dec y 0) as [Hy | Hy].
    + assert (H0 : 0 < y / x).
      { replace (y / x) with ((- y) * / (- x)) by (field; lra).
        apply Rmult_lt_0_compat; [lra |]. apply Rinv_0_lt_compat. lra. }
      apply atan_increasing in H0. rewrite atan_0 in H0. lra.
    + assert (H0 : y / x <= 0).
      { replace (y / x) with (- (y * / (- x))) by (field; lra).
        assert (0 <= y * / (- x)); [| lra].
        apply Rmult_le_pos; [lra |]. left. apply Rinv_0_lt_compat. lra. }
      destruct H0 as [H0 | H0].
      * apply atan_increasing in H0. rewrite atan_0 in H0. lra.
      * rewrite H0, atan_0. lra.
  - destruct (Rlt_dec 0 y); [lra |]. destruct (Rlt_dec y 0); lra.
Qed.

Lemma farctan2_is_azimuth (y x : float) : is_azimuth (farctan2 y x).
Proof.
  assert (Hpi := PI_RGT_0).
  destruct y as [a | | |], x as [b | | |]; cbn; try exact I; try lra.
  - apply Ratan2_range.
  - destruct (Rltb a 0); cbn; lra.
Qed.

Lemma fhypot_not_negative (x y : float) : not_negative (fhypot x y).
Proof.
  destruct x as [a | | |], y as [b | | |]; cbn; try exact I.
  apply sqrt_pos.
Qed.

Lemma z_func_not_negative (r_in z0 r_cavity r_taper psi q_taper : float) :
  not_negative (z_func r_in z0 r_cavity r_taper psi q_taper).
Proof.
  unfold z_func. cbv zeta.
  set (z := fmul _ _). clearbody z.
  destruct z as [z | | |]; cbn; try exact I; try lra.
  unfold Rleb. destruct (Rle_dec z 0); cbn; lra.
Qed.

Lemma flared_loop_ranges (niter : nat)
    (x_mid y_mid inc z0 r_cavity r_taper psi q_taper w_r w_i w_t : float)
    (r_tmp t_tmp : float) :
  not_negative r_tmp -> is_azimuth t_tmp ->
  not_negative
    (fst (flared_loop niter x_mid y_mid inc z0 r_cavity r_taper psi q_taper
            w_r w_i w_t r_tmp t_tmp))
  /\ is_azimuth
       (snd (flared_loop niter x_mid y_mid inc z0 r_cavity r_taper psi
               q_taper w_r w_i w_t r_tmp t_tmp)).
Proof.
  revert r_tmp t_tmp. induction niter as [| n IH]; intros r_tmp t_tmp Hr Ht.
  - now split.
  - cbn [flared_loop]. cbv zeta.
    apply IH; [apply fhypot_not_negative | apply farctan2_is_azimuth].
Qed.

(** X5.  Whatever the parameters and the number of iterations, the solver
    returns a radius and a height that are not negative and an azimuth between
    minus pi and pi (each can also be not a number, and the radius and the
    height infinite). *)
Theorem flared_coords_ranges
    (x_mid y_mid inc z0 r_cavity r_taper psi q_taper w_r w_i w_t : float)
    (niter : nat) :
  let coords := _get_flared_coords x_mid y_mid inc z0 r_cavity r_taper psi
                  q_taper w_r w_i w_t niter in
  not_negative (fst (fst coords))
  /\ is_azimuth (snd (fst coords))
  /\ not_negative (snd coords).
Proof.
  cbv zeta. unfold _get_flared_coords.
  destruct (flared_loop_ranges niter x_mid y_mid inc z0 r_cavity r_taper psi
              q_taper w_r w_i w_t (fhypot x_mid y_mid)
              (farctan2 y_mid x_mid)
              (fhypot_not_negative _ _) (farctan2_is_azimuth _ _))
    as [Hr Ht].
  destruct (flared_loop _ _ _ _ _ _ _ _ _ _ _ _ _ _) as [r t].
  cbn [fst snd] in *.
  split; [exact Hr |]. split; [exact Ht |]. apply z_func_not_negative.
Qed.

Lemma fmaximum_0_of_nonpos (a : R) : a <= 0 -> fmaximum (Fin a) (Fin 0) = Fin 0.
Proof. intros H. cbn. now rewrite Rleb_true. Qed.

Lemma fmaximum_0_of_pos (a : R) : 0 <= a -> fmaximum (Fin a) (Fin 0) = Fin a.
Proof.
  intros H. cbn. unfold Rleb. destruct (Rle_dec a 0); [| reflexivity].
  f_equal. lra.
Qed.

(** X6.  Inside the cavity, and for a positive flaring exponent, the emission
    surface is the midplane: the height and the warp are zero. *)
Theorem surface_inside_cavity
    (r_in r_cavity z0 psi q_taper w_r w_i w_t t : R) (r_taper : float) :
  r_in <= r_cavity -> 0 < psi -> taper_radius_ok r_taper -> w_r <> 0 ->
  z_func (Fin r_in) (Fin z0) (Fin r_cavity) r_taper (Fin psi) (Fin q_taper)
  = Fin 0
  /\ w_func (Fin r_in) (Fin t) (Fin r_cavity) (Fin w_r) (Fin w_i) (Fin w_t)
     = Fin 0.
Proof.
  intros Hr Hpsi Hrt Hw. split.
  - unfold z_func. cbv zeta.
    change (fsub (Fin r_in) (Fin r_cavity)) with (Fin (r_in + - r_cavity)).
    rewrite fmaximum_0_of_nonpos by lra.
    assert (Hp : fpower (Fin 0) (Fin psi) = Fin 0).
    { unfold fpower. rewrite Reqb_false by lra.
      rewrite Rltb_false by lra. rewrite Reqb_true by reflexivity.
      now rewrite Rltb_true. }
    rewrite Hp.
    assert (Hu : fdiv (Fin 0) r_taper = Fin 0).
    { destruct Hrt as [-> | [rt [-> Hrt]]]; [reflexivity |].
      cbn. rewrite Reqb_false by lra. f_equal. field. lra. }
    rewrite Hu.
    assert (He : exists e, fexp (fneg (fpower (Fin 0) (Fin q_taper))) = Fin e).
    { unfold fpower. destruct (Reqb q_taper 0); [cbn; eauto |].
      rewrite Rltb_false by lra. rewrite Reqb_true by reflexivity.
      destruct (Rltb 0 q_taper); cbn; eauto. }
    destruct He as [e ->].
    cbn. rewrite Rleb_true by lra. reflexivity.
  - unfold w_func, radians. cbv zeta. rewrite fpower_2.
    change (fsub (Fin r_in) (Fin r_cavity)) with (Fin (r_in + - r_cavity)).
    rewrite fmaximum_0_of_nonpos by lra.
    cbn. rewrite Reqb_false by assumption. cbn. f_equal. ring.
Qed.

(** X7.  Outside the cavity and for a height scale that is not negative, the
    height is the tapered power law of the cavity-shifted radius, and the
    plain power law when the taper radius is infinite. *)
Theorem z_func_tapered_power_law (r_in r_cavity z0 psi q_taper r_taper : R) :
  r_cavity < r_in -> 0 <= z0 -> 0 < q_taper -> 0 < r_taper ->
  z_func (Fin r_in) (Fin z0) (Fin r_cavity) (Fin r_taper) (Fin psi)
    (Fin q_taper)
  = Fin (z0 * Rpower (r_in - r_cavity) psi
         * exp (- Rpower ((r_in - r_cavity) / r_taper) q_taper))
  /\ z_func (Fin r_in) (Fin z0) (Fin r_cavity) PInf (Fin psi) (Fin q_taper)
     = Fin (z0 * Rpower (r_in - r_cavity) psi).
Proof.
  intros Hr Hz Hq Hrt.
  assert (Hpow : fpower (Fin (r_in - r_cavity)) (Fin psi)
                 = Fin (Rpower (r_in - r_cavity) psi)).
  { unfold fpower. unfold Reqb. destruct (Req_dec_T psi 0) as [-> | _].
    - now rewrite Rpower_O by lra.
    - now rewrite Rltb_true by lra. }
  assert (Hp : 0 < Rpower (r_in - r_cavity) psi)
    by (unfold Rpower; apply exp_pos).
  split.
  - unfold z_func. cbv zeta.
    change (fsub (Fin r_in) (Fin r_cavity)) with (Fin (r_in + - r_cavity)).
    rewrite fmaximum_0_of_pos by lra.
    replace (r_in + - r_cavity) with (r_in - r_cavity) by lra.
    rewrite Hpow.
    cbn [fdiv]. rewrite Reqb_false by lra.
    assert (Hu : 0 < (r_in - r_cavity) / r_taper).
    { apply Rdiv_lt_0_compat; lra. }
    unfold fpower. rewrite Reqb_false by lra. rewrite Rltb_true by exact Hu.
    cbn [fneg fexp fmul].
    apply fmaximum_0_of_pos.
    apply Rmult_le_pos; [apply Rmult_le_pos; lra |].
    left. apply exp_pos.
  - unfold z_func. cbv zeta.
    change (fsub (Fin r_in) (Fin r_cavity)) with (Fin (r_in + - r_cavity)).
    rewrite fmaximum_0_of_pos by lra.
    replace (r_in + - r_cavity) with (r_in - r_cavity) by lra.
    rewrite Hpow.
    cbn [fdiv].
    unfold fpower. rewrite Reqb_false by lra.
    rewrite Rltb_false by lra. rewrite Reqb_true by reflexivity.
    rewrite Rltb_true by lra.
    cbn [fneg fexp fmul].
    replace (z0 * Rpower (r_in - r_cavity) psi * exp (- 0))
      with (z0 * Rpower (r_in - r_cavity) psi)
      by (rewrite Ropp_0, exp_0; ring).
    apply fmaximum_0_of_pos.
    apply Rmult_le_pos; lra.
Qed.

End Geometry.

(** ** The velocity models *)

Section Velocity.

Import models.

Lemma Rpower_m3 (x : R) : 0 < x -> Rpower x (-3) = / (x * x * x).
Proof.
  intros Hx. replace (-3) with (- INR 3) by (simpl; lra).
  rewrite Rpower_Ropp. f_equal.
  rewrite Rpower_pow by assumption. simpl. ring.
Qed.

(** X8.  In the midplane [proj_vkep] is Kepler's law, projected. *)
Theorem proj_vkep_midplane (r t dist mstar inc : R) :
  0 < r -> 0 < dist -> 0 <= mstar ->
  proj_vkep (Fin r) (Fin t) (Fin 0) (Fin dist) (Fin mstar) (Fin inc)
  = Fin (sqrt (6.6743e-11 * mstar * 1.988e30 / (r * 149597870700 * dist))
         * cos t * Rabs (sin (inc * (PI / 180)))).
Proof.
  intros Hr Hd Hm. unfold proj_vkep, proj_vphi, au, G, msun, radians.
  cbv zeta. rewrite fpower_2.
  cbn [fmul fsqr fhypot].
  set (R0 := r * 149597870700 * dist).
  assert (HR0 : 0 < R0).
  { unfold R0. apply Rmult_lt_0_compat; [| assumption].
    apply Rmult_lt_0_compat; lra. }
  replace (R0 * R0 + 0 * 149597870700 * dist * (0 * 149597870700 * dist))
    with (R0 * R0) by ring.
  rewrite sqrt_square by lra.
  unfold fpower. rewrite Reqb_false by lra. rewrite Rltb_true by assumption.
  rewrite Rpower_m3 by assumption.
  cbn [fmul fsqrt].
  assert (Hv : 6.6743e-11 * mstar * 1.988e30 * (R0 * R0) * / (R0 * R0 * R0)
               = 6.6743e-11 * mstar * 1.988e30 / R0).
  { field. lra. }
  rewrite Hv.
  assert (Hnn : 0 <= 6.6743e-11 * mstar * 1.988e30 / R0).
  { apply Rmult_le_pos.
    - apply Rmult_le_pos; [apply Rmult_le_pos |]; lra.
    - left. now apply Rinv_0_lt_compat. }
  rewrite Rltb_false by lra.
  reflexivity.
Qed.

Lemma unit_product (a b : R) : Rabs a <= 1 -> Rabs b <= 1 -> Rabs (a * b) <= 1.
Proof.
  intros Ha Hb. rewrite Rabs_mult.
  assert (H0 := Rabs_pos a). assert (H1 := Rabs_pos b). nra.
Qed.

Lemma Rabs_cos_le_1 (x : R) : Rabs (cos x) <= 1.
Proof. apply Rabs_le. assert (H := COS_bound x). lra. Qed.

Lemma Rabs_sin_le_1 (x : R) : Rabs (sin x) <= 1.
Proof. apply Rabs_le. assert (H := SIN_bound x). lra. Qed.

(** X9.  The projected speeds never exceed the speed itself, and a face-on
    disk has none. *)
Theorem projection_bounded (v t inc : R) :
  (exists p, proj_vphi (Fin v) (Fin t) (Fin inc) = Fin p /\ Rabs p <= Rabs v)
  /\ (exists p, proj_vrad (Fin v) (Fin t) (Fin inc) = Fin p
                /\ Rabs p <= Rabs v)
  /\ proj_vphi (Fin v) (Fin t) (Fin 0) = Fin 0
  /\ proj_vrad (Fin v) (Fin t) (Fin 0) = Fin 0.
Proof.
  unfold proj_vphi, proj_vrad, radians. cbn.
  assert (Hs := Rabs_sin_le_1 (inc * (PI / 180))).
  assert (Hs' : Rabs (Rabs (sin (inc * (PI / 180)))) <= 1)
    by now rewrite Rabs_Rabsolu.
  repeat split.
  - eexists. split; [reflexivity |].
    rewrite Rmult_assoc, Rabs_mult.
    assert (H := unit_product _ _ (Rabs_cos_le_1 t) Hs').
    assert (H0 := Rabs_pos v). nra.
  - eexists. split; [reflexivity |].
    rewrite Rmult_assoc, Rabs_mult.
    assert (H := unit_product _ _ (Rabs_sin_le_1 t) Hs').
    assert (H0 := Rabs_pos v). nra.
  - f_equal. rewrite Rmult_0_l, sin_0, Rabs_R0. ring.
  - f_equal. rewrite Rmult_0_l, sin_0, Rabs_R0. ring.
Qed.

Lemma fabs_fsin_radians_fneg (inc : float) :
  fabs (fsin (radians (fneg inc))) = fabs (fsin (radians inc)).
Proof.
  assert (Hc := radians_pos).
  destruct inc as [r | | |]; unfold radians; cbn;
    [| unfold signed_inf; now Rdecide .. | reflexivity].
  f_equal. replace (- r * (PI / 180)) with (- (r * (PI / 180))) by lra.
  rewrite sin_neg. apply Rabs_Ropp.
Qed.

(** X10.  The Keplerian line-of-sight velocity does not depend on the sign of
    the inclination. *)
Theorem proj_vkep_inclination_sign (rvals tvals zvals dist mstar inc : float) :
  proj_vkep rvals tvals zvals dist mstar (fneg inc)
  = proj_vkep rvals tvals zvals dist mstar inc.
Proof.
  unfold proj_vkep, proj_vphi. cbv zeta.
  now rewrite fabs_fsin_radians_fneg.
Qed.

End Velocity.

(** ** The range of the posterior *)

Section PosteriorRange.

Variable priors : registry.
Variable self : rotationmap.

Lemma fold_fadd_not_finite (l : list float) (acc : float) :
  isfinite acc = false -> isfinite (fold_left fadd l acc) = false.
Proof.
  revert acc. induction l as [| x l IH]; intros acc Hacc; simpl.
  - exact Hacc.
  - apply IH. destruct acc, x; simpl in *; congruence.
Qed.

Lemma fold_fadd_nonneg (l : list float) (acc a : R) :
  Forall not_negative l -> 0 <= acc ->
  fold_left fadd l (Fin acc) = Fin a -> 0 <= a.
Proof.
  revert acc. induction l as [| x l IH]; intros acc Hl Hacc Hsum; simpl in *.
  - injection Hsum as <-. exact Hacc.
  - inversion Hl as [| x' l' Hx Hl']; subst.
    destruct x as [r | | |].
    + apply (IH (acc + r)); [assumption | simpl in Hx; lra | exact Hsum].
    + assert (H := fold_fadd_not_finite l PInf eq_refl).
      rewrite Hsum in H. discriminate H.
    + contradiction.
    + assert (H := fold_fadd_not_finite l NaN eq_refl).
      rewrite Hsum in H. discriminate H.
Qed.

Lemma fsqr_not_negative (d : float) : not_negative (fpower d (Fin 2)).
Proof.
  rewrite fpower_2. destruct d as [r | | |]; simpl; try exact I.
  apply Rle_0_sqr.
Qed.

Lemma Forall_zip_with {A B C : Type} (f : A -> B -> C) (P : C -> Prop)
    (a : list A) (b : list B) :
  (forall x y, In x a -> In y b -> P (f x y)) -> Forall P (zip_with f a b).
Proof.
  revert b. induction a as [| x a IH]; intros [| y b] H; simpl;
    try constructor.
  - apply H; now left.
  - apply IH. intros x' y' Hx Hy. apply H; now right.
Qed.

Lemma Forall_concat_map2_rows {A B C : Type} (f : A -> B -> C)
    (P : C -> Prop) (a : grid A) (b : grid B) :
  (forall x y, In y (concat b) -> P (f x y)) ->
  Forall P (concat (map2_rows f a b)).
Proof.
  unfold map2_rows. revert b.
  induction a as [| ra a IH]; intros [| rb b] H; simpl; try constructor.
  apply Forall_app. split.
  - apply Forall_zip_with. intros x y _ Hy. apply H. simpl.
    apply in_or_app. now left.
  - apply IH. intros x y Hy. apply H. simpl. apply in_or_app. now right.
Qed.

Lemma np_zip_Ok {A B C : Type} (f : A -> B -> C) (a : grid A) (b : grid B)
    (c : grid C) :
  np_zip f a b = Ok c -> c = map2_rows f a b.
Proof.
  unfold np_zip. destruct (same_shape a b); [| discriminate].
  intros H. now apply Ok_inj in H.
Qed.

(** The log-likelihood is minus infinity or a finite number that is not
    positive. *)
Lemma ln_likelihood_range (params : dict) (lnl : float) :
  fst (_ln_likelihood self params) = Ok lnl ->
  lnl = NInf \/ exists r, lnl = Fin r /\ r <= 0.
Proof.
  unfold _ln_likelihood, tbind, call, lift, tret. cbn [fst snd].
  destruct (_make_model self params) as [model | e]; cbn [fst snd];
    [| discriminate].
  destruct (np_zip fsub (data self) _) as [diff | e] eqn:Ediff;
    cbn [fst snd]; [| discriminate].
  destruct (np_zip _ (mask self) _) as [lnx2 | e] eqn:Esq;
    cbn [fst snd]; [| discriminate].
  intros H. apply Ok_inj in H. subst lnl.
  apply np_zip_Ok in Esq.
  assert (Hall : Forall not_negative (concat lnx2)).
  { subst lnx2. apply Forall_concat_map2_rows.
    intros m v Hv. destruct m; [| simpl; lra].
    unfold gmap in Hv. rewrite <- flat_map_concat_map in Hv.
    apply in_flat_map in Hv as [row [_ Hv]].
    apply in_map_iff in Hv as [d [<- _]]. apply fsqr_not_negative. }
  unfold np_sum.
  destruct (fold_left fadd (concat lnx2) (Fin 0)) as [a | | |] eqn:Esum;
    cbn; auto;
    try (unfold signed_inf; Rdecide; cbn; now left).
  right. eexists. split; [reflexivity |].
  assert (Ha := fold_fadd_nonneg _ 0 a Hall (Rle_refl 0) Esum). lra.
Qed.

(** X11.  The log-probability is minus infinity or a finite number, never
    not-a-number or plus infinity, and it is not above the log-prior. *)
Theorem ln_probability_range (theta : list float) (params_in : dict)
    (lnP : float) :
  fst (_ln_probability priors self theta params_in) = Ok lnP ->
  lnP = NInf
  \/ exists model lnp r,
       _populate_dictionary theta params_in = Ok model
       /\ fst (_ln_prior priors model) = Ok (Fin lnp)
       /\ lnP = Fin r /\ r <= lnp.
Proof.
  unfold _ln_probability, tbind, lift. cbn [fst snd].
  destruct (_populate_dictionary theta params_in) as [model | e];
    cbn [fst snd]; [| discriminate].
  destruct (fst (_ln_prior priors model)) as [lnp | e] eqn:Eprior;
    cbn [fst snd]; [| discriminate].
  destruct lnp as [a | | |]; cbn [isfinite fst snd tret];
    try (intros H; apply Ok_inj in H; now left).
  destruct (fst (_ln_likelihood self model)) as [lnl | e] eqn:Elik;
    cbn [fst snd]; [| discriminate].
  intros H. apply Ok_inj in H. subst lnP.
  destruct (ln_likelihood_range model lnl Elik) as [-> | [r [-> Hr]]].
  - now left.
  - right. exists model, a, (a + r).
    split; [reflexivity |]. split; [exact Eprior |].
    split; [reflexivity | lra].
Qed.

End PosteriorRange.

(** ** Populating the dictionary *)

Section Populate.

Lemma np_index_returns (theta : list float) (n : Z) :
  returns (np_index theta n)
  <-> (- Z.of_nat (length theta) <= n < Z.of_nat (length theta))%Z.
Proof.
  unfold np_index, returns.
  set (len := Z.of_nat (length theta)).
  destruct (n <? 0)%Z eqn:En.
  - apply Z.ltb_lt in En.
    destruct ((n + len <? 0)%Z || (len <=? n + len)%Z) eqn:Eb.
    + split; [intros [a H]; discriminate H |].
      intros H. apply orb_true_iff in Eb as [Eb | Eb].
      * apply Z.ltb_lt in Eb. lia.
      * apply Z.leb_le in Eb. lia.
    + apply orb_false_iff in Eb as [E1 E2].
      apply Z.ltb_ge in E1. apply Z.leb_gt in E2.
      split; [intros _; lia |]. intros _.
      destruct (nth_error theta (Z.to_nat (n + len))) as [x |] eqn:Ex;
        [now exists x |].
      apply nth_error_None in Ex. unfold len in *. lia.
  - apply Z.ltb_ge in En.
    destruct ((n <? 0)%Z || (len <=? n)%Z) eqn:Eb.
    + split; [intros [a H]; discriminate H |].
      intros H. apply orb_true_iff in Eb as [Eb | Eb].
      * apply Z.ltb_lt in Eb. lia.
      * apply Z.leb_le in Eb. lia.
    + apply orb_false_iff in Eb as [E1 E2].
      apply Z.leb_gt in E2.
      split; [intros _; lia |]. intros _.
      destruct (nth_error theta (Z.to_nat n)) as [x |] eqn:Ex;
        [now exists x |].
      apply nth_error_None in Ex. unfold len in *. lia.
Qed.

(** X12.  [_populate_dictionary] returns exactly when every index is one of
    [theta], counted from the start or, when negative, from the end. *)
Theorem populate_dictionary_returns (theta : list float) (dictionary : dict) :
  returns (_populate_dictionary theta dictionary)
  <-> forall key n, In (key, VInt n) dictionary ->
        (- Z.of_nat (length theta) <= n < Z.of_nat (length theta))%Z.
Proof.
  induction dictionary as [| [k v] rest IH]; cbn [_populate_dictionary].
  - split; [intros _ key n [] | intros _; now exists []].
  - split.
    + intros [out Hout] key n Hin.
      apply bind_Ok_inv in Hout as [v' [Hv Hout]].
      apply bind_Ok_inv in Hout as [rest' [Hrest _]].
      destruct Hin as [Heq | Hin].
      * injection Heq as -> ->. apply np_index_returns.
        apply bind_Ok_inv in Hv as [x [Hx _]]. now exists x.
      * apply (proj1 IH (ex_intro _ rest' Hrest) key n Hin).
    + intros Hall.
      destruct (proj2 IH (fun key n Hin => Hall key n (or_intror Hin)))
        as [rest' Hrest].
      rewrite Hrest.
      destruct v as [| b | n | x | s | a]; cbn [bind]; try (now eexists).
      destruct (proj2 (np_index_returns theta n)
                  (Hall k n (or_introl eq_refl))) as [x Hx].
      rewrite Hx. cbn [bind]. now eexists.
Qed.

Lemma populate_entries (theta : list float) (dictionary out : dict) :
  _populate_dictionary theta dictionary = Ok out ->
  Forall2 (fun kv kv' => fst kv' = fst kv
                         /\ populated_value theta (snd kv) = Ok (snd kv'))
    dictionary out.
Proof.
  revert out. induction dictionary as [| [k v] rest IH]; intros out Hout;
    cbn [_populate_dictionary] in Hout.
  - apply Ok_inj in Hout. subst out. constructor.
  - apply bind_Ok_inv in Hout as [v' [Hv Hout]].
    apply bind_Ok_inv in Hout as [rest' [Hrest Hout]].
    apply Ok_inj in Hout. subst out.
    constructor; [| now apply IH].
    split; [reflexivity | exact Hv].
Qed.

(** X13.  What [_populate_dictionary] returns has the keys of the dictionary,
    in their order; an entry that held the index [n] holds [theta[n]], the
    other entries are kept, and no index is left: populating the result again,
    with any vector, changes nothing. *)
Theorem populate_dictionary_entries (theta : list float)
    (dictionary out : dict) :
  _populate_dictionary theta dictionary = Ok out ->
  map fst out = map fst dictionary
  /\ (forall key n, In (key, VInt n) dictionary ->
        exists x, np_index theta n = Ok x /\ In (key, VFloat x) out)
  /\ (forall key v, In (key, v) dictionary ->
        (forall n, v <> VInt n) -> In (key, v) out)
  /\ (forall key n, ~ In (key, VInt n) out)
  /\ (forall theta', _populate_dictionary theta' out = Ok out).
Proof.
  intros Hout. apply populate_entries in Hout.
  induction Hout as [| [k v] [k' v'] rest rest' [Hk Hv] Hrest IH].
  - split; [reflexivity |]. split; [intros ? ? [] |].
    split; [intros ? ? [] |]. split; [intros ? ? [] | reflexivity].
  - cbn [fst snd] in Hk, Hv. subst k'.
    destruct IH as [IHk [IHfree [IHfixed [IHnone IHagain]]]].
    split; [cbn; now rewrite IHk |].
    split; [| split; [| split]].
    + intros key n [Heq | Hin].
      * injection Heq as -> ->. cbn [populated_value] in Hv.
        apply bind_Ok_inv in Hv as [x [Hx Hv]].
        apply Ok_inj in Hv. subst v'. exists x. split; [exact Hx | now left].
      * destruct (IHfree key n Hin) as [x [Hx Hin']].
        exists x. split; [exact Hx | now right].
    + intros key w [Heq | Hin] Hw.
      * injection Heq as -> ->. left.
        destruct w; cbn [populated_value] in Hv;
          try (apply Ok_inj in Hv; now subst v').
        now contradiction (Hw n).
      * right. now apply IHfixed.
    + intros key n [Heq | Hin].
      * injection Heq as -> ->.
        destruct v; cbn [populated_value] in Hv;
          try (apply Ok_inj in Hv; discriminate Hv).
        apply bind_Ok_inv in Hv as [x [_ Hv]].
        apply Ok_inj in Hv. discriminate Hv.
      * now apply (IHnone key n).
    + intros theta'. cbn [_populate_dictionary]. rewrite IHagain.
      assert (Hv' : forall n, v' <> VInt n).
      { intros n ->.
        destruct v; cbn [populated_value] in Hv;
          try (apply Ok_inj in Hv; discriminate Hv).
        apply bind_Ok_inv in Hv as [x [_ Hv]].
        apply Ok_inj in Hv. discriminate Hv. }
      destruct v'; cbn [bind]; try reflexivity.
      now contradiction (Hv' n).
Qed.

End Populate.

(** ** Gaussian, reversed and default priors *)

Section MorePriors.

Local Open Scope string_scope.

Lemma registry_get_set_eq (priors : registry) (k k' : string) (f : prior) :
  registry_get (registry_set priors k f) k'
  = if String.eqb k k' then Some f else registry_get priors k'.
Proof.
  induction priors as [| [k0 f0] rest IH]; simpl.
  - reflexivity.
  - destruct (String.eqb k0 k) eqn:E0; simpl.
    + apply String.eqb_eq in E0. subst k0.
      now destruct (String.eqb k k').
    + destruct (String.eqb k0 k') eqn:E1.
      * apply String.eqb_eq in E1. subst k0.
        rewrite String.eqb_sym in E0. now rewrite E0.
      * exact IH.
Qed.


(** X15.  A flat prior registered with its bounds in decreasing order is never
    a finite number: not-a-number between the bounds, minus infinity outside. *)
Theorem flat_prior_reversed_bounds (a b p : R) :
  b < a ->
  (b <= p <= a ->
   eval_prior (FlatPrior [Fin a; Fin b]) (VFloat (Fin p)) = Ok NaN)
  /\ (p < b \/ a < p ->
      eval_prior (FlatPrior [Fin a; Fin b]) (VFloat (Fin p)) = Ok NInf).
Proof.
  intros Hba. unfold eval_prior. cbn. unfold fgt. cbn.
  rewrite (Rltb_true b a) by lra. rewrite (Rltb_false a b) by lra.
  cbn.
  split.
  - intros [Hlo Hhi].
    rewrite (Rleb_true b p) by assumption.
    rewrite (Rleb_true p a) by assumption. cbn.
    rewrite Reqb_false by lra.
    assert (Hneg : 1 / (b + - a) < 0).
    { apply Rmult_pos_neg; [lra |]. apply Rinv_lt_0_compat. lra. }
    unfold flog. rewrite Rltb_false by lra. now rewrite Reqb_false by lra.
  - intros [Hlo | Hhi].
    + now rewrite (Rleb_false b p) by lra.
    + destruct (Rleb b p); cbn; [| reflexivity].
      now rewrite (Rleb_false p a) by lra.
Qed.

Lemma set_prior_flat (priors : registry) (param : string) (args : list float) :
  set_prior priors param args "flat"
  = Ok (registry_set priors param (FlatPrior args)).
Proof. reflexivity. Qed.

Lemma set_flat_priors_fold (table : list (string * (float * float)))
    (priors : registry) :
  set_flat_priors priors table
  = Ok (fold_left (fun p kv =>
                     registry_set p (fst kv)
                       (FlatPrior [fst (snd kv); snd (snd kv)]))
          table priors).
Proof.
  revert priors. induction table as [| [k [lo hi]] rest IH]; intros priors.
  - reflexivity.
  - cbn [set_flat_priors]. rewrite set_prior_flat. cbn [bind]. apply IH.
Qed.

Lemma np_nanmin_returns (a : array2) :
  returns (np_nanmin a) <-> concat a <> [].
Proof.
  unfold np_nanmin, returns. destruct (concat a) as [| x l].
  - split; [intros [v H]; discriminate H | intros H; now contradiction H].
  - split; [intros _; discriminate |]. intros _.
    destruct (filter _ _); eauto.
Qed.

Lemma np_nanmax_returns (a : array2) :
  returns (np_nanmax a) <-> concat a <> [].
Proof.
  unfold np_nanmax, returns. destruct (concat a) as [| x l].
  - split; [intros [v H]; discriminate H | intros H; now contradiction H].
  - split; [intros _; discriminate |]. intros _.
    destruct (filter _ _); eauto.
Qed.

Lemma np_amax_returns (a : array1) : returns (np_amax a) <-> a <> [].
Proof.
  unfold np_amax, returns. destruct a as [| x l].
  - split; [intros [v H]; discriminate H | intros H; now contradiction H].
  - split; [intros _; discriminate |]. intros _.
    destruct (existsb isnan (x :: l)); eauto.
Qed.

(** X16.  [_set_default_priors] needs a map with pixels and an x axis; it then
    gives each of its twenty parameters a flat prior, whatever prior the
    registry held for it, and leaves the priors of other parameters alone. *)
Theorem set_default_priors_registry (self : rotationmap) (priors : registry) :
  (returns (_set_default_priors self priors)
   <-> concat (data self) <> [] /\ xaxis self <> [])
  /\ (forall priors',
        _set_default_priors self priors = Ok priors' ->
        (forall k, In k default_prior_names ->
           exists lo hi, registry_get priors' k = Some (FlatPrior [lo; hi]))
        /\ (forall k, ~ In k default_prior_names ->
              registry_get priors' k = registry_get priors k)).
Proof.
  unfold _set_default_priors.
  rewrite set_flat_priors_fold. cbn [bind].
  assert (Hmin := np_nanmin_returns (data self)).
  assert (Hmax := np_nanmax_returns (data self)).
  assert (Hamax := np_amax_returns (xaxis self)).
  unfold returns in *.
  destruct (np_nanmin (data self)) as [v_min | e1].
  2:{ cbn [bind]. split.
      - split; [intros [? H]; discriminate H |].
        intros [Hd _]. apply Hmin in Hd as [? Hd]. discriminate Hd.
      - intros ? H. discriminate H. }
  destruct (np_nanmax (data self)) as [v_max | e2].
  2:{ cbn [bind]. split.
      - split; [intros [? H]; discriminate H |].
        intros [Hd _]. apply Hmax in Hd as [? Hd]. discriminate Hd.
      - intros ? H. discriminate H. }
  cbn [bind]. rewrite set_prior_flat. cbn [bind].
  rewrite set_flat_priors_fold. cbn [bind].
  destruct (np_amax (xaxis self)) as [x_max | e3].
  2:{ cbn [bind]. split.
      - split; [intros [? H]; discriminate H |].
        intros [_ Hx]. apply Hamax in Hx as [? Hx]. discriminate Hx.
      - intros ? H. discriminate H. }
  cbn [bind]. rewrite set_prior_flat. cbn [bind].
  rewrite set_flat_priors_fold.
  split.
  - split; [| intros _; eauto].
    intros _. split; [apply Hmin | apply Hamax]; eauto.
  - intros priors' H. apply Ok_inj in H. subst priors'.
    cbn [fold_left fst snd].
    split.
    + intros k Hk. unfold default_prior_names in Hk. cbn [In] in Hk.
      repeat (destruct Hk as [<- | Hk];
              [rewrite !registry_get_set_eq;
               cbn [String.eqb Ascii.eqb Bool.eqb]; eauto |]).
      contradiction.
    + intros k Hk.
      assert (Hf : forall s, In s default_prior_names ->
                             String.eqb s k = false).
      { intros s Hs. destruct (String.eqb s k) eqn:E; [| reflexivity].
        apply String.eqb_eq in E. subst s. contradiction. }
      rewrite !registry_get_set_eq.
      repeat match goal with
             | |- context [String.eqb ?s k] =>
                 rewrite (Hf s)
                   by (unfold default_prior_names;
                       repeat first [left; reflexivity | right])
             end.
      reflexivity.
Qed.

End MorePriors.

(** ** Coordinates of the pixels *)

Section Coordinates.

Local Open Scope string_scope.

Variable self : rotationmap.

(** X17.  On a map with [shadowed] set nothing that needs the coordinates of
    the pixels returns: [disk_coords] raises for every dictionary, and with it
    [vphi], [_make_model] and [evaluate_model]; [_calc_ivar] gives no
    weights. *)
Theorem shadowed_map_raises (params : dict) :
  shadowed self = true ->
  raises (disk_coords self params)
  /\ raises (vphi self params)
  /\ raises (_make_model self params)
  /\ raises (evaluate_model self params)
  /\ forall weights, _calc_ivar self params <> Passed (Ok weights).
Proof.
  intros Hsh.
  assert (Hdc : forall kw, raises (disk_coords self kw)).
  { intros kw. unfold disk_coords.
    apply bind_raises. intros frame _.
    destruct (negb _); [now eexists |].
    apply bind_raises. intros inc _.
    destruct (xorb _ _); [now eexists |].
    rewrite Hsh. now eexists. }
  assert (Hmm : forall kw, raises (_make_model self kw)).
  { intros kw. unfold _make_model, vphi. now do 2 apply raises_bind. }
  split; [apply Hdc |].
  split; [unfold vphi; now apply raises_bind |].
  split; [apply Hmm |].
  split.
  - unfold evaluate_model. apply bind_raises. intros out _. apply Hmm.
  - intros weights. unfold _calc_ivar.
    destruct (negb _); [discriminate |].
    destruct (Hdc params) as [e ->]. cbn [bind]. discriminate.
Qed.

Lemma shape_meshgrid (xs ys : array1) :
  shape (meshgrid xs ys) = repeat (length xs) (length ys).
Proof.
  unfold shape, meshgrid. rewrite map_map.
  induction ys as [| y ys IH]; simpl; [reflexivity |].
  now rewrite length_map, IH.
Qed.

Lemma shape_get_flared_coords (x0 y0 : float) (xs ys : array1)
    (inc PA z0 r_cavity r_taper psi q_taper w_r w_i w_t : float) (niter : nat) :
  shape (dp.get_flared_coords x0 y0 xs ys inc PA z0 r_cavity r_taper psi
           q_taper w_r w_i w_t niter)
  = repeat (length xs) (length ys).
Proof.
  unfold dp.get_flared_coords, dp.get_midplane_cart_coords,
    dp.get_cart_sky_coords.
  now rewrite !shape_gmap, shape_meshgrid, !length_map.
Qed.

(** X18.  The images that [disk_coords] returns have one row for each offset
    of the y axis and one column for each offset of the x axis, the axes being
    those of the map unless the dictionary gives others. *)
Theorem disk_coords_shape (kw : dict) (coords : grid (float * float * float)) :
  disk_coords self kw = Ok coords ->
  exists xs ys,
    as_axis (kwarg kw "xaxis" VNone) (xaxis self) = Ok xs
    /\ as_axis (kwarg kw "yaxis" VNone) (yaxis self) = Ok ys
    /\ shape coords = repeat (length xs) (length ys).
Proof.
  unfold disk_coords. intros H.
  apply bind_Ok_inv in H as [frame [_ H]].
  destruct (negb _); [discriminate H |].
  apply bind_Ok_inv in H as [inc [Hinc H]].
  destruct (xorb _ _); [discriminate H |].
  destruct (shadowed self); [discriminate H |].
  apply bind_Ok_inv in H as [xs [Hxs H]].
  apply bind_Ok_inv in H as [ys [Hys H]].
  apply bind_Ok_inv in H as [x0 [_ H]].
  apply bind_Ok_inv in H as [y0 [_ H]].
  apply bind_Ok_inv in H as [PA [_ H]].
  apply bind_Ok_inv in H as [z0 [_ H]].
  apply bind_Ok_inv in H as [r_cavity [_ H]].
  apply bind_Ok_inv in H as [r_taper [_ H]].
  apply bind_Ok_inv in H as [psi [_ H]].
  apply bind_Ok_inv in H as [q_taper [_ H]].
  apply bind_Ok_inv in H as [w_r [_ H]].
  apply bind_Ok_inv in H as [w_i [_ H]].
  apply bind_Ok_inv in H as [w_t [_ H]].
  exists xs, ys. split; [exact Hxs |]. split; [exact Hys |].
  destruct (String.eqb frame "cylindrical"); apply Ok_inj in H; subst coords;
    rewrite ?shape_gmap; apply shape_get_flared_coords.
Qed.

Lemma as_float_number (v : value) :
  is_number v = true -> exists x, as_float v = Ok x.
Proof. destruct v; try discriminate; simpl; eauto. Qed.

Lemma kwarg_number (keys : list string) (kw : dict) (k : string)
    (dflt : value) :
  numeric_entries keys kw -> In k keys -> is_number dflt = true ->
  is_number (kwarg kw k dflt) = true.
Proof.
  intros Hnum Hk Hd. unfold kwarg, dict_get_default.
  destruct (dict_get kw k) as [v |] eqn:E; [now apply (Hnum k) | exact Hd].
Qed.

Lemma none_to_number (v dflt : value) :
  is_number v = true -> none_to v dflt = v.
Proof. destruct v; try discriminate; reflexivity. Qed.

Lemma kwarg_none_number (keys : list string) (kw : dict) (k : string)
    (dflt : value) :
  numeric_entries keys kw -> In k keys -> is_number dflt = true ->
  is_number (none_to (kwarg kw k VNone) dflt) = true.
Proof.
  intros Hnum Hk Hd. unfold kwarg, dict_get_default.
  destruct (dict_get kw k) as [v |] eqn:E; [| exact Hd].
  rewrite none_to_number; now apply (Hnum k).
Qed.

Lemma kwarg_is_none (kw : dict) (k : string) :
  is_none kw k = true -> kwarg kw k VNone = VNone.
Proof.
  unfold is_none, kwarg, dict_get_default.
  destruct (dict_get kw k) as [[] |]; try discriminate; reflexivity.
Qed.

Ltac geometry_key :=
  unfold geometry_keys; repeat first [left; reflexivity | right].

(** [disk_coords] returns for a dictionary whose geometric entries are
    numbers. *)
Lemma disk_coords_Ok (kw : dict) :
  shadowed self = false -> frame_ok kw -> own_axes kw ->
  numeric_entries geometry_keys kw -> taper_pair_ok kw ->
  exists coords,
    disk_coords self kw = Ok coords
    /\ shape coords = repeat (length (xaxis self)) (length (yaxis self)).
Proof.
  intros Hsh Hframe [Hxa Hya] Hnum Htaper.
  assert (Hfr : exists frame,
             match kwarg kw "frame" (VStr "cylindrical") with
             | VStr s => Ok (lower s)
             | _ => Err AttributeError
             end = Ok frame
             /\ (frame = "cylindrical" \/ frame = "cartesian")).
  { unfold frame_ok in Hframe. unfold kwarg, dict_get_default.
    destruct (dict_get kw "frame") as [[| | | | s |] |]; try contradiction.
    - eauto.
    - exists "cylindrical". split; [reflexivity | now left]. }
  destruct Hfr as [frame [Efr Hfr]].
  assert (Hn : forall k d, In k geometry_keys -> is_number d = true ->
                 exists x, as_float (kwarg kw k d) = Ok x).
  { intros k d Hk Hd. apply as_float_number.
    now apply (kwarg_number geometry_keys). }
  assert (Hnn : forall k d d', In k geometry_keys -> is_number d = true ->
                  is_number d' = true ->
                  exists x, as_float (none_to (kwarg kw k d) d') = Ok x).
  { intros k d d' Hk Hd Hd'. apply as_float_number.
    rewrite none_to_number; now apply (kwarg_number geometry_keys). }
  assert (Hno : forall k d, In k geometry_keys -> is_number d = true ->
                  exists x, as_float (none_to (kwarg kw k VNone) d) = Ok x).
  { intros k d Hk Hd. apply as_float_number.
    now apply (kwarg_none_number geometry_keys). }
  destruct (Hn "inc" (VFloat (Fin 0))) as [inc Einc];
    [geometry_key | reflexivity |].
  destruct (Hn "x0" (VFloat (Fin 0))) as [x0 Ex0];
    [geometry_key | reflexivity |].
  destruct (Hn "y0" (VFloat (Fin 0))) as [y0 Ey0];
    [geometry_key | reflexivity |].
  destruct (Hn "PA" (VFloat (Fin 0))) as [PA EPA];
    [geometry_key | reflexivity |].
  destruct (Hnn "z0" (VFloat (Fin 0)) (VFloat (Fin 0))) as [z0 Ez0];
    [geometry_key | reflexivity | reflexivity |].
  destruct (Hnn "psi" (VFloat (Fin 0)) (VFloat (Fin 1))) as [psi Epsi];
    [geometry_key | reflexivity | reflexivity |].
  destruct (Hnn "r_cavity" (VFloat (Fin 0)) (VFloat (Fin 0)))
    as [r_cavity Erc]; [geometry_key | reflexivity | reflexivity |].
  destruct (Hno "r_taper" (VFloat PInf)) as [r_taper Ert];
    [geometry_key | reflexivity |].
  destruct (Hno "q_taper" (VFloat (Fin 1))) as [q_taper Eqt];
    [geometry_key | reflexivity |].
  destruct (Hn "w_r" (VFloat (Fin 1))) as [w_r Ewr];
    [geometry_key | reflexivity |].
  destruct (Hn "w_i" (VFloat (Fin 0))) as [w_i Ewi];
    [geometry_key | reflexivity |].
  destruct (Hn "w_t" (VFloat (Fin 0))) as [w_t Ewt];
    [geometry_key | reflexivity |].
  unfold disk_coords.
  rewrite Efr. cbn [bind].
  assert (Hvalid : negb (String.eqb frame "cylindrical"
                         || String.eqb frame "cartesian") = false).
  { destruct Hfr as [-> | ->]; reflexivity. }
  rewrite Hvalid, Einc. cbn [bind].
  unfold taper_pair_ok in Htaper. rewrite Htaper, xorb_nilpotent, Hsh.
  rewrite (kwarg_is_none kw "xaxis" Hxa), (kwarg_is_none kw "yaxis" Hya).
  cbn [as_axis bind].
  rewrite Ex0. cbn [bind]. rewrite Ey0. cbn [bind]. rewrite EPA. cbn [bind].
  rewrite Ez0. cbn [bind]. rewrite Erc. cbn [bind]. rewrite Ert. cbn [bind].
  rewrite Epsi. cbn [bind]. rewrite Eqt. cbn [bind]. rewrite Ewr. cbn [bind].
  rewrite Ewi. cbn [bind]. rewrite Ewt. cbn [bind].
  destruct (String.eqb frame "cylindrical"); eexists;
    (split; [reflexivity |]);
    rewrite ?shape_gmap; apply shape_get_flared_coords.
Qed.

End Coordinates.

(** ** Verified dictionaries *)

Section Verified.

Local Open Scope string_scope.

Variable self : rotationmap.

(** What [verify_params_dictionary] returns, in terms of the dictionary
    with its defaults filled in. *)
Lemma verify_Ok_out (params out : dict) :
  verify_params_dictionary self params = Ok out ->
  exists x_max v_min v_max b,
    py_max (xaxis self) = Ok x_max
    /\ np_nanmin (data self) = Ok v_min
    /\ np_nanmax (data self) = Ok v_max
    /\ is_none params "inc" = false
    /\ is_none params "PA" = false
    /\ is_none params "vp_100" = negb (is_none params "mstar")
    /\ check_bounds (filled self params
                       (if negb (is_none params "mstar") then "proj_vkep"
                        else "proj_vpow") x_max v_min v_max)
         "r_min" "r_max" "`r_max` must be greater than `r_min`." = Ok tt
    /\ check_bounds (filled self params
                       (if negb (is_none params "mstar") then "proj_vkep"
                        else "proj_vpow") x_max v_min v_max)
         "PA_min" "PA_max" "`PA_max` must be great than `PA_min`." = Ok tt
    /\ check_bounds (filled self params
                       (if negb (is_none params "mstar") then "proj_vkep"
                        else "proj_vpow") x_max v_min v_max)
         "v_min" "v_max" "`v_max` must be greater than `v_min`." = Ok tt
    /\ py_bool (dict_get_default params "beam" (VBool false)) = Ok b
    /\ out = dict_set (dict_remove
                         (filled self params
                            (if negb (is_none params "mstar") then "proj_vkep"
                             else "proj_vpow") x_max v_min v_max) "beam")
               "beam" (VBool b).
Proof.
  intros Hout.
  destruct (verify_Ok_inv self params out Hout)
    as [x_max [v_min [v_max [Hx [Hmin Hmax]]]]].
  exists x_max, v_min, v_max.
  revert Hout.
  rewrite (verify_unfold self params x_max v_min v_max Hx Hmin Hmax).
  cbv zeta.
  set (F := filled self params _ x_max v_min v_max).
  assert (Ebeam : dict_get_default F "beam" (VBool false)
                  = dict_get_default params "beam" (VBool false)).
  { unfold dict_get_default, F. now rewrite filled_get_other. }
  rewrite Ebeam.
  destruct (is_none params "inc"); [discriminate |].
  destruct (is_none params "PA"); [discriminate |].
  assert (Htail :
    (_ <- check_bounds F "r_min" "r_max"
            "`r_max` must be greater than `r_min`." ;;
     _ <- check_bounds F "PA_min" "PA_max"
            "`PA_max` must be great than `PA_min`." ;;
     _ <- check_bounds F "v_min" "v_max"
            "`v_max` must be greater than `v_min`." ;;
     b <- py_bool (dict_get_default params "beam" (VBool false)) ;;
     Ok (dict_set (dict_remove F "beam") "beam" (VBool b))) = Ok out ->
    exists b,
      check_bounds F "r_min" "r_max"
        "`r_max` must be greater than `r_min`." = Ok tt
      /\ check_bounds F "PA_min" "PA_max"
           "`PA_max` must be great than `PA_min`." = Ok tt
      /\ check_bounds F "v_min" "v_max"
           "`v_max` must be greater than `v_min`." = Ok tt
      /\ py_bool (dict_get_default params "beam" (VBool false)) = Ok b
      /\ out = dict_set (dict_remove F "beam") "beam" (VBool b)).
  { clearbody F.
    destruct (check_bounds F "r_min" "r_max" _) as [[] | e1];
      [| discriminate].
    destruct (check_bounds F "PA_min" "PA_max" _) as [[] | e2];
      [| discriminate].
    destruct (check_bounds F "v_min" "v_max" _) as [[] | e3];
      [| discriminate].
    destruct (py_bool _) as [b | e4]; [| discriminate].
    cbn [bind]. intros H. apply Ok_inj in H. exists b.
    repeat (split; [reflexivity |]). now symmetry. }
  destruct (is_none params "mstar"), (is_none params "vp_100");
    cbn [negb andb]; try discriminate;
    intros H; destruct (Htail H) as [b Hb]; exists b;
    repeat (split; [first [assumption | reflexivity] |]); exact Hb.
Qed.

(** The entries of a verified dictionary. *)
Lemma verified_get (params : dict) (vfunc : string)
    (x_max v_min v_max : float) (b : bool) (k : string) :
  dict_get (dict_set (dict_remove
                        (filled self params vfunc x_max v_min v_max) "beam")
              "beam" (VBool b)) k
  = if String.eqb "beam" k then Some (VBool b)
    else if String.eqb "vfunc" k then Some (VStr vfunc)
    else match table_get (default_tables self x_max v_min v_max) k with
         | Some dflt => Some (dict_get_default params k dflt)
         | None => dict_get params k
         end.
Proof.
  rewrite dict_get_set.
  destruct (String.eqb "beam" k) eqn:Eb; [reflexivity |].
  rewrite dict_get_remove, Eb.
  destruct (String.eqb "vfunc" k) eqn:Ev.
  - apply String.eqb_eq in Ev. subst k. unfold filled. dict_lookup.
    reflexivity.
  - destruct (table_get (default_tables self x_max v_min v_max) k)
      as [dflt |] eqn:Et.
    + apply filled_get_default. now apply table_get_In.
    + now apply filled_get_other.
Qed.

End Verified.

(** ** The Keplerian model *)

Section KeplerianModel.

Local Open Scope string_scope.

Variable self : rotationmap.

(** [_make_model] returns for a Keplerian dictionary without a beam whose
    coordinates exist. *)
Lemma make_model_Ok (d : dict) (coords : grid (float * float * float))
    (vd vm vi vv : value) :
  disk_coords self d = Ok coords ->
  dict_get d "vfunc" = Some (VStr "proj_vkep") ->
  dict_get d "dist" = Some vd -> is_number vd = true ->
  dict_get d "mstar" = Some vm -> is_number vm = true ->
  dict_get d "inc" = Some vi -> is_number vi = true ->
  dict_get d "vlsr" = Some vv -> is_number vv = true ->
  dict_get d "beam" = Some (VBool false) ->
  exists model, _make_model self d = Ok model /\ shape model = shape coords.
Proof.
  intros Hdc Hvf Hd Nd Hm Nm Hi Ni Hv Nv Hb.
  destruct (as_float_number vd Nd) as [dist Ed].
  destruct (as_float_number vm Nm) as [mstar Em].
  destruct (as_float_number vi Ni) as [inc Ei].
  destruct (as_float_number vv Nv) as [vlsr0 Ev].
  unfold _make_model, vphi, item_float, dict_item.
  rewrite Hdc, Hvf, Hd, Hm, Hi, Hv, Hb. cbn [bind].
  change (py_eq_str (VStr "proj_vkep") "proj_vkep") with true.
  cbv iota. cbn [bind].
  rewrite Ed. cbn [bind]. rewrite Em. cbn [bind]. rewrite Ei. cbn [bind].
  rewrite Ev. cbn [bind py_bool].
  eexists. split; [reflexivity |].
  now rewrite !shape_gmap.
Qed.

Ltac model_key :=
  unfold model_keys, geometry_keys; cbn [app];
  repeat first [left; reflexivity | right].

Lemma is_number_not_none (v : value) :
  is_number v = true -> is_not_none v = true.
Proof. destruct v; try discriminate; reflexivity. Qed.

Lemma is_none_false_get (d : dict) (k : string) :
  is_none d k = false -> exists v, dict_get d k = Some v.
Proof.
  unfold is_none. destruct (dict_get d k) as [v |]; [eauto | discriminate].
Qed.

(** X19.  For a Keplerian dictionary that passes the verification and whose
    entries are numbers, [evaluate_model] returns a velocity for every pixel
    of the map. *)
Theorem keplerian_model_returns (params out : dict) :
  shadowed self = false ->
  verify_params_dictionary self params = Ok out ->
  is_none params "mstar" = false ->
  frame_ok params -> own_axes params ->
  numeric_entries model_keys params ->
  py_bool (dict_get_default params "beam" (VBool false)) = Ok false ->
  exists model,
    evaluate_model self params = Ok model
    /\ shape model = repeat (length (xaxis self)) (length (yaxis self)).
Proof.
  intros Hsh Hout Hm Hframe [Hxa Hya] Hnum Hbeam.
  unfold evaluate_model. rewrite Hout. cbn [bind].
  destruct (verify_Ok_out self params out Hout)
    as [x_max [v_min [v_max [b [_ [_ [_ [Hinc [_ [_ [_ [_ [_
         [Hb ->]]]]]]]]]]]]]].
  rewrite Hbeam in Hb. apply Ok_inj in Hb. subst b.
  rewrite Hm. cbn [negb].
  set (out := dict_set _ "beam" (VBool false)).
  assert (Hget : forall k,
             dict_get out k
             = if String.eqb "beam" k then Some (VBool false)
               else if String.eqb "vfunc" k then Some (VStr "proj_vkep")
               else match table_get (default_tables self x_max v_min v_max) k
                    with
                    | Some dflt => Some (dict_get_default params k dflt)
                    | None => dict_get params k
                    end)
    by (intros k; apply verified_get).
  clearbody out.
  assert (Hnum' : forall k v, In k model_keys -> dict_get out k = Some v ->
                    is_number v = true).
  { intros k v Hk. rewrite Hget.
    assert (Hd : forall dflt, is_number dflt = true ->
                   Some (dict_get_default params k dflt) = Some v ->
                   is_number v = true).
    { intros dflt Hdf H. injection H as H. subst v.
      unfold dict_get_default.
      destruct (dict_get params k) as [w |] eqn:E;
        [now apply (Hnum k) | exact Hdf]. }
    unfold model_keys, geometry_keys in Hk. cbn [app In] in Hk.
    repeat (destruct Hk as [<- | Hk];
            [cbn [String.eqb Ascii.eqb Bool.eqb]; unfold default_tables;
             cbn [table_get basic_defaults profile_defaults mask_defaults app
                  String.eqb Ascii.eqb Bool.eqb];
             first [ apply Hd; reflexivity
                   | apply (Hnum _ v); model_key ] |]).
    contradiction. }
  assert (Hother : forall k,
             String.eqb "beam" k = false -> String.eqb "vfunc" k = false ->
             table_get (default_tables self x_max v_min v_max) k = None ->
             dict_get out k = dict_get params k).
  { intros k E1 E2 E3. now rewrite Hget, E1, E2, E3. }
  assert (Hsome : forall k, In k model_keys ->
             (exists dflt,
                 table_get (default_tables self x_max v_min v_max) k
                 = Some dflt)
             \/ is_none params k = false ->
             String.eqb "beam" k = false -> String.eqb "vfunc" k = false ->
             exists v, dict_get out k = Some v /\ is_number v = true).
  { intros k Hk Hcase E1 E2.
    assert (He : exists v, dict_get out k = Some v).
    { rewrite Hget, E1, E2.
      destruct Hcase as [[dflt ->] | Hn]; [eauto |].
      destruct (table_get _ k); [eauto |].
      now apply is_none_false_get. }
    destruct He as [v Hv]. exists v. split; [exact Hv |].
    now apply (Hnum' k). }
  destruct (disk_coords_Ok self out Hsh) as [coords [Hdc Hshape]].
  - unfold frame_ok in *. rewrite Hother by reflexivity. exact Hframe.
  - split;
      [ rewrite (is_none_get out params "xaxis")
      | rewrite (is_none_get out params "yaxis") ];
      first [assumption | now apply Hother].
  - intros k v Hk. apply Hnum'. unfold model_keys. apply in_or_app.
    now left.
  - unfold taper_pair_ok, kwarg, dict_get_default.
    destruct (Hsome "r_taper") as [v1 [-> N1]];
      [model_key | left; now eexists | reflexivity | reflexivity |].
    destruct (Hsome "q_taper") as [v2 [-> N2]];
      [model_key | left; now eexists | reflexivity | reflexivity |].
    now rewrite !is_number_not_none.
  - destruct (Hsome "dist") as [vd [Hd Nd]];
      [model_key | left; now eexists | reflexivity | reflexivity |].
    destruct (Hsome "mstar") as [vm [Hms Nm]];
      [model_key | now right | reflexivity | reflexivity |].
    destruct (Hsome "inc") as [vi [Hi Ni]];
      [model_key | now right | reflexivity | reflexivity |].
    destruct (Hsome "vlsr") as [vv [Hv Nv]];
      [model_key | left; now eexists | reflexivity | reflexivity |].
    destruct (make_model_Ok out coords vd vm vi vv Hdc) as [model [Hmod Hs]];
      try assumption.
    + now rewrite Hget.
    + now rewrite Hget.
    + exists model. split; [exact Hmod | now rewrite Hs].
Qed.

End KeplerianModel.

(** ** Verifying twice *)

Section Idempotent.

Local Open Scope string_scope.

Variable self : rotationmap.

(** X20.  Verifying a verified dictionary succeeds and changes no entry. *)
Theorem verify_params_dictionary_idempotent (params out : dict) :
  verify_params_dictionary self params = Ok out ->
  exists out',
    verify_params_dictionary self out = Ok out'
    /\ forall k, dict_get out' k = dict_get out k.
Proof.
  intros Hout.
  destruct (verify_Ok_out self params out Hout)
    as [x_max [v_min [v_max [b [Hx [Hmin [Hmax [Hinc [HPA [Hvp
         [C1 [C2 [C3 [Hb ->]]]]]]]]]]]]]].
  clear Hout.
  set (vfunc := if negb (is_none params "mstar") then "proj_vkep"
                else "proj_vpow") in *.
  set (out := dict_set _ "beam" (VBool b)).
  assert (Hget : forall k,
             dict_get out k
             = if String.eqb "beam" k then Some (VBool b)
               else if String.eqb "vfunc" k then Some (VStr vfunc)
               else match table_get (default_tables self x_max v_min v_max) k
                    with
                    | Some dflt => Some (dict_get_default params k dflt)
                    | None => dict_get params k
                    end)
    by (intros k; apply verified_get).
  clearbody out.
  assert (Hnone : forall k,
             String.eqb "beam" k = false -> String.eqb "vfunc" k = false ->
             table_get (default_tables self x_max v_min v_max) k = None ->
             is_none out k = is_none params k).
  { intros k E1 E2 E3. apply is_none_get. now rewrite Hget, E1, E2, E3. }
  assert (Hdflt : forall k dflt,
             In (k, dflt) (default_tables self x_max v_min v_max) ->
             String.eqb "beam" k = false -> String.eqb "vfunc" k = false ->
             table_get (default_tables self x_max v_min v_max) k = Some dflt ->
             dict_get_default out k dflt = dict_get_default params k dflt).
  { intros k dflt _ E1 E2 E3. unfold dict_get_default at 1.
    now rewrite Hget, E1, E2, E3. }
  rewrite (verify_unfold self out x_max v_min v_max Hx Hmin Hmax).
  rewrite !Hnone by reflexivity.
  rewrite Hinc, HPA, Hvp.
  fold vfunc. cbv zeta.
  set (F := filled self params vfunc x_max v_min v_max) in *.
  set (F2 := filled self out vfunc x_max v_min v_max).
  assert (E1 : check_bounds F2 "r_min" "r_max"
                 "`r_max` must be greater than `r_min`." = Ok tt).
  { rewrite <- C1. unfold F, F2.
    rewrite !(check_bounds_compare self _ vfunc x_max v_min v_max
                "r_min" "r_max" _ (VFloat (Fin 0)) (VFloat (Fin 1e10))
                ltac:(table_entry) ltac:(table_entry)).
    rewrite !Hdflt; first [reflexivity | table_entry]. }
  assert (E2 : check_bounds F2 "PA_min" "PA_max"
                 "`PA_max` must be great than `PA_min`." = Ok tt).
  { rewrite <- C2. unfold F, F2.
    rewrite !(check_bounds_compare self _ vfunc x_max v_min v_max
                "PA_min" "PA_max" _ (VFloat (Fin (- PI))) (VFloat (Fin PI))
                ltac:(table_entry) ltac:(table_entry)).
    rewrite !Hdflt; first [reflexivity | table_entry]. }
  assert (E3 : check_bounds F2 "v_min" "v_max"
                 "`v_max` must be greater than `v_min`." = Ok tt).
  { rewrite <- C3. unfold F, F2.
    rewrite !(check_bounds_compare self _ vfunc x_max v_min v_max
                "v_min" "v_max" _ (VFloat v_min) (VFloat v_max)
                ltac:(table_entry) ltac:(table_entry)).
    rewrite !Hdflt; first [reflexivity | table_entry]. }
  assert (E4 : py_bool (dict_get_default F2 "beam" (VBool false)) = Ok b).
  { unfold dict_get_default, F2. rewrite filled_get_other by reflexivity.
    rewrite Hget. reflexivity. }
  destruct (is_none params "mstar"); cbn [negb andb];
    rewrite E1, E2, E3, E4; cbn [bind];
    (eexists; split; [reflexivity |]);
    intros k; unfold F2; rewrite verified_get, Hget;
    (destruct (String.eqb "beam" k) eqn:Eb; [reflexivity |]);
    (destruct (String.eqb "vfunc" k) eqn:Ev; [reflexivity |]);
    (destruct (table_get (default_tables self x_max v_min v_max) k)
       as [dflt |] eqn:Et;
     [ f_equal; unfold dict_get_default at 1; now rewrite Hget, Eb, Ev, Et
     | reflexivity ]).
Qed.

End Idempotent.

(** ** The weights *)

Section WeightsProperties.

Local Open Scope string_scope.

Variable self : rotationmap.








End WeightsProperties.

(** ** Downsampling *)

Section Axes.

Lemma every_nth_nth {A : Type} (n skip k : nat) (l : list A) :
  (0 < n)%nat ->
  nth_error (every_nth n skip l) k = nth_error l (skip + k * n).
Proof.
  intros Hn. revert skip k.
  induction l as [| x l IH]; intros skip k; cbn [every_nth].
  - destruct k; now destruct (skip + _ * n)%nat.
  - destruct skip as [| s].
    + destruct k as [| k]; [reflexivity |].
      cbn [nth_error]. rewrite IH.
      replace (0 + S k * n)%nat with (S (n - 1 + k * n)) by lia.
      reflexivity.
    + rewrite IH. reflexivity.
Qed.

Lemma slice_from_step_nth {A : Type} (a : list A) (N : Z) (k : nat) :
  (1 <= N)%Z ->
  nth_error (slice_from_step a (Z.quot N 2) N) k
  = nth_error a (Z.to_nat (N / 2) + k * Z.to_nat N).
Proof.
  intros HN. unfold slice_from_step.
  rewrite Z.quot_div_nonneg by lia.
  assert (H0 : (0 <= N / 2)%Z) by (apply Z.div_pos; lia).
  destruct (0 <? N)%Z eqn:E; [| apply Z.ltb_ge in E; lia].
  destruct (N / 2 <? 0)%Z eqn:E0; [apply Z.ltb_lt in E0; lia |].
  rewrite every_nth_nth by lia.
  destruct (Z.le_gt_cases (N / 2) (Z.of_nat (length a))) as [Hle | Hgt].
  - now rewrite Z.min_l by assumption.
  - rewrite Z.min_r by lia. rewrite Nat2Z.id.
    transitivity (@None A); [| symmetry]; apply nth_error_None; lia.
Qed.

Lemma pixel_slice (g : array2) (N : Z) (i j : nat) :
  (1 <= N)%Z ->
  pixel (map (fun row => slice_from_step row (Z.quot N 2) N)
           (slice_from_step g (Z.quot N 2) N)) i j
  = pixel g (Z.to_nat (N / 2) + i * Z.to_nat N)
      (Z.to_nat (N / 2) + j * Z.to_nat N).
Proof.
  intros HN. unfold pixel.
  rewrite nth_error_map, slice_from_step_nth by exact HN.
  destruct (nth_error g _) as [row |]; cbn [option_map]; [| reflexivity].
  now apply slice_from_step_nth.
Qed.

(** X22.  Downsampling by [N >= 1] keeps every [N]-th pixel, starting at pixel
    [N / 2], of both axes and both images: a pixel of the new map and its
    position on the new axes are a pixel of the old map and its position. *)
Theorem downsample_cube_pixels (self self' : rotationmap) (N : Z) :
  (1 <= N)%Z ->
  _downsample_cube self N = Ok self' ->
  let pick (k : nat) := (Z.to_nat (N / 2) + k * Z.to_nat N)%nat in
  (forall j, nth_error (xaxis self') j = nth_error (xaxis self) (pick j))
  /\ (forall i, nth_error (yaxis self') i = nth_error (yaxis self) (pick i))
  /\ (forall i j, pixel (data self') i j = pixel (data self) (pick i) (pick j))
  /\ (forall i j,
        pixel (error self') i j = pixel (error self) (pick i) (pick j)).
Proof.
  intros HN. unfold _downsample_cube.
  destruct (N =? 0)%Z eqn:E; [apply Z.eqb_eq in E; lia |].
  intros H. apply Ok_inj in H. subst self'. cbn [xaxis yaxis data error].
  split; [intros j; now apply slice_from_step_nth |].
  split; [intros i; now apply slice_from_step_nth |].
  split; intros i j; now apply pixel_slice.
Qed.

End Axes.

(** ** The position axes *)

Section PositionAxis.

Lemma nth_error_seq_lt (s m i : nat) :
  (i < m)%nat -> nth_error (seq s m) i = Some (s + i)%nat.
Proof.
  revert s i. induction m as [| m IH]; intros s i Hi; [lia |].
  destruct i as [| i]; cbn [seq nth_error].
  - f_equal. lia.
  - rewrite IH by lia. f_equal. lia.
Qed.

Lemma axis_diff (c p : R) (s k : nat) :
  map fabs
    (zip_with fsub (map (fun i => Fin (axis_offset c p i)) (seq (S s) k))
       (map (fun i => Fin (axis_offset c p i)) (seq s (S k))))
  = repeat (Fin (3600 * Rabs c)) k.
Proof.
  revert s. induction k as [| k IH]; intros s; [reflexivity |].
  cbn [seq map zip_with repeat]. f_equal.
  - cbn. f_equal. unfold axis_offset. rewrite S_INR.
    replace (3600 * ((INR s + 1 - p + 1.5) * c)
             + - (3600 * ((INR s - p + 1.5) * c))) with (3600 * c) by ring.
    rewrite Rabs_mult. f_equal. apply Rabs_pos_eq. lra.
  - apply (IH (S s)).
Qed.

Lemma sum_repeat (d acc : R) (k : nat) :
  fold_left fadd (repeat (Fin d) k) (Fin acc) = Fin (acc + INR k * d).
Proof.
  revert acc. induction k as [| k IH]; intros acc.
  - cbn. f_equal. ring.
  - cbn [repeat fold_left fadd]. rewrite IH. f_equal. rewrite S_INR. ring.
Qed.

(** X23.  The axis read from the header has [NAXIS] offsets in steps of 3600
    [CDELT]: offset [i] is [3600 (i - CRPIX + 1.5) CDELT] arcseconds, and,
    with two pixels or more, the pixel scale is [3600 |CDELT|]. *)
Theorem read_position_axis_offsets (header : fits_header) (a n : Z)
    (c p : R) :
  (a = 1 \/ a = 2)%Z ->
  naxis header a = Some n ->
  cdelt header a = Some (Fin c) ->
  crpix header a = Some (Fin p) ->
  exists axis,
    _read_position_axis header a = Ok axis
    /\ length axis = Z.to_nat n
    /\ (forall i, (i < Z.to_nat n)%nat ->
          nth_error axis i = Some (Fin (3600 * ((INR i - p + 1.5) * c))))
    /\ ((2 <= n)%Z -> dpix axis = Fin (3600 * Rabs c)).
Proof.
  intros Ha Hn Hc Hp.
  exists (map (fun i => Fin (axis_offset c p i)) (seq 0 (Z.to_nat n))).
  split; [| split; [| split]].
  - unfold _read_position_axis, header_item.
    assert (Hav : negb ((a =? 1)%Z || (a =? 2)%Z) = false)
      by (destruct Ha as [-> | ->]; reflexivity).
    rewrite Hav, Hn, Hc, Hp. reflexivity.
  - now rewrite length_map, length_seq.
  - intros i Hi. rewrite nth_error_map, nth_error_seq_lt by exact Hi.
    reflexivity.
  - intros Hn2. unfold dpix, np_mean, np_diff.
    destruct (Z.to_nat n) as [| m] eqn:Em; [lia |].
    cbn [seq map]. 
    change (Fin (axis_offset c p 0)
            :: map (fun i => Fin (axis_offset c p i)) (seq 1 m))
      with (map (fun i => Fin (axis_offset c p i)) (seq 0 (S m))).
    rewrite axis_diff, sum_repeat, repeat_length.
    assert (Hm : 0 < INR m) by (apply lt_0_INR; lia).
    cbn [fdiv]. rewrite Reqb_false by lra. f_equal. field. lra.
Qed.

End PositionAxis.

(** ** Instances of the further properties *)

Lemma surface_inside_cavity_witness :
  1 <= 2 /\ 0 < 1 /\ taper_radius_ok PInf /\ 1 <> 0
  /\ dp.z_func (Fin 1) (Fin 0.3) (Fin 2) PInf (Fin 1) (Fin 1) = Fin 0
  /\ dp.w_func (Fin 1) (Fin 0) (Fin 2) (Fin 1) (Fin 10) (Fin 0) = Fin 0.
Proof.
  assert (H1 : 1 <= 2) by lra. assert (H2 : 0 < 1) by lra.
  assert (H3 : taper_radius_ok PInf) by now left.
  assert (H4 : 1 <> 0) by lra.
  repeat (split; [assumption |]).
  exact (surface_inside_cavity 1 2 0.3 1 1 1 10 0 0 PInf H1 H2 H3 H4).
Defined.

Lemma z_func_tapered_power_law_witness :
  0 < 1 /\ 0 <= 0.3 /\ 0 < 1 /\ 0 < 2
  /\ dp.z_func (Fin 1) (Fin 0.3) (Fin 0) (Fin 2) (Fin 1.5) (Fin 1)
     = Fin (0.3 * Rpower (1 - 0) 1.5 * exp (- Rpower ((1 - 0) / 2) 1))
  /\ dp.z_func (Fin 1) (Fin 0.3) (Fin 0) PInf (Fin 1.5) (Fin 1)
     = Fin (0.3 * Rpower (1 - 0) 1.5).
Proof.
  assert (H1 : 0 < 1) by lra. assert (H2 : 0 <= 0.3) by lra.
  assert (H3 : 0 < 2) by lra.
  split; [exact H1 |]. split; [exact H2 |]. split; [exact H1 |].
  split; [exact H3 |].
  exact (z_func_tapered_power_law 1 0 0.3 1.5 1 2 H1 H2 H1 H3).
Defined.

Lemma proj_vkep_midplane_witness :
  0 < 1 /\ 0 < 100 /\ 0 <= 1
  /\ models.proj_vkep (Fin 1) (Fin 0) (Fin 0) (Fin 100) (Fin 1) (Fin 30)
     = Fin (sqrt (6.6743e-11 * 1 * 1.988e30 / (1 * 149597870700 * 100))
            * cos 0 * Rabs (sin (30 * (PI / 180)))).
Proof.
  assert (H1 : 0 < 1) by lra. assert (H2 : 0 < 100) by lra.
  assert (H3 : 0 <= 1) by lra.
  repeat (split; [assumption |]).
  exact (proj_vkep_midplane 1 0 100 1 30 H1 H2 H3).
Defined.

(** With no prior registered, the log-probability of the Keplerian example
    is its log-likelihood. *)
Lemma kep_probability_returns :
  exists lnP, fst (_ln_probability [] example_map [] kep_params) = Ok lnP.
Proof.
  destruct kep_model_returns as [model [Hm Hs]].
  unfold _ln_probability, tbind, lift.
  change (_populate_dictionary [] kep_params) with (Ok kep_params).
  cbn [fst snd].
  change (_ln_prior [] kep_params) with (@tret float (Fin 0)).
  cbn [fst snd tret isfinite].
  unfold _ln_likelihood, tbind, call, lift. cbn [fst snd].
  rewrite Hm. cbn [fst snd].
  unfold np_zip.
  rewrite (proj2 (same_shape_spec (data example_map) _))
    by (now rewrite shape_gmap, Hs).
  cbn [fst snd].
  rewrite (proj2 (same_shape_spec (mask example_map) _))
    by (rewrite shape_gmap, shape_map2_rows;
        [reflexivity | now rewrite shape_gmap, Hs]).
  cbn [fst snd tret]. now eexists.
Qed.

Lemma ln_probability_range_witness :
  exists lnP,
    fst (_ln_probability [] example_map [] kep_params) = Ok lnP
    /\ (lnP = NInf
        \/ exists model lnp r,
             _populate_dictionary [] kep_params = Ok model
             /\ fst (_ln_prior [] model) = Ok (Fin lnp)
             /\ lnP = Fin r /\ r <= lnp).
Proof.
  destruct kep_probability_returns as [lnP H].
  exists lnP. split; [exact H |].
  exact (ln_probability_range [] example_map [] kep_params lnP H).
Defined.

Lemma populate_dictionary_entries_witness :
  _populate_dictionary [Fin 30] accepted_params = Ok accepted_model
  /\ map fst accepted_model = map fst accepted_params
  /\ (forall key n, In (key, VInt n) accepted_params ->
        exists x, np_index [Fin 30] n = Ok x
                  /\ In (key, VFloat x) accepted_model)
  /\ (forall key v, In (key, v) accepted_params ->
        (forall n, v <> VInt n) -> In (key, v) accepted_model)
  /\ (forall key n, ~ In (key, VInt n) accepted_model)
  /\ (forall theta', _populate_dictionary theta' accepted_model
                     = Ok accepted_model).
Proof.
  assert (H : _populate_dictionary [Fin 30] accepted_params
              = Ok accepted_model) by reflexivity.
  split; [exact H |].
  exact (populate_dictionary_entries [Fin 30] accepted_params accepted_model H).
Defined.


Lemma flat_prior_reversed_bounds_witness :
  -2 < 2 /\ -2 <= 0 <= 2
  /\ eval_prior (FlatPrior [Fin 2; Fin (-2)]) (VFloat (Fin 0)) = Ok NaN.
Proof.
  assert (H : -2 < 2) by lra. assert (H' : -2 <= 0 <= 2) by lra.
  split; [exact H |]. split; [exact H' |].
  exact (proj1 (flat_prior_reversed_bounds 2 (-2) 0 H) H').
Defined.

Lemma shadowed_map_raises_witness :
  shadowed shadowed_map = true
  /\ raises (disk_coords shadowed_map kep_params)
  /\ raises (vphi shadowed_map kep_params)
  /\ raises (_make_model shadowed_map kep_params)
  /\ raises (evaluate_model shadowed_map kep_params)
  /\ forall weights, _calc_ivar shadowed_map kep_params <> Passed (Ok weights).
Proof.
  split; [reflexivity |].
  exact (shadowed_map_raises shadowed_map kep_params eq_refl).
Defined.

Ltac numeric_example :=
  let k := fresh "k" in let v := fresh "v" in
  let Hk := fresh "Hk" in let H := fresh "H" in
  intros k v Hk; unfold model_keys, geometry_keys in Hk; cbn [app In] in Hk;
  repeat (destruct Hk as [<- | Hk];
          [cbn; intros H; first [discriminate H
                                | injection H as <-; reflexivity] |]);
  contradiction.

Lemma kep_params_numeric : numeric_entries model_keys kep_params.
Proof. numeric_example. Qed.

Lemma example_params_model_numeric : numeric_entries model_keys example_params.
Proof. numeric_example. Qed.


Lemma numeric_geometry (kw : dict) :
  numeric_entries model_keys kw -> numeric_entries geometry_keys kw.
Proof.
  intros H k v Hk. apply H. unfold model_keys. apply in_or_app. now left.
Qed.

Lemma kep_coords_return :
  exists coords, disk_coords example_map kep_params = Ok coords.
Proof.
  destruct (disk_coords_Ok example_map kep_params) as [coords [H _]];
    [ reflexivity | exact I | now split
    | exact (numeric_geometry _ kep_params_numeric) | reflexivity | eauto ].
Qed.

Lemma disk_coords_shape_witness :
  exists coords,
    disk_coords example_map kep_params = Ok coords
    /\ exists xs ys,
         as_axis (kwarg kep_params "xaxis" VNone) (xaxis example_map) = Ok xs
         /\ as_axis (kwarg kep_params "yaxis" VNone) (yaxis example_map)
            = Ok ys
         /\ shape coords = repeat (length xs) (length ys).
Proof.
  destruct kep_coords_return as [coords H].
  exists coords. split; [exact H |].
  exact (disk_coords_shape example_map kep_params coords H).
Defined.

Lemma example_params_verified :
  exists out, verify_params_dictionary example_map example_params = Ok out.
Proof.
  destruct example_params_checks as [C1 [C2 [C3 C4]]].
  rewrite (verify_unfold example_map _ (Fin 1) (Fin 1) (Fin 1))
    by reflexivity.
  cbn [is_none dict_get String.eqb Ascii.eqb Bool.eqb example_params
       negb andb].
  cbv zeta.
  rewrite (check_bounds_compare example_map _ "proj_vkep"
             (Fin 1) (Fin 1) (Fin 1)
             "r_min" "r_max" "`r_max` must be greater than `r_min`."
             (VFloat (Fin 0)) (VFloat (Fin 1e10))
             ltac:(table_entry) ltac:(table_entry)).
  rewrite (check_bounds_compare example_map _ "proj_vkep"
             (Fin 1) (Fin 1) (Fin 1)
             "PA_min" "PA_max" "`PA_max` must be great than `PA_min`."
             (VFloat (Fin (- PI))) (VFloat (Fin PI))
             ltac:(table_entry) ltac:(table_entry)).
  rewrite (check_bounds_compare example_map _ "proj_vkep"
             (Fin 1) (Fin 1) (Fin 1)
             "v_min" "v_max" "`v_max` must be greater than `v_min`."
             (VFloat (Fin 1)) (VFloat (Fin 1))
             ltac:(table_entry) ltac:(table_entry)).
  assert (Ebeam : dict_get_default
                    (filled example_map example_params "proj_vkep"
                       (Fin 1) (Fin 1) (Fin 1)) "beam" (VBool false)
                  = dict_get_default example_params "beam" (VBool false)).
  { unfold dict_get_default. now rewrite filled_get_other. }
  rewrite Ebeam, C1, C2, C3, C4. cbn [bind]. now eexists.
Qed.

Lemma keplerian_model_returns_witness :
  exists out,
    shadowed example_map = false
    /\ verify_params_dictionary example_map example_params = Ok out
    /\ is_none example_params "mstar" = false
    /\ frame_ok example_params /\ own_axes example_params
    /\ numeric_entries model_keys example_params
    /\ py_bool (dict_get_default example_params "beam" (VBool false))
       = Ok false
    /\ exists model,
         evaluate_model example_map example_params = Ok model
         /\ shape model
            = repeat (length (xaxis example_map)) (length (yaxis example_map)).
Proof.
  destruct example_params_verified as [out Hout].
  assert (H1 : shadowed example_map = false) by reflexivity.
  assert (H2 : is_none example_params "mstar" = false) by reflexivity.
  assert (H3 : frame_ok example_params) by exact I.
  assert (H4 : own_axes example_params) by now split.
  assert (H5 := example_params_model_numeric).
  assert (H6 : py_bool (dict_get_default example_params "beam" (VBool false))
               = Ok false) by reflexivity.
  exists out. repeat (split; [assumption |]).
  exact (keplerian_model_returns example_map example_params out
           H1 Hout H2 H3 H4 H5 H6).
Defined.

Lemma verify_params_dictionary_idempotent_witness :
  exists out,
    verify_params_dictionary example_map example_params = Ok out
    /\ exists out',
         verify_params_dictionary example_map out = Ok out'
         /\ forall k, dict_get out' k = dict_get out k.
Proof.
  destruct example_params_verified as [out Hout].
  exists out. split; [exact Hout |].
  exact (verify_params_dictionary_idempotent example_map example_params out
           Hout).
Defined.




Lemma downsample_cube_pixels_witness :
  exists self',
    (1 <= 2)%Z
    /\ _downsample_cube wide_map 2 = Ok self'
    /\ (forall j, nth_error (xaxis self') j
                  = nth_error (xaxis wide_map)
                      (Z.to_nat (2 / 2) + j * Z.to_nat 2))
    /\ (forall i, nth_error (yaxis self') i
                  = nth_error (yaxis wide_map)
                      (Z.to_nat (2 / 2) + i * Z.to_nat 2))
    /\ (forall i j,
          pixel (data self') i j
          = pixel (data wide_map) (Z.to_nat (2 / 2) + i * Z.to_nat 2)
              (Z.to_nat (2 / 2) + j * Z.to_nat 2))
    /\ (forall i j,
          pixel (error self') i j
          = pixel (error wide_map) (Z.to_nat (2 / 2) + i * Z.to_nat 2)
              (Z.to_nat (2 / 2) + j * Z.to_nat 2)).
Proof.
  assert (H1 : (1 <= 2)%Z) by lia.
  eexists. split; [exact H1 |]. split; [reflexivity |].
  exact (downsample_cube_pixels wide_map _ 2 H1 eq_refl).
Defined.

Lemma read_position_axis_offsets_witness :
  (1 = 1 \/ 1 = 2)%Z
  /\ naxis example_header 1 = Some 3%Z
  /\ cdelt example_header 1 = Some (Fin (- / 3600))
  /\ crpix example_header 1 = Some (Fin 2)
  /\ (2 <= 3)%Z
  /\ exists axis,
       _read_position_axis example_header 1 = Ok axis
       /\ length axis = Z.to_nat 3
       /\ (forall i, (i < Z.to_nat 3)%nat ->
             nth_error axis i
             = Some (Fin (3600 * ((INR i - 2 + 1.5) * (- / 3600)))))
       /\ dpix axis = Fin (3600 * Rabs (- / 3600)).
Proof.
  assert (H1 : (1 = 1 \/ 1 = 2)%Z) by now left.
  assert (H2 : (2 <= 3)%Z) by lia.
  split; [exact H1 |]. do 3 (split; [reflexivity |]). split; [exact H2 |].
  destruct (read_position_axis_offsets example_header 1 3 (- / 3600) 2
              H1 eq_refl eq_refl eq_refl) as [axis [Ha [Hl [Hn Hd]]]].
  exists axis. repeat (split; [assumption |]). exact (Hd H2).
Defined.
